(** * The arena-game server of pygame_agar.io (src/server.py), embedded in Rocq

    The class [GameServer] is embedded state by state: its attributes are
    the fields of the record [Server], each method is a function on that
    record, and every block the source runs under [self.lock] is one
    atomic step.

    Conventions of the embedding.
    - Python [int] values (coordinates, identifiers, ticks) are [Z].
    - Scores are Python numbers, [int] or [float] depending on the last
      operation that wrote them; they are idealised as real numbers [R],
      so [math.sqrt], [math.hypot] and [math.floor] are the exact
      functions, and 0.5, 0.95 and 1.15 the exact fractions. Rounding of
      IEEE doubles is outside this model. So is the [OverflowError]
      [math.hypot] raises when it converts an integer beyond the range
      of doubles: [Py.hypot] is total. Statements that promise how a
      step ends are made for coordinates within that range
      ([float_range]). The comparison with 1.15 is the exact one: at a
      tie such as 115 against 100, where the product in doubles falls
      just below the exact one, the code decides the other way, and the
      examples are chosen away from such ties.
    - A command is a [str]; its characters are taken among the code
      points below 256.
    - [self.players] is a [dict], iterated in insertion order and mutated
      in place: it is an association list in insertion order.
    - [random] is an oracle: a list of raw draws consumed from the left.
      A rejection loop that uses up the list has not finished ([None]).
    - [time.time()] is an argument of the step that reads it.
    - The few assignments of the accept loop, which run without the lock,
      are one step as well.

    The file has four parts: the builtins and the server, translated from
    the source; the vocabulary of the properties; the states used as
    examples; the lemmas, ending with one theorem per claim C1-C10.
    Further properties of the server, X1-X18 and X26, and of the
    commands, the movement and the start menu of the client
    (src/client.py), X19-X25 and X27, follow; their vocabulary and the
    client are defined before the lemmas. Sockets are not modelled: a
    command is a string the server has received whole
    ([fits_one_read] for a chat line), and the movement of the client
    is stated where its doubles are exact ([near_origin]). *)

From Stdlib Require Import List ZArith Reals Lra Lia Bool String Ascii Psatz.
From Stdlib Require Import Zfloor Permutation.
From Stdlib Require Import DecimalString DecimalPos.
Import ListNotations.

#[local] Open Scope string_scope.
#[local] Open Scope list_scope.
#[local] Open Scope Z_scope.

(** ** Python numbers and builtins used by the server *)

Module Py.

(** Comparisons on scores and distances, as boolean tests. *)
Definition Rltb (a b : R) : bool := if Rlt_dec a b then true else false.
Definition Rleb (a b : R) : bool := if Rle_dec a b then true else false.

(** [math.hypot] on two integer differences. *)
Definition hypot (dx dy : Z) : R := sqrt (IZR (dx * dx + dy * dy)).

(** [math.floor], returning an [int]. *)
Definition floor (r : R) : Z := Zfloor r.

(** [round(r)] with one argument: the nearest integer, ties to even. *)
Definition round (r : R) : Z :=
  let f := Zfloor r in
  let d := (r - IZR f)%R in
  if Rlt_dec d (1 / 2) then f
  else if Rlt_dec (1 / 2) d then f + 1
  else if Z.even f then f else f + 1.

(** [list.remove(v)]: drops the first element equal to [v]. (The source
    only removes elements it has just read from a copy of the list, so the
    [ValueError] of an absent element does not arise; the list is then
    returned as it is.) *)
Fixpoint list_remove {A} (eqb : A -> A -> bool) (v : A) (l : list A) : list A :=
  match l with
  | [] => []
  | a :: l' => if eqb a v then l' else a :: list_remove eqb v l'
  end.

(** [l.pop(0)] on a non-empty list, as far as the list is concerned. *)
Definition pop0 {A} (l : list A) : list A := tl l.

(** [s[n:]] on strings. *)
Fixpoint drop (n : nat) (s : string) : string :=
  match n, s with
  | O, _ => s
  | S n', EmptyString => EmptyString
  | S n', String _ s' => drop n' s'
  end.

(** [s.startswith(p)]. *)
Definition startswith (s p : string) : bool := String.prefix p s.

(** Characters on which [str.split()] cuts (code points below 256). *)
Definition isspace (c : ascii) : bool :=
  let n := nat_of_ascii c in
  ((9 <=? n) && (n <=? 13) || (28 <=? n) && (n <=? 32)
   || (n =? 133) || (n =? 160))%nat.

(** [s.split()]: the maximal runs of non-space characters. *)
Fixpoint split_aux (cur : string) (s : string) : list string :=
  match s with
  | EmptyString => if (String.length cur =? 0)%nat then [] else [cur]
  | String c s' =>
      if isspace c
      then if (String.length cur =? 0)%nat then split_aux EmptyString s'
           else cur :: split_aux EmptyString s'
      else split_aux (cur ++ String c EmptyString)%string s'
  end.

Definition split (s : string) : list string := split_aux EmptyString s.

Definition digit (c : ascii) : option Z :=
  let n := nat_of_ascii c in
  if ((48 <=? n) && (n <=? 57))%nat then Some (Z.of_nat n - 48) else None.

(** Digits of a decimal literal; a single underscore may separate two
    digits, as [int()] allows. [prev] tells whether the previous character
    was a digit. *)
Fixpoint digits (acc : Z) (prev : bool) (s : string) : option Z :=
  match s with
  | EmptyString => if prev then Some acc else None
  | String c s' =>
      match digit c with
      | Some d => digits (10 * acc + d) true s'
      | None =>
          if (Ascii.eqb c "_" && prev)%bool
          then match s' with
               | EmptyString => None
               | String c' _ =>
                   match digit c' with
                   | Some _ => digits acc false s'
                   | None => None
                   end
               end
          else None
      end
  end.

(** [int(tok)] on a token without spaces: an optional sign and a decimal
    literal in ASCII digits. [None] stands for [ValueError]. (The cap
    recent interpreters put on the number of digits is not modelled.) *)
Definition int (tok : string) : option Z :=
  match tok with
  | String "+" s' => digits 0 false s'
  | String "-" s' => option_map Z.opp (digits 0 false s')
  | _ => digits 0 false tok
  end.

End Py.

(** ** The random oracle *)

Definition Rng := list Z.

(** The value [random.randrange(lo, hi)] makes of the raw draw [r]. *)
Definition randrange_of (lo hi r : Z) : Z := lo + r mod (hi - lo).

Definition randrange (lo hi : Z) (g : Rng) : option (Z * Rng) :=
  match g with
  | [] => None
  | r :: g' => Some (randrange_of lo hi r, g')
  end.

(** ** The game server *)

Module GameServer.

(** *** Game settings *)

Definition W : Z := 850.
Definition H : Z := 720.
Definition START_RADIUS : R := 7.
Definition ROUND_TIME : Z := 60 * 5.
Definition MASS_LOSS_TIME : Z := 7.

Definition Color := (Z * Z * Z)%type.

Definition COLORS : list Color :=
  [ (255,0,0); (255,128,0); (255,255,0); (128,255,0); (0,255,0);
    (0,255,128); (0,255,255); (0,128,255); (0,0,255); (128,0,255);
    (255,0,255); (255,0,128); (128,128,128); (0,0,0) ].

(** [COLORS[i % len(COLORS)]]. *)
Definition color_at (i : Z) : Color :=
  nth (Z.to_nat (i mod Z.of_nat (List.length COLORS))) COLORS (0,0,0).

(** [random.choice(COLORS)] on the raw draw [r]. *)
Definition choice_color (g : Rng) : option (Color * Rng) :=
  match g with
  | [] => None
  | r :: g' => Some (color_at r, g')
  end.

(** *** Game state *)

(** A value of [self.players]. *)
Record Player := mkPlayer {
  pl_x : Z;
  pl_y : Z;
  pl_color : Color;
  pl_score : R;
  pl_name : string
}.

(** An element of [self.balls]: [(x, y, color)]. *)
Definition Ball := (Z * Z * Color)%type.

(** [self.game_time] is the text "Starting Soon" until the clock is first
    read, and an [int] afterwards. *)
Inductive GameTime :=
| TimeText (s : string)
| TimeInt (n : Z).

Record Server := mkServer {
  players : list (Z * Player);
  balls : list Ball;
  msg_history : list string;
  game_time : GameTime;
  start_time : R;
  game_started : bool;
  next_mass_loss_tick : Z;
  player_id_counter : Z
}.

(** [__init__]. *)
Definition init : Server :=
  {| players := []; balls := []; msg_history := [];
     game_time := TimeText "Starting Soon"; start_time := 0%R;
     game_started := false; next_mass_loss_tick := 1;
     player_id_counter := 0 |}.

Definition set_players (ps : list (Z * Player)) (s : Server) : Server :=
  {| players := ps; balls := balls s; msg_history := msg_history s;
     game_time := game_time s; start_time := start_time s;
     game_started := game_started s;
     next_mass_loss_tick := next_mass_loss_tick s;
     player_id_counter := player_id_counter s |}.

Definition set_balls (bs : list Ball) (s : Server) : Server :=
  {| players := players s; balls := bs; msg_history := msg_history s;
     game_time := game_time s; start_time := start_time s;
     game_started := game_started s;
     next_mass_loss_tick := next_mass_loss_tick s;
     player_id_counter := player_id_counter s |}.

Definition set_msg_history (h : list string) (s : Server) : Server :=
  {| players := players s; balls := balls s; msg_history := h;
     game_time := game_time s; start_time := start_time s;
     game_started := game_started s;
     next_mass_loss_tick := next_mass_loss_tick s;
     player_id_counter := player_id_counter s |}.

(** *** The players dictionary *)

Definition Players := list (Z * Player).

(** [d.get(k)]; [None] is the [KeyError] of [d[k]]. *)
Fixpoint lookup (k : Z) (d : Players) : option Player :=
  match d with
  | [] => None
  | (k', p) :: d' => if k' =? k then Some p else lookup k d'
  end.

(** In-place change of the record stored under [k]. *)
Fixpoint update (k : Z) (f : Player -> Player) (d : Players) : Players :=
  match d with
  | [] => []
  | (k', p) :: d' =>
      if k' =? k then (k', f p) :: d' else (k', p) :: update k f d'
  end.

(** [d[k] = p]: an existing key keeps its place, a new one goes last. *)
Fixpoint setitem (k : Z) (p : Player) (d : Players) : Players :=
  match d with
  | [] => [(k, p)]
  | (k', p') :: d' =>
      if k' =? k then (k', p) :: d' else (k', p') :: setitem k p d'
  end.

(** [del d[k]]. *)
Fixpoint delitem (k : Z) (d : Players) : Players :=
  match d with
  | [] => []
  | (k', p) :: d' => if k' =? k then d' else (k', p) :: delitem k d'
  end.

Definition keys (d : Players) : list Z := map fst d.

Definition set_x (v : Z) (p : Player) : Player :=
  mkPlayer v (pl_y p) (pl_color p) (pl_score p) (pl_name p).
Definition set_y (v : Z) (p : Player) : Player :=
  mkPlayer (pl_x p) v (pl_color p) (pl_score p) (pl_name p).
Definition set_score (v : R) (p : Player) : Player :=
  mkPlayer (pl_x p) (pl_y p) (pl_color p) v (pl_name p).

(** *** [_add_chat_message] *)

Definition _add_chat_message (message : string) (s : Server) : Server :=
  let h := msg_history s ++ [message] in
  set_msg_history (if (20 <? Z.of_nat (List.length h)) then Py.pop0 h else h) s.

(** *** Outcomes of a step

    A step of the server ends normally, or an exception leaves it with the
    state as it was mutated so far, or a placement loop is still asking
    for random draws when the oracle is used up. *)

Inductive exn := KeyError | ValueError.

Inductive result (A : Type) :=
| Ok (a : A)
| Raise (e : exn) (s : Server) (g : Rng)
| Starved.

Arguments Ok {A} a.
Arguments Raise {A} e s g.
Arguments Starved {A}.

Definition bind {A B} (c : result A) (k : A -> result B) : result B :=
  match c with
  | Ok a => k a
  | Raise e s g => Raise e s g
  | Starved => Starved
  end.

Notation "x <- c ;; k" := (bind c (fun x => k))
  (at level 61, c at next level, right associativity).
Notation "' pat <- c ;; k" := (bind c (fun x => match x with pat => k end))
  (at level 61, pat pattern, c at next level, right associativity).

(** A placement loop inside a step: [None] is starvation. *)
Definition drawn {A} (o : option A) : result A :=
  match o with
  | Some a => Ok a
  | None => Starved
  end.

(** *** [_get_start_location] and [_create_balls] *)

(** The [for player in self.players.values()] test of lines 104-108 (and
    89-93): [true] when no player has [(x, y)] within its radius. *)
Fixpoint is_safe_location (x y : Z) (d : Players) : bool :=
  match d with
  | [] => true
  | (_, player) :: d' =>
      let dist := Py.hypot (x - pl_x player) (y - pl_y player) in
      if Py.Rleb dist (START_RADIUS + pl_score player) then false
      else is_safe_location x y d'
  end.

(** The [while True] loop: each round takes two draws, for [x] and [y]. *)
Fixpoint _get_start_location (d : Players) (g : Rng) : option ((Z * Z) * Rng) :=
  match g with
  | rx :: ry :: g' =>
      let x := randrange_of 0 W rx in
      let y := randrange_of 0 H ry in
      if is_safe_location x y d then Some ((x, y), g')
      else _get_start_location d g'
  | _ => None
  end.

(** [_create_balls(n)]. Its inner loop (lines 84-95) is the loop of
    [_get_start_location]; the colour is drawn after the position. *)
Fixpoint _create_balls (n : nat) (s : Server) (g : Rng) : option (Server * Rng) :=
  match n with
  | O => Some (s, g)
  | S n' =>
      match _get_start_location (players s) g with
      | None => None
      | Some ((x, y), g1) =>
          match choice_color g1 with
          | None => None
          | Some (c, g2) =>
              _create_balls n' (set_balls (balls s ++ [(x, y, c)]) s) g2
          end
      end
  end.

(** *** [_update_game_state] *)

(** The body of the mass-loss loop, lines 127-128. *)
Definition mass_loss (player : Player) : Player :=
  if Py.Rltb 8 (pl_score player)
  then set_score (IZR (Py.floor (pl_score player * (95 / 100)))) player
  else player.

Definition _update_game_state (now : R) (s : Server) : Server :=
  if negb (game_started s) then s
  else
    let elapsed_time := (now - start_time s)%R in
    let t := Py.round elapsed_time in
    let started := if ROUND_TIME <=? t then false else game_started s in
    if t / MASS_LOSS_TIME =? next_mass_loss_tick s
    then {| players := map (fun kp => (fst kp, mass_loss (snd kp))) (players s);
            balls := balls s; msg_history := msg_history s;
            game_time := TimeInt t; start_time := start_time s;
            game_started := started;
            next_mass_loss_tick := next_mass_loss_tick s + 1;
            player_id_counter := player_id_counter s |}
    else {| players := players s;
            balls := balls s; msg_history := msg_history s;
            game_time := TimeInt t; start_time := start_time s;
            game_started := started;
            next_mass_loss_tick := next_mass_loss_tick s;
            player_id_counter := player_id_counter s |}.

(** *** [_check_collisions] *)

Definition color_eqb (a b : Color) : bool :=
  let '(a1, a2, a3) := a in
  let '(b1, b2, b3) := b in
  (a1 =? b1) && (a2 =? b2) && (a3 =? b3).

(** Equality of the tuples stored in [self.balls]. *)
Definition ball_eqb (a b : Ball) : bool :=
  let '(ax, ay, ac) := a in
  let '(bx, by_, bc) := b in
  (ax =? bx) && (ay =? by_) && color_eqb ac bc.

(** The test of line 139, with the position and score read at line 133. *)
Definition ball_in_reach (px py : Z) (p_score : R) (ball : Ball) : bool :=
  let '(bx, by_, _) := ball in
  Py.Rleb (Py.hypot (px - bx) (py - by_)) (START_RADIUS + p_score).

(** Lines 140-141: the acting player's record gains 0.5 and the ball
    leaves the live list. *)
Definition eat_ball (current_id : Z) (ball : Ball) (s : Server) : Server :=
  set_balls (Py.list_remove ball_eqb ball (balls s))
    (set_players
       (update current_id (fun p => set_score (pl_score p + 5 / 10) p)
          (players s)) s).

(** The loop of lines 136-141 over the copy [self.balls[:]]. *)
Fixpoint eat_balls (current_id px py : Z) (p_score : R)
    (copy : list Ball) (s : Server) : Server :=
  match copy with
  | [] => s
  | ball :: copy' =>
      eat_balls current_id px py p_score copy'
        (if ball_in_reach px py p_score ball then eat_ball current_id ball s
         else s)
  end.

(** The test of line 152. *)
Definition can_eat (px py : Z) (p_score : R) (other_player : Player) : bool :=
  let dist := Py.hypot (px - pl_x other_player) (py - pl_y other_player) in
  Py.Rltb (pl_score other_player * (115 / 100)) p_score
  && Py.Rltb dist (START_RADIUS + p_score).

(** One round of the loop of lines 144-156, for the key [other_id]. The
    record of the other player is the live one. *)
Definition eat_player (current_id px py : Z) (p_score : R) (other_id : Z)
    (s : Server) (g : Rng) : option (Server * Rng) :=
  if current_id =? other_id then Some (s, g)
  else
    match lookup other_id (players s) with
    | None => Some (s, g)
    | Some other_player =>
        if can_eat px py p_score other_player
        then
          let op_score := pl_score other_player in
          let d1 := update current_id
                      (set_score (sqrt (p_score ^ 2 + op_score ^ 2))) (players s) in
          let d2 := update other_id (set_score 0) d1 in
          match _get_start_location d2 g with
          | None => None
          | Some ((nx, ny), g') =>
              Some (set_players
                      (update other_id (fun p => set_y ny (set_x nx p)) d2) s,
                    g')
          end
        else Some (s, g)
    end.

Fixpoint eat_players (current_id px py : Z) (p_score : R) (ids : list Z)
    (s : Server) (g : Rng) : option (Server * Rng) :=
  match ids with
  | [] => Some (s, g)
  | other_id :: ids' =>
      match eat_player current_id px py p_score other_id s g with
      | None => None
      | Some (s', g') => eat_players current_id px py p_score ids' s' g'
      end
  end.

Definition _check_collisions (current_id : Z) (s : Server) (g : Rng)
  : result (Server * Rng) :=
  match lookup current_id (players s) with
  | None => Raise KeyError s g
  | Some player =>
      let px := pl_x player in
      let py := pl_y player in
      let p_score := pl_score player in
      let s1 := eat_balls current_id px py p_score (balls s) s in
      drawn (eat_players current_id px py p_score (keys (players s1)) s1 g)
  end.

(** *** The accept loop and [_handle_client] *)

(** One round of the accept loop of [start], lines 64-74: the new state
    and the identifier handed to the new thread. *)
Definition accept (now : R) (s : Server) : Server * Z :=
  let s1 :=
    if negb (game_started s)
    then {| players := players s; balls := balls s;
            msg_history := msg_history s; game_time := game_time s;
            start_time := now; game_started := true;
            next_mass_loss_tick := next_mass_loss_tick s;
            player_id_counter := player_id_counter s |}
    else s in
  ({| players := players s1; balls := balls s1;
      msg_history := msg_history s1; game_time := game_time s1;
      start_time := start_time s1; game_started := game_started s1;
      next_mass_loss_tick := next_mass_loss_tick s1;
      player_id_counter := player_id_counter s1 + 1 |},
   player_id_counter s1).

(** What [start] does before it accepts: [_create_balls(200)]. *)
Definition startup (g : Rng) : option (Server * Rng) :=
  _create_balls 200 init g.

(** The handshake block, lines 171-178. *)
Definition handshake (current_id : Z) (username : string) (s : Server) (g : Rng)
  : result (Server * Rng) :=
  let s1 := _add_chat_message (username ++ " CONNECTED")%string s in
  '(start_pos, g') <- drawn (_get_start_location (players s1) g) ;;
  let color := color_at current_id in
  Ok (set_players
        (setitem current_id
           (mkPlayer (fst start_pos) (snd start_pos) color 0 username)
           (players s1)) s1,
      g').

(** What the server sends back, line 214. *)
Definition Snapshot := (list Ball * Players * GameTime * list string)%type.

Definition snapshot (s : Server) : Snapshot :=
  (balls s, players s, game_time s, msg_history s).

(** [self.players[current_id][field] = v]: the record must exist. *)
Definition assign (current_id : Z) (f : Player -> Player) (s : Server) (g : Rng)
  : result Server :=
  match lookup current_id (players s) with
  | None => Raise KeyError s g
  | Some _ => Ok (set_players (update current_id f (players s)) s)
  end.

(** [int(tok)] inside a step. *)
Definition to_int (tok : string) (s : Server) (g : Rng) : result Z :=
  match Py.int tok with
  | None => Raise ValueError s g
  | Some v => Ok v
  end.

(** Lines 199-204 of the [move] branch: the position is overwritten with
    the coordinates of the command, then collisions are resolved if the
    round is running. *)
Definition move_player (current_id : Z) (command : string) (s : Server) (g : Rng)
  : result (Server * Rng) :=
  match Py.split command with
  | [_; x; y] =>
      xv <- to_int x s g ;;
      s1 <- assign current_id (set_x xv) s g ;;
      yv <- to_int y s1 g ;;
      s2 <- assign current_id (set_y yv) s1 g ;;
      if game_started s2 then _check_collisions current_id s2 g
      else Ok (s2, g)
  | _ => Raise ValueError s g
  end.

(** Lines 206-207 of the [move] branch. *)
Definition replenish (s : Server) (g : Rng) : result (Server * Rng) :=
  if Z.of_nat (List.length (balls s)) <? 150
  then '(n, g1) <- drawn (randrange 50 100 g) ;;
       drawn (_create_balls (Z.to_nat n) s g1)
  else Ok (s, g).

(** The [move] branch, lines 199-207. *)
Definition handle_move (current_id : Z) (command : string) (s : Server) (g : Rng)
  : result (Server * Rng) :=
  '(s3, g3) <- move_player current_id command s g ;;
  replenish s3 g3.

(** The [msg] branch, lines 210-211. *)
Definition handle_msg (current_id : Z) (command : string) (s : Server) (g : Rng)
  : result (Server * Rng) :=
  match lookup current_id (players s) with
  | None => Raise KeyError s g
  | Some player =>
      let msg := (pl_name player ++ ": " ++ Py.drop 4 command)%string in
      Ok (_add_chat_message msg s, g)
  end.

(** The block under the lock in the main loop, lines 195-214, for a
    command that was received and decoded into a string: the new state
    and the snapshot that is sent back. *)
Definition handle_command (current_id : Z) (now : R) (command : string)
    (s : Server) (g : Rng) : result (Server * Rng * Snapshot) :=
  let s1 := _update_game_state now s in
  '(s2, g2) <- (if Py.startswith command "move"
                then handle_move current_id command s1 g
                else if Py.startswith command "msg"
                then handle_msg current_id command s1 g
                else Ok (s1, g)) ;;
  Ok (s2, g2, snapshot s2).

(** The [finally] block, lines 222-227. *)
Definition cleanup (current_id : Z) (s : Server) : Server :=
  match lookup current_id (players s) with
  | None => s
  | Some player =>
      let s1 := _add_chat_message (pl_name player ++ " DISCONNECTED")%string s in
      set_players (delitem current_id (players s1)) s1
  end.

(** *** The server as a transition system

    The events are the atomic blocks of the source. An exception that
    leaves the main loop runs the [finally] block of that session. *)

Inductive event :=
| Accept (now : R)
| Handshake (current_id : Z) (username : string)
| Command (current_id : Z) (now : R) (command : string)
| Disconnect (current_id : Z).

Definition step (e : event) (s : Server) (g : Rng) : option (Server * Rng) :=
  match e with
  | Accept now => Some (fst (accept now s), g)
  | Handshake current_id username =>
      match handshake current_id username s g with
      | Ok sg => Some sg
      | Raise _ s' g' => Some (cleanup current_id s', g')
      | Starved => None
      end
  | Command current_id now command =>
      match handle_command current_id now command s g with
      | Ok (s', g', _) => Some (s', g')
      | Raise _ s' g' => Some (cleanup current_id s', g')
      | Starved => None
      end
  | Disconnect current_id => Some (cleanup current_id s, g)
  end.

Fixpoint run (es : list event) (s : Server) (g : Rng) : option (Server * Rng) :=
  match es with
  | [] => Some (s, g)
  | e :: es' =>
      match step e s g with
      | None => None
      | Some (s', g') => run es' s' g'
      end
  end.

End GameServer.

(** * Vocabulary of the properties

    Predicates on states and the small functions the statements of the
    last part are written with. *)

Module GameServerProps.

Import GameServer.

(** No score in the dictionary is negative. *)
Definition scores_nonneg (d : Players) : Prop :=
  Forall (fun kp => (0 <= pl_score (snd kp))%R) d.

(** The chat log holds at most 20 entries. *)
Definition chat_capped (s : Server) : Prop :=
  (List.length (msg_history s) <= 20)%nat.


(** [s'] differs from [s] in [players] and [balls] at most: what
    collision handling and placement leave alone. *)
Definition same_rest (s s' : Server) : Prop :=
  msg_history s' = msg_history s /\ game_time s' = game_time s
  /\ start_time s' = start_time s /\ game_started s' = game_started s
  /\ next_mass_loss_tick s' = next_mass_loss_tick s
  /\ player_id_counter s' = player_id_counter s.

(** A change of [players] and [balls] that keeps the keys of the players
    and the sign of their scores. *)
Definition tame (s s' : Server) : Prop :=
  same_rest s s' /\ keys (players s') = keys (players s)
  /\ (scores_nonneg (players s) -> scores_nonneg (players s')).

(** Where a step ends: with its result, or with the state an exception
    leaves behind. [Q] holds there. *)
Definition ends {A} (st : A -> Server) (r : result A) (Q : Server -> Prop) : Prop :=
  match r with
  | Ok a => Q (st a)
  | Raise _ s _ => Q s
  | Starved => True
  end.

(** The state in the result of [handle_command]. *)
Definition command_state (r : Server * Rng * Snapshot) : Server := fst (fst r).

(** The test of line 124, once the early return of line 114 is passed. *)
Definition mass_loss_due (now : R) (s : Server) : bool :=
  game_started s
  && (Py.round (now - start_time s) / MASS_LOSS_TIME =? next_mass_loss_tick s).

(** The loop of lines 126-128 on the whole dictionary. *)
Definition all_mass_loss (d : Players) : Players :=
  map (fun kp => (fst kp, mass_loss (snd kp))) d.

(** A property of the state is stable when the elementary changes the
    server makes keep it: collision handling and placement, the clock,
    a chat entry, the removal and the insertion of a player, and the
    accept loop. Every step is made of those. *)
Class Stable (P : Server -> Prop) : Prop := {
  stable_tame : forall s s', tame s s' -> P s -> P s';
  stable_clock : forall now s, P s -> P (_update_game_state now s);
  stable_chat : forall m s, P s -> P (_add_chat_message m s);
  stable_leave : forall k s, P s -> P (set_players (delitem k (players s)) s);
  stable_join : forall k x y c n s,
      P s -> P (set_players (setitem k (mkPlayer x y c 0 n) (players s)) s);
  stable_accept : forall now s, P s -> P (fst (accept now s))
}.

(** The acting player's record after it has eaten [n] balls. *)
Definition fed (n : nat) (p : Player) : Player :=
  set_score (pl_score p + IZR (Z.of_nat n) * (5 / 10)) p.

(** The score line 153 writes, from the score read at line 133. *)
Definition merged (p_score : R) (other_player : Player) : R :=
  sqrt (p_score ^ 2 + pl_score other_player ^ 2).

(** The record of a player that was eaten and placed at [(nx, ny)]. *)
Definition respawned (nx ny : Z) (o : Player) : Player :=
  mkPlayer nx ny (pl_color o) 0 (pl_name o).

(** The players the loop of lines 144-156 eats, in the order it meets
    them, with the records they have in [d]. *)
Fixpoint victims_of (current_id px py : Z) (p_score : R)
    (ids : list Z) (d : Players) : list Player :=
  match ids with
  | [] => []
  | k :: ids' =>
      match lookup k d with
      | Some o =>
          if negb (current_id =? k) && can_eat px py p_score o
          then o :: victims_of current_id px py p_score ids' d
          else victims_of current_id px py p_score ids' d
      | None => victims_of current_id px py p_score ids' d
      end
  end.

(** The state after lines 200-201: the acting player is where the
    command says. *)
Definition placed (current_id xv yv : Z) (s : Server) : Server :=
  set_players
    (update current_id (fun q => set_y yv (set_x xv q)) (players s)) s.

(** What an intent leaves of [s] when the round is off: the round stays
    off, the other players are as they were and the acting player keeps
    its score. *)
Definition round_rests (current_id : Z) (s s' : Server) : Prop :=
  game_started s' = false
  /\ (forall k, k <> current_id -> lookup k (players s') = lookup k (players s))
  /\ option_map pl_score (lookup current_id (players s'))
     = option_map pl_score (lookup current_id (players s)).



End GameServerProps.

(** * Sessions used as examples

    Concrete states of the server; the last part follows each of them
    through a few steps. *)

Module Scenarios.

Import GameServer GameServerProps.

Definition red : Color := (255, 0, 0).
Definition orange : Color := (255, 128, 0).
Definition yellow : Color := (255, 255, 0).

Definition ann (x y : Z) (sc : R) : Player := mkPlayer x y red sc "ann".
Definition bob (x y : Z) (sc : R) : Player := mkPlayer x y orange sc "bob".
Definition cat (x y : Z) (sc : R) : Player := mkPlayer x y yellow sc "cat".

(** ** A session from the start of the server

    The oracle puts the 200 balls of the start on one spot; then a first
    player, ann, connects and is placed at (400, 400). *)

Definition pile : list Ball := repeat (100, 100, red) 200.

Definition pile_rng : Rng := List.concat (repeat [100; 100; 0] 200).

(** The server after [startup]. *)
Definition piled : Server := set_balls pile init.

(** The server after ann's handshake. *)
Definition joined : Server :=
  {| players := [(0, ann 400 400 0)]; balls := pile;
     msg_history := ["ann CONNECTED"];
     game_time := TimeText "Starting Soon"; start_time := 0%R;
     game_started := true; next_mass_loss_tick := 1;
     player_id_counter := 1 |}.

(** [joined] with its clock read one second after the start. *)
Definition joined_at_1 : Server :=
  {| players := [(0, ann 400 400 0)]; balls := pile;
     msg_history := ["ann CONNECTED"];
     game_time := TimeInt 1; start_time := 0%R;
     game_started := true; next_mass_loss_tick := 1;
     player_id_counter := 1 |}.


(** [joined] after lines 199-204 of the command [move 100 100] at second
    1: nothing is left of the pile. *)
Definition ate_pile : Server :=
  {| players := [(0, fed 200 (ann 100 100 0))]; balls := [];
     msg_history := ["ann CONNECTED"];
     game_time := TimeInt 1; start_time := 0%R;
     game_started := true; next_mass_loss_tick := 1;
     player_id_counter := 1 |}.

(** [joined] after the whole command [move 100 100], with a batch of 50
    balls at (500, 500). *)
Definition after_move_100_100 : Server :=
  {| players := [(0, fed 200 (ann 100 100 0))];
     balls := repeat (500, 500, red) 50;
     msg_history := ["ann CONNECTED"];
     game_time := TimeInt 1; start_time := 0%R;
     game_started := true; next_mass_loss_tick := 1;
     player_id_counter := 1 |}.

(** ** Ann and Bob, face to face

    Ann, with score 20, stands at (100, 100); Bob, with score 10, at
    (105, 100); the 150 balls are far from both. *)

Definition far_pile : list Ball := repeat (800, 700, red) 150.

Definition duel : Server :=
  {| players := [(0, ann 100 100 20); (1, bob 105 100 10)];
     balls := far_pile;
     msg_history := ["ann CONNECTED"; "bob CONNECTED"];
     game_time := TimeInt 5; start_time := 0%R;
     game_started := true; next_mass_loss_tick := 1;
     player_id_counter := 2 |}.

(** The players once Ann has eaten Bob and the oracle has proposed
    (700, 600) for him. *)
Definition duel_players_won : Players :=
  [(0, ann 100 100 (merged 20 (bob 105 100 10))); (1, bob 700 600 0)].

Definition duel_won : Server := set_players duel_players_won duel.

(** The duel at the end of the round: after Ann's move at second 300,
    after a connection accepted at second 301, and after Ann's move at
    second 302. *)
Definition duel_expired : Server :=
  {| players := players duel; balls := far_pile;
     msg_history := msg_history duel;
     game_time := TimeInt 300; start_time := 0%R;
     game_started := false; next_mass_loss_tick := 1;
     player_id_counter := 2 |}.

Definition duel_restarted : Server :=
  {| players := players duel; balls := far_pile;
     msg_history := msg_history duel;
     game_time := TimeInt 300; start_time := 301%R;
     game_started := true; next_mass_loss_tick := 1;
     player_id_counter := 3 |}.

Definition duel_again : Server :=
  {| players := duel_players_won; balls := far_pile;
     msg_history := msg_history duel;
     game_time := TimeInt 1; start_time := 301%R;
     game_started := true; next_mass_loss_tick := 1;
     player_id_counter := 3 |}.

(** ** With Cat on the other side

    Cat, with score 10 as well, stands at (95, 100). *)

Definition trio : Server :=
  {| players := [(0, ann 100 100 20); (1, bob 105 100 10); (2, cat 95 100 10)];
     balls := far_pile;
     msg_history := ["ann CONNECTED"; "bob CONNECTED"; "cat CONNECTED"];
     game_time := TimeInt 5; start_time := 0%R;
     game_started := true; next_mass_loss_tick := 1;
     player_id_counter := 3 |}.

(** The players once Ann has eaten both, with (700, 600) proposed for
    Bob and (600, 700) for Cat. *)
Definition trio_won : Server :=
  set_players [(0, ann 100 100 (merged 20 (cat 95 100 10)));
               (1, bob 700 600 0); (2, cat 600 700 0)] trio.

(** ** With a heavier Cat

    As before, but Cat has score 12. *)

Definition rivals : Server :=
  {| players := [(0, ann 100 100 20); (1, bob 105 100 10); (2, cat 95 100 12)];
     balls := far_pile;
     msg_history := ["ann CONNECTED"; "bob CONNECTED"; "cat CONNECTED"];
     game_time := TimeInt 5; start_time := 0%R;
     game_started := true; next_mass_loss_tick := 1;
     player_id_counter := 3 |}.

(** The players once Ann has eaten both, with (700, 600) proposed for
    Bob and (600, 700) for Cat. *)
Definition rivals_won : Server :=
  set_players [(0, ann 100 100 (merged 20 (cat 95 100 12)));
               (1, bob 700 600 0); (2, cat 600 700 0)] rivals.

(** ** Ann and Bob with food at hand

    The duel, with three more balls 10, 10 and about 14 away from Ann. *)

Definition snack : list Ball :=
  [(100, 110, red); (90, 100, orange); (110, 110, yellow)].

Definition feast : Server :=
  {| players := [(0, ann 100 100 20); (1, bob 105 100 10)];
     balls := snack ++ far_pile;
     msg_history := ["ann CONNECTED"; "bob CONNECTED"];
     game_time := TimeInt 5; start_time := 0%R;
     game_started := true; next_mass_loss_tick := 1;
     player_id_counter := 2 |}.

(** [feast] after the food loop of Ann's resolver: the three balls are
    gone and Ann has 0.5 more for each. *)
Definition feast_fed : Server :=
  {| players := [(0, fed 3 (ann 100 100 20)); (1, bob 105 100 10)];
     balls := far_pile;
     msg_history := ["ann CONNECTED"; "bob CONNECTED"];
     game_time := TimeInt 5; start_time := 0%R;
     game_started := true; next_mass_loss_tick := 1;
     player_id_counter := 2 |}.

(** [feast] after Ann's resolver, with (700, 600) proposed for Bob. *)
Definition feast_won : Server :=
  {| players := duel_players_won;
     balls := far_pile;
     msg_history := ["ann CONNECTED"; "bob CONNECTED"];
     game_time := TimeInt 5; start_time := 0%R;
     game_started := true; next_mass_loss_tick := 1;
     player_id_counter := 2 |}.

(** ** A heavy player

    Ann alone, with score 100, in a round started at time 0 in which no
    mass loss has happened yet. *)

Definition heavy : Server :=
  {| players := [(0, ann 400 400 100)]; balls := far_pile;
     msg_history := ["ann CONNECTED"];
     game_time := TimeText "Starting Soon"; start_time := 0%R;
     game_started := true; next_mass_loss_tick := 1;
     player_id_counter := 1 |}.

End Scenarios.

(** * Further vocabulary

    Predicates for what the server keeps beside the claims. *)

Module GameServerMoreProps.

Import GameServer.

(** Who is registered, in the order of the dictionary, with what never
    changes in a record: colour and name. *)
Definition ident (d : Players) : list (Z * Color * string) :=
  map (fun kp => (fst kp, pl_color (snd kp), pl_name (snd kp))) d.

(** A ball lies at integer coordinates of the world and has a colour of
    the palette. *)
Definition ball_ok (b : Ball) : Prop :=
  0 <= fst (fst b) < W /\ 0 <= snd (fst b) < H /\ In (snd b) COLORS.

(** Every player has the colour its identifier selects in the palette. *)
Definition colours_by_id (d : Players) : Prop :=
  Forall (fun kp => pl_color (snd kp) = color_at (fst kp)) d.

(** The oracle draws that propose the given locations in turn. Each
    coordinate is its own raw draw when it lies in the world. *)
Definition proposals (l : list (Z * Z)) : Rng :=
  flat_map (fun xy => [fst xy; snd xy]) l.

(** The food [_create_balls(n)] places when no player is registered:
    every proposal is accepted, so each ball takes three draws in turn,
    for the two coordinates and the colour. *)
Fixpoint scattered (n : nat) (g : Rng) : list Ball :=
  match n, g with
  | S n', rx :: ry :: rc :: g' =>
      (randrange_of 0 W rx, randrange_of 0 H ry, color_at rc) :: scattered n' g'
  | _, _ => []
  end.

(** A change of the state that keeps who is registered, with which
    colour and name and in which order, and whose balls are balls of
    before or new balls of the world. *)
Definition settled (s s' : Server) : Prop :=
  ident (players s') = ident (players s)
  /\ forall b, In b (balls s') -> In b (balls s) \/ ball_ok b.

(** The food lies in the world and the colours follow the palette. *)
Definition well_formed (s : Server) : Prop :=
  Forall ball_ok (balls s) /\ colours_by_id (players s).

(** A string [str.split()] does not cut. *)
Definition no_space (s : string) : Prop :=
  Forall (fun c => Py.isspace c = false) (list_ascii_of_string s).

(** A move command the server can read: three fields, the last two
    integers. *)
Definition readable_move (command : string) : Prop :=
  exists t x y xv yv,
    Py.split command = [t; x; y] /\ Py.int x = Some xv /\ Py.int y = Some yv.

End GameServerMoreProps.

(** * The client (src/client.py)

    Of the client the part that decides what the server is told is
    embedded: the movement of a frame, and the commands. The numbers
    are idealised as for the server. Drawing and the sockets are left
    out. *)

Module GameClient.

Definition WIDTH : Z := 1280.
Definition HEIGHT : Z := 720.
Definition START_RADIUS : R := 7.

(** [self.world_size]. *)
Definition world_size : Z * Z := (850, 720).

(** [int(v)] on a [float]: the integer part, towards zero. *)
Definition int_of_float (v : R) : Z :=
  if Py.Rleb 0 v then Zfloor v else Zceil v.

(** [str(n)] on an [int], as an f-string formats it: decimal digits
    without leading zeros, and a minus sign for a negative number. *)
Definition str (n : Z) : string := NilEmpty.string_of_int (Z.to_int n).

(** Line 255: [f"move {int(x)} {int(y)}"], on the integers. *)
Definition move_command (x y : Z) : string :=
  ("move " ++ str x ++ " " ++ str y)%string.

(** Lines 230-231: a chat line is sent when the input is not empty. *)
Definition chat_command (chat_input : string) : option string :=
  match chat_input with
  | EmptyString => None
  | _ => Some ("msg " ++ chat_input)%string
  end.

(** Line 244. *)
Definition speed (score : R) : R := Rmax 2 (6 - score / 20).

(** Lines 251-252: [max(radius, min(v, limit - radius))]. *)
Definition clamp (radius limit v : R) : R :=
  Rmax radius (Rmin v (limit - radius)).

(** Lines 238-242: the vector from the player to the mouse, in world
    coordinates. The camera is centred on the player. *)
Definition towards_mouse (mouse_x mouse_y : Z) (current_player : GameServer.Player)
  : R * R :=
  let x := IZR (GameServer.pl_x current_player) in
  let y := IZR (GameServer.pl_y current_player) in
  let cam_x := (x - IZR WIDTH / 2)%R in
  let cam_y := (y - IZR HEIGHT / 2)%R in
  let world_mouse_x := (IZR mouse_x + cam_x)%R in
  let world_mouse_y := (IZR mouse_y + cam_y)%R in
  ((world_mouse_x - x)%R, (world_mouse_y - y)%R).

(** Lines 243-252: the position of the player after the movement of a
    frame, from the position the server sent. *)
Definition moved (mouse_x mouse_y : Z) (current_player : GameServer.Player)
  : R * R :=
  let x := IZR (GameServer.pl_x current_player) in
  let y := IZR (GameServer.pl_y current_player) in
  let '(dx, dy) := towards_mouse mouse_x mouse_y current_player in
  let dist := sqrt (dx * dx + dy * dy) in
  if Py.Rltb 1 dist
  then
    let speed := speed (GameServer.pl_score current_player) in
    let x1 := (x + dx / dist * speed)%R in
    let y1 := (y + dy / dist * speed)%R in
    let radius := (START_RADIUS + GameServer.pl_score current_player)%R in
    (clamp radius (IZR (fst world_size)) x1,
     clamp radius (IZR (snd world_size)) y1)
  else (x, y).

(** Lines 236-255: the move command of a frame, if the client knows its
    player. *)
Definition frame_command (is_chatting : bool) (mouse_x mouse_y : Z)
    (current_player : option GameServer.Player) : option string :=
  match current_player with
  | None => None
  | Some p =>
      let '(x, y) :=
        if negb is_chatting then moved mouse_x mouse_y p
        else (IZR (GameServer.pl_x p), IZR (GameServer.pl_y p)) in
      Some (move_command (int_of_float x) (int_of_float y))
  end.

(** Events of the start menu, as [pygame.event.get()] returns them in
    a batch: the window is closed, a key goes down, or anything else.
    [unicode] is the text the key produces. *)
Inductive Key := K_RETURN | K_BACKSPACE | K_other.

Inductive Event :=
| QUIT
| KEYDOWN (key : Key) (unicode : string)
| other_event.

(** [s[:-1]]. *)
Fixpoint drop_last (s : string) : string :=
  match s with
  | EmptyString => EmptyString
  | String c EmptyString => EmptyString
  | String c s' => String c (drop_last s')
  end.

(** Lines 201-205: one event of the menu, on [self.username] and
    [menu_running]. [None] is the [return] of line 201. *)
Definition menu_event (e : Event) (st : string * bool) : option (string * bool) :=
  let '(username, menu_running) := st in
  match e with
  | QUIT => None
  | KEYDOWN key unicode =>
      if (match key with K_RETURN => true | _ => false end
          && (2 <? String.length username)%nat)%bool
      then Some (username, false)
      else if match key with K_BACKSPACE => true | _ => false end
      then Some (drop_last username, menu_running)
      else if (String.length username <? 15)%nat
      then Some ((username ++ unicode)%string, menu_running)
      else Some st
  | other_event => Some st
  end.

(** Line 200: the [for] loop over a batch; it has no [break]. *)
Fixpoint menu_batch (events : list Event) (st : string * bool)
  : option (string * bool) :=
  match events with
  | [] => Some st
  | e :: events' =>
      match menu_event e st with
      | None => None
      | Some st' => menu_batch events' st'
      end
  end.

(** Lines 198-206: the menu loop over the batches of events; the name
    it ends with. [None]: the window was closed, or the batches given
    do not end the menu. *)
Fixpoint menu (batches : list (list Event)) (username : string) : option string :=
  match batches with
  | [] => None
  | b :: batches' =>
      match menu_batch b (username, true) with
      | None => None
      | Some (username', true) => menu batches' username'
      | Some (username', false) => Some username'
      end
  end.

(** Lines 142-143 of [draw_minimap]: a coordinate of the dot of a
    player on the map of side 150. *)
Definition minimap_coord (v limit : Z) : Z :=
  int_of_float (IZR v / IZR limit * 150).

End GameClient.

(** Vocabulary of the properties of the client. *)

Module GameClientProps.

(** An event whose key, if any, produces at most one character. *)
Definition one_char (e : GameClient.Event) : Prop :=
  match e with
  | GameClient.KEYDOWN _ unicode => (String.length unicode <= 1)%nat
  | _ => True
  end.

(** A chat input that reaches the server whole. The server reads a
    command with one [recv] of [BUFFER_SIZE] = 4096 bytes (server.py,
    lines 15 and 187), and the client sends the pickled string
    ["msg " + chat_input]: at most two bytes of UTF-8 for a character
    below 256, and less than 40 bytes of envelope. A longer line
    arrives cut and is not a command. *)
Definition fits_one_read (chat_input : string) : Prop :=
  (2 * (4 + String.length chat_input) + 40 <= 4096)%nat.

(** A player at a position the doubles of lines 239-241 handle exactly:
    below [2^52] the position, its difference with half the window and
    the sum with the mouse are integers a double holds, so the position
    cancels as it does here. Farther out it absorbs the offset of the
    mouse. *)
Definition near_origin (p : GameServer.Player) : Prop :=
  Z.abs (GameServer.pl_x p) <= 2 ^ 52 /\ Z.abs (GameServer.pl_y p) <= 2 ^ 52.

End GameClientProps.

(** * Properties of the server *)

Module GameServerFacts.

Import GameServer GameServerProps Scenarios.

(** Inversion that cleans up after itself. *)
Ltac inv H := inversion H; subst; clear H.

(** ** Tests on real numbers *)

Lemma Rltb_true (a b : R) : Py.Rltb a b = true <-> (a < b)%R.
Proof. unfold Py.Rltb. destruct (Rlt_dec a b); split; intros; try discriminate; tauto. Qed.

Lemma Rltb_false (a b : R) : Py.Rltb a b = false <-> (b <= a)%R.
Proof.
  unfold Py.Rltb. destruct (Rlt_dec a b); split; intros; try discriminate;
    try reflexivity; lra.
Qed.

Lemma Rleb_true (a b : R) : Py.Rleb a b = true <-> (a <= b)%R.
Proof. unfold Py.Rleb. destruct (Rle_dec a b); split; intros; try discriminate; tauto. Qed.

Lemma Rleb_false (a b : R) : Py.Rleb a b = false <-> (b < a)%R.
Proof.
  unfold Py.Rleb. destruct (Rle_dec a b); split; intros; try discriminate;
    try reflexivity; lra.
Qed.

Lemma hypot_nonneg (dx dy : Z) : (0 <= Py.hypot dx dy)%R.
Proof. apply sqrt_pos. Qed.

Lemma sum_squares_nonneg (dx dy : Z) : (0 <= IZR (dx * dx + dy * dy))%R.
Proof. apply IZR_le. nia. Qed.

(** A distance is compared with a non-negative bound through squares. *)
Lemma hypot_le (dx dy : Z) (r : R) :
  (0 <= r)%R -> (Py.hypot dx dy <= r <-> IZR (dx * dx + dy * dy) <= r * r)%R.
Proof.
  intros Hr. unfold Py.hypot.
  pose proof (sum_squares_nonneg dx dy) as Hs.
  split; intros Hle.
  - rewrite <- (sqrt_sqrt _ Hs). apply Rmult_le_compat; try apply sqrt_pos; assumption.
  - rewrite <- (sqrt_square r Hr). apply sqrt_le_1_alt. assumption.
Qed.

Lemma hypot_lt (dx dy : Z) (r : R) :
  (0 <= r)%R -> (Py.hypot dx dy < r <-> IZR (dx * dx + dy * dy) < r * r)%R.
Proof.
  intros Hr. unfold Py.hypot.
  pose proof (sum_squares_nonneg dx dy) as Hs.
  split; intros Hlt.
  - rewrite <- (sqrt_sqrt _ Hs).
    apply Rmult_le_0_lt_compat; try apply sqrt_pos; assumption.
  - rewrite <- (sqrt_square r Hr). apply sqrt_lt_1_alt. split; assumption.
Qed.

(** [round] of an integer-valued number. *)
Lemma round_IZR (z : Z) : Py.round (IZR z) = z.
Proof.
  unfold Py.round. rewrite ZfloorZ.
  destruct (Rlt_dec (IZR z - IZR z) (1 / 2)) as [_|Hn]; [reflexivity|].
  exfalso. apply Hn. lra.
Qed.

(** [round] at a tie goes to the even neighbour. *)
Example round_tie_down : Py.round (5 / 2) = 2.
Proof.
  unfold Py.round.
  assert (Hf : Zfloor (5 / 2) = 2) by (apply Zfloor_eq; simpl; lra).
  rewrite Hf.
  destruct (Rlt_dec (5 / 2 - 2) (1 / 2)) as [H|_]; [lra|].
  destruct (Rlt_dec (1 / 2) (5 / 2 - 2)) as [H|_]; [lra|].
  reflexivity.
Qed.

Example round_tie_up : Py.round (7 / 2) = 4.
Proof.
  unfold Py.round.
  assert (Hf : Zfloor (7 / 2) = 3) by (apply Zfloor_eq; simpl; lra).
  rewrite Hf.
  destruct (Rlt_dec (7 / 2 - 3) (1 / 2)) as [H|_]; [lra|].
  destruct (Rlt_dec (1 / 2) (7 / 2 - 3)) as [H|_]; [lra|].
  reflexivity.
Qed.

(** ** Commands *)

Example split_move : Py.split "move 100  200 " = ["move"; "100"; "200"].
Proof. reflexivity. Qed.

Example split_too_short : Py.split "move 100" = ["move"; "100"].
Proof. reflexivity. Qed.

Example int_plain : Py.int "100" = Some 100.
Proof. reflexivity. Qed.

Example int_signed : Py.int "-7" = Some (-7).
Proof. reflexivity. Qed.

Example int_underscore : Py.int "1_000" = Some 1000.
Proof. reflexivity. Qed.

Example int_bad_underscore : Py.int "1__0" = None /\ Py.int "_1" = None.
Proof. split; reflexivity. Qed.

Example int_not_a_number : Py.int "1.5" = None /\ Py.int EmptyString = None.
Proof. split; reflexivity. Qed.

Example startswith_move :
  Py.startswith "movement 1 2" "move" = true
  /\ Py.startswith "mov" "move" = false.
Proof. split; reflexivity. Qed.

Example drop_msg : Py.drop 4 "msg hello" = "hello" /\ Py.drop 4 "msg" = EmptyString.
Proof. split; reflexivity. Qed.

(** ** Lists *)

(** The last element of a list that has a head does not depend on the
    default. *)
Lemma last_cons {A} (l : list A) :
  forall a d : A, last (a :: l) d = last l a.
Proof.
  induction l as [|b l IH]; intros a d; [reflexivity|].
  change (last (a :: b :: l) d) with (last (b :: l) d).
  rewrite !IH. reflexivity.
Qed.

Lemma last_map_in {A B} (f : A -> B) (l : list A) (d : B) :
  l <> [] -> exists a, In a l /\ last (map f l) d = f a.
Proof.
  induction l as [|a l IH]; [congruence|]. intros _.
  destruct l as [|b l].
  - exists a. split; [left; reflexivity | reflexivity].
  - destruct IH as (a0 & Hin & Hl); [discriminate|].
    exists a0. split; [right; exact Hin|]. exact Hl.
Qed.

Lemma filter_repeat {A} (f : A -> bool) (a : A) (n : nat) :
  filter f (repeat a n) = if f a then repeat a n else [].
Proof.
  induction n as [|n IH]; simpl; [destruct (f a); reflexivity|].
  rewrite IH. destruct (f a); reflexivity.
Qed.

Lemma filter_permutation {A} (f : A -> bool) (l l' : list A) :
  Permutation l l' -> Permutation (filter f l) (filter f l').
Proof.
  intros Hp. induction Hp as [|a l l' Hp IH|a b l|l l' l'' H1 IH1 H2 IH2]; simpl.
  - constructor.
  - destruct (f a); [constructor|]; exact IH.
  - destruct (f a), (f b); try reflexivity. constructor.
  - etransitivity; eassumption.
Qed.

(** ** The players dictionary *)

(** [update] changes the record under its key and nothing else. *)
Lemma lookup_update_same (k : Z) (f : Player -> Player) (d : Players) :
  lookup k (update k f d) = option_map f (lookup k d).
Proof.
  induction d as [|[k' p] d IH]; simpl; [reflexivity|].
  destruct (Z.eqb_spec k' k); simpl.
  - rewrite (proj2 (Z.eqb_eq k' k)) by assumption. reflexivity.
  - rewrite (proj2 (Z.eqb_neq k' k)) by assumption. exact IH.
Qed.

Lemma lookup_update_other (k k' : Z) (f : Player -> Player) (d : Players) :
  k <> k' -> lookup k (update k' f d) = lookup k d.
Proof.
  intros Hne. induction d as [|[k0 p] d IH]; simpl; [reflexivity|].
  destruct (Z.eqb_spec k0 k'); simpl.
  - subst k0. rewrite (proj2 (Z.eqb_neq k' k)) by congruence. reflexivity.
  - destruct (Z.eqb_spec k0 k); [reflexivity | exact IH].
Qed.

Lemma keys_update (k : Z) (f : Player -> Player) (d : Players) :
  keys (update k f d) = keys d.
Proof.
  induction d as [|[k' p] d IH]; simpl; [reflexivity|].
  destruct (k' =? k); simpl; [reflexivity|]. f_equal. exact IH.
Qed.

Lemma update_ext (k : Z) (f h : Player -> Player) (d : Players) :
  (forall p, f p = h p) -> update k f d = update k h d.
Proof.
  intros E. induction d as [|[k' p] d IH]; simpl; [reflexivity|].
  destruct (k' =? k); [rewrite E | rewrite IH]; reflexivity.
Qed.

Lemma update_update (k : Z) (f h : Player -> Player) (d : Players) :
  update k f (update k h d) = update k (fun p => f (h p)) d.
Proof.
  induction d as [|[k' p] d IH]; simpl; [reflexivity|].
  destruct (k' =? k) eqn:E; simpl; rewrite E; [reflexivity|].
  rewrite IH. reflexivity.
Qed.

Lemma lookup_setitem_same (k : Z) (p : Player) (d : Players) :
  lookup k (setitem k p d) = Some p.
Proof.
  induction d as [|[k' p'] d IH]; simpl.
  - rewrite Z.eqb_refl. reflexivity.
  - destruct (Z.eqb_spec k' k); simpl.
    + rewrite (proj2 (Z.eqb_eq k' k)) by assumption. reflexivity.
    + rewrite (proj2 (Z.eqb_neq k' k)) by assumption. exact IH.
Qed.

Lemma lookup_setitem_other (k k' : Z) (p : Player) (d : Players) :
  k <> k' -> lookup k (setitem k' p d) = lookup k d.
Proof.
  intros Hne. induction d as [|[k0 p0] d IH]; simpl.
  - rewrite (proj2 (Z.eqb_neq k' k)) by congruence. reflexivity.
  - destruct (Z.eqb_spec k0 k'); simpl.
    + subst k0. rewrite (proj2 (Z.eqb_neq k' k)) by congruence. reflexivity.
    + destruct (Z.eqb_spec k0 k); [reflexivity | exact IH].
Qed.

Lemma lookup_in_keys (k : Z) (d : Players) (p : Player) :
  lookup k d = Some p -> In k (keys d).
Proof.
  induction d as [|[k' p'] d IH]; simpl; [discriminate|].
  destruct (Z.eqb_spec k' k); intros Hl; [left; assumption | right; auto].
Qed.

Lemma lookup_in (k : Z) (d : Players) (p : Player) :
  lookup k d = Some p -> In (k, p) d.
Proof.
  induction d as [|[k' p'] d IH]; simpl; [discriminate|].
  destruct (Z.eqb_spec k' k); intros Hl.
  - left. congruence.
  - right. auto.
Qed.

Lemma lookup_not_in_keys (k : Z) (d : Players) :
  ~ In k (keys d) -> lookup k d = None.
Proof.
  induction d as [|[k' p'] d IH]; simpl; [reflexivity|].
  intros Hn. destruct (Z.eqb_spec k' k); [tauto | apply IH; tauto].
Qed.

(** A dictionary with one key is the list of its one item. *)
Lemma singleton_players (d : Players) (k : Z) (p : Player) :
  keys d = [k] -> lookup k d = Some p -> d = [(k, p)].
Proof.
  destruct d as [|[k' p'] [|? ?]]; simpl; try discriminate.
  intros Hk. injection Hk as ->. rewrite Z.eqb_refl. congruence.
Qed.

(** [setitem] and [delitem] keep the keys distinct. *)
Lemma in_keys_setitem (k0 k : Z) (p : Player) (d : Players) :
  In k0 (keys (setitem k p d)) -> k0 = k \/ In k0 (keys d).
Proof.
  induction d as [|[k' p'] d IH]; simpl.
  - intros [->|[]]. left. reflexivity.
  - destruct (k' =? k); simpl; intros [->|Hi]; tauto.
Qed.

Lemma NoDup_setitem (k : Z) (p : Player) (d : Players) :
  NoDup (keys d) -> NoDup (keys (setitem k p d)).
Proof.
  induction d as [|[k' p'] d IH]; simpl; intros Hnd.
  - constructor; [intros [] | constructor].
  - apply NoDup_cons_iff in Hnd. destruct Hnd as [Hk Hnd].
    destruct (Z.eqb_spec k' k); simpl.
    + constructor; assumption.
    + constructor; [|apply IH; exact Hnd].
      intros Hi. apply in_keys_setitem in Hi. destruct Hi; [congruence | tauto].
Qed.

Lemma in_keys_delitem (k0 k : Z) (d : Players) :
  In k0 (keys (delitem k d)) -> In k0 (keys d).
Proof.
  induction d as [|[k' p'] d IH]; simpl; [tauto|].
  destruct (k' =? k); simpl; [tauto|]. intros [->|Hi]; [tauto | right; auto].
Qed.

Lemma NoDup_delitem (k : Z) (d : Players) :
  NoDup (keys d) -> NoDup (keys (delitem k d)).
Proof.
  induction d as [|[k' p'] d IH]; simpl; intros Hnd; [constructor|].
  apply NoDup_cons_iff in Hnd. destruct Hnd as [Hk Hnd].
  destruct (k' =? k); simpl; [exact Hnd|].
  constructor; [|apply IH; exact Hnd].
  intros Hi. apply in_keys_delitem in Hi. contradiction.
Qed.

Lemma set_score_same (p : Player) : set_score (pl_score p) p = p.
Proof. destruct p. reflexivity. Qed.

(** ** Scores *)

(** The operations on the dictionary keep the scores non-negative when
    the records they write are. *)
Lemma scores_nonneg_update (k : Z) (f : Player -> Player) (d : Players) :
  (forall p, (0 <= pl_score p)%R -> (0 <= pl_score (f p))%R) ->
  scores_nonneg d -> scores_nonneg (update k f d).
Proof.
  intros Hf Hd. induction Hd as [|[k' p] d Hp Hd IH]; simpl; [constructor|].
  destruct (k' =? k); constructor; simpl in *; auto.
Qed.

Lemma scores_nonneg_setitem (k : Z) (p : Player) (d : Players) :
  (0 <= pl_score p)%R -> scores_nonneg d -> scores_nonneg (setitem k p d).
Proof.
  intros Hp Hd. induction Hd as [|[k' p'] d Hp' Hd IH]; simpl.
  - constructor; [exact Hp | constructor].
  - destruct (k' =? k); constructor; simpl in *; auto.
Qed.

Lemma scores_nonneg_delitem (k : Z) (d : Players) :
  scores_nonneg d -> scores_nonneg (delitem k d).
Proof.
  intros Hd. induction Hd as [|[k' p'] d Hp' Hd IH]; simpl; [constructor|].
  destruct (k' =? k); [assumption | constructor; assumption].
Qed.

(** Mass loss: the floor of 0.95 times a score above 8 is at least 7. *)
Lemma mass_loss_nonneg (p : Player) :
  (0 <= pl_score p)%R -> (0 <= pl_score (mass_loss p))%R.
Proof.
  intros Hp. unfold mass_loss.
  destruct (Py.Rltb 8 (pl_score p)) eqn:E; [|exact Hp].
  apply Rltb_true in E. simpl. apply IZR_le.
  apply Zfloor_lub. simpl. lra.
Qed.

(** ** What a step leaves alone *)

Lemma same_rest_refl (s : Server) : same_rest s s.
Proof. unfold same_rest. tauto. Qed.

Lemma same_rest_trans (s1 s2 s3 : Server) :
  same_rest s1 s2 -> same_rest s2 s3 -> same_rest s1 s3.
Proof. unfold same_rest. intuition congruence. Qed.

Lemma same_rest_set_players (d : Players) (s : Server) :
  same_rest s (set_players d s).
Proof. unfold same_rest. simpl. tauto. Qed.

Lemma same_rest_set_balls (b : list Ball) (s : Server) :
  same_rest s (set_balls b s).
Proof. unfold same_rest. simpl. tauto. Qed.

(** Two states with the same players, balls and rest are the same. *)
Lemma server_eq (s s' : Server) :
  players s' = players s -> balls s' = balls s -> same_rest s s' -> s' = s.
Proof.
  destruct s, s'. unfold same_rest. simpl.
  intros -> -> (-> & -> & -> & -> & -> & ->). reflexivity.
Qed.

Lemma tame_refl (s : Server) : tame s s.
Proof. unfold tame. split; [apply same_rest_refl | tauto]. Qed.

Lemma tame_trans (s1 s2 s3 : Server) : tame s1 s2 -> tame s2 s3 -> tame s1 s3.
Proof.
  unfold tame. intros (R1 & K1 & N1) (R2 & K2 & N2).
  split; [eapply same_rest_trans; eassumption|]. split; [congruence | tauto].
Qed.

Lemma tame_update (k : Z) (f : Player -> Player) (s : Server) :
  (forall p, (0 <= pl_score p)%R -> (0 <= pl_score (f p))%R) ->
  tame s (set_players (update k f (players s)) s).
Proof.
  intros Hf. split; [apply same_rest_set_players|]. simpl.
  split; [apply keys_update | apply scores_nonneg_update; exact Hf].
Qed.

(** ** Spawn placement *)

(** [randrange(lo, hi)] returns a value of [lo, hi). *)
Lemma randrange_of_bounds (lo hi r : Z) :
  lo < hi -> lo <= randrange_of lo hi r < hi.
Proof.
  intros Hlt. unfold randrange_of.
  pose proof (Z.mod_pos_bound r (hi - lo)). lia.
Qed.

(** The test of the placement loop says that the location is farther
    from every player than its radius. *)
Lemma is_safe_location_spec (x y : Z) (d : Players) :
  is_safe_location x y d = true <->
  Forall (fun kp =>
            (START_RADIUS + pl_score (snd kp)
             < Py.hypot (x - pl_x (snd kp)) (y - pl_y (snd kp)))%R) d.
Proof.
  induction d as [|[k p] d IH]; simpl.
  - split; [constructor | reflexivity].
  - destruct (Py.Rleb _ _) eqn:E.
    + apply Rleb_true in E. split; [discriminate|].
      intros Hf. inv Hf. simpl in *. lra.
    + apply Rleb_false in E. rewrite IH. split.
      * intros Hf. constructor; assumption.
      * intros Hf. inv Hf. assumption.
Qed.

(** Whether a location is safe from one player, through squares. *)
Lemma is_safe_location_one (x y k : Z) (p : Player) :
  (0 <= START_RADIUS + pl_score p)%R ->
  ((START_RADIUS + pl_score p) * (START_RADIUS + pl_score p)
   < IZR ((x - pl_x p) * (x - pl_x p) + (y - pl_y p) * (y - pl_y p)))%R ->
  is_safe_location x y [(k, p)] = true.
Proof.
  intros Hr Hd. cbn [is_safe_location].
  rewrite (proj2 (Rleb_false _ _)); [reflexivity|].
  apply Rnot_le_lt. intros Hle. apply hypot_le in Hle; [lra | exact Hr].
Qed.

(** A location is safe when it is farther than [B] from every player and
    no radius exceeds [B]. *)
Lemma is_safe_location_far (B : R) (x y : Z) (d : Players) :
  (0 <= B)%R ->
  Forall (fun kp =>
            (START_RADIUS + pl_score (snd kp) <= B)%R
            /\ (B * B < IZR ((x - pl_x (snd kp)) * (x - pl_x (snd kp))
                             + (y - pl_y (snd kp)) * (y - pl_y (snd kp))))%R) d ->
  is_safe_location x y d = true.
Proof.
  intros HB Hf. apply is_safe_location_spec.
  eapply Forall_impl; [|exact Hf]. cbv beta. intros kp (Hr & Hd).
  apply Rle_lt_trans with B; [exact Hr|].
  apply Rnot_le_lt. intros Hle. apply hypot_le in Hle; [lra | exact HB].
Qed.

(** What the placement loop returns lies in the world rectangle and is
    out of the reach of every player. *)
Lemma get_start_location_spec (d : Players) :
  forall (g : Rng) (x y : Z) (g' : Rng),
  _get_start_location d g = Some ((x, y), g') ->
  0 <= x < W /\ 0 <= y < H /\ is_safe_location x y d = true.
Proof.
  fix IH 1. intros g x y g' Hg.
  destruct g as [|rx [|ry g0]]; cbn [_get_start_location] in Hg;
    try discriminate.
  destruct (is_safe_location _ _ d) eqn:E.
  - injection Hg as Hx Hy Hg'. subst x y g'. split; [|split].
    + exact (randrange_of_bounds 0 W rx eq_refl).
    + exact (randrange_of_bounds 0 H ry eq_refl).
    + assumption.
  - exact (IH g0 x y g' Hg).
Qed.

(** The loop returns as soon as the oracle proposes a safe location. *)
Lemma get_start_location_finds (d : Players) (rx ry : Z) (g : Rng) :
  is_safe_location (randrange_of 0 W rx) (randrange_of 0 H ry) d = true ->
  _get_start_location d (rx :: ry :: g)
  = Some ((randrange_of 0 W rx, randrange_of 0 H ry), g).
Proof. intros E. cbn [_get_start_location]. rewrite E. reflexivity. Qed.

(** ** Placement of food *)

(** What [_create_balls n] did when it returned: [n] balls were appended,
    each in the world and out of the reach of every player. *)
Lemma create_balls_spec (n : nat) :
  forall (s : Server) (g : Rng) (s' : Server) (g' : Rng),
  _create_balls n s g = Some (s', g') ->
  players s' = players s /\ same_rest s s'
  /\ exists new, balls s' = balls s ++ new /\ List.length new = n
       /\ Forall (fun b => 0 <= fst (fst b) < W /\ 0 <= snd (fst b) < H
                           /\ is_safe_location (fst (fst b)) (snd (fst b))
                                (players s) = true) new.
Proof.
  induction n as [|n IH]; intros s g s' g' Hc; cbn [_create_balls] in Hc.
  - injection Hc as <- <-. split; [reflexivity|]. split; [apply same_rest_refl|].
    exists []. rewrite app_nil_r. repeat split. constructor.
  - destruct (_get_start_location (players s) g) as [[[x y] g1]|] eqn:Eg;
      [|discriminate].
    destruct (choice_color g1) as [[c g2]|] eqn:Ec; [|discriminate].
    apply IH in Hc. destruct Hc as (Hp & Hr & new & Hb & Hl & Hf).
    simpl in Hp, Hb, Hf.
    apply get_start_location_spec in Eg. destruct Eg as (Hx & Hy & Hs).
    split; [exact Hp|]. split.
    + eapply same_rest_trans; [apply same_rest_set_balls | exact Hr].
    + exists ((x, y, c) :: new). split; [|split].
      * rewrite Hb, <- app_assoc. reflexivity.
      * simpl. congruence.
      * constructor; [simpl; tauto | exact Hf].
Qed.

(** Enough safe proposals let [_create_balls] finish: each ball asks for
    a position and a colour. *)
Lemma create_balls_finishes (n : nat) (rx ry rc : Z) :
  forall (s : Server) (g : Rng),
  is_safe_location (randrange_of 0 W rx) (randrange_of 0 H ry) (players s) = true ->
  _create_balls n s (List.concat (repeat [rx; ry; rc] n) ++ g)
  = Some (set_balls
            (balls s
             ++ repeat (randrange_of 0 W rx, randrange_of 0 H ry, color_at rc) n)
            s, g).
Proof.
  induction n as [|n IH]; intros s g Hs.
  - cbn [repeat List.concat app _create_balls]. rewrite app_nil_r.
    destruct s. reflexivity.
  - cbn [repeat List.concat app _create_balls _get_start_location].
    rewrite Hs. cbn [choice_color].
    rewrite IH by exact Hs.
    cbn [balls set_balls]. rewrite <- app_assoc. reflexivity.
Qed.

Lemma create_balls_tame (n : nat) (s : Server) (g : Rng) (s' : Server) (g' : Rng) :
  _create_balls n s g = Some (s', g') -> tame s s'.
Proof.
  intros Hc. apply create_balls_spec in Hc. destruct Hc as (Hp & Hr & _).
  split; [exact Hr|]. rewrite Hp. tauto.
Qed.

(** What [replenish] did when it returned. *)
Lemma replenish_spec (s : Server) (g : Rng) (s' : Server) (g' : Rng) :
  replenish s g = Ok (s', g') ->
  exists new,
    players s' = players s /\ same_rest s s' /\ balls s' = balls s ++ new
    /\ (if Z.of_nat (List.length (balls s)) <? 150
        then (50 <= List.length new <= 99)%nat else new = [])
    /\ Forall (fun b => 0 <= fst (fst b) < W /\ 0 <= snd (fst b) < H
                        /\ is_safe_location (fst (fst b)) (snd (fst b))
                             (players s) = true) new.
Proof.
  unfold replenish. intros Hr.
  destruct (Z.of_nat (List.length (balls s)) <? 150).
  - destruct g as [|r g1]; cbn [randrange drawn bind] in Hr; [discriminate|].
    destruct (_create_balls _ s g1) as [[s1 g2]|] eqn:Ec; cbn [drawn] in Hr;
      [|discriminate].
    injection Hr as <- <-.
    apply create_balls_spec in Ec. destruct Ec as (Hp & Hrest & new & Hb & Hl & Hf).
    exists new. split; [exact Hp|]. split; [exact Hrest|]. split; [exact Hb|].
    split; [|exact Hf].
    pose proof (randrange_of_bounds 50 100 r eq_refl). lia.
  - injection Hr as <- <-. exists [].
    split; [reflexivity|]. split; [apply same_rest_refl|].
    split; [rewrite app_nil_r; reflexivity|]. split; [reflexivity | constructor].
Qed.

(** [replenish] returns whenever the oracle proposes a safe spot. *)
Lemma replenish_finishes (s : Server) (rb rx ry rc : Z) (g : Rng) :
  is_safe_location (randrange_of 0 W rx) (randrange_of 0 H ry) (players s) = true ->
  exists s' g',
    replenish s
      (rb :: List.concat (repeat [rx; ry; rc] (Z.to_nat (randrange_of 50 100 rb)))
          ++ g)
    = Ok (s', g').
Proof.
  intros Hs. unfold replenish.
  destruct (Z.of_nat (List.length (balls s)) <? 150).
  - cbn [randrange drawn bind]. rewrite create_balls_finishes by exact Hs.
    eexists. eexists. reflexivity.
  - eexists. eexists. reflexivity.
Qed.

Lemma replenish_tame (s : Server) (g : Rng) :
  ends fst (replenish s g) (tame s).
Proof.
  unfold replenish.
  destruct (Z.of_nat (List.length (balls s)) <? 150); [|apply tame_refl].
  destruct (randrange 50 100 g) as [[n g4]|]; cbn [drawn bind]; [|exact I].
  destruct (_create_balls (Z.to_nat n) s g4) as [[s5 g5]|] eqn:Ec; cbn; [|exact I].
  eapply create_balls_tame; exact Ec.
Qed.

(** [replenish] leaves the players and the clock alone. *)
Lemma replenish_players (s : Server) (g : Rng) :
  ends fst (replenish s g)
    (fun s' => players s' = players s /\ game_started s' = game_started s).
Proof.
  unfold replenish.
  destruct (Z.of_nat (List.length (balls s)) <? 150);
    [|cbn; split; reflexivity].
  destruct (randrange 50 100 g) as [[n g1]|]; cbn [drawn bind]; [|exact I].
  destruct (_create_balls (Z.to_nat n) s g1) as [[s1 g2]|] eqn:Ec;
    cbn [drawn ends fst]; [|exact I].
  apply create_balls_spec in Ec. destruct Ec as (Hp & Hr & _).
  split; [exact Hp|]. destruct Hr as (_ & _ & _ & Hs & _). exact Hs.
Qed.

(** ** Food consumption *)

Lemma fed_0 (d : Players) (k : Z) : update k (fed 0) d = d.
Proof.
  induction d as [|[k' p] d IH]; simpl; [reflexivity|].
  destruct (k' =? k); [|rewrite IH; reflexivity].
  f_equal. f_equal. destruct p. unfold fed, set_score. simpl.
  f_equal. lra.
Qed.

Lemma fed_S (n : nat) (d : Players) (k : Z) :
  update k (fed n) (update k (fun p => set_score (pl_score p + 5 / 10) p) d)
  = update k (fed (S n)) d.
Proof.
  rewrite update_update. apply update_ext. intros p.
  unfold fed, set_score. cbn [pl_x pl_y pl_color pl_score pl_name].
  f_equal. rewrite Nat2Z.inj_succ, succ_IZR. lra.
Qed.

Lemma ball_eqb_refl (b : Ball) : ball_eqb b b = true.
Proof.
  destruct b as [[bx by_] [[c1 c2] c3]]. simpl.
  rewrite !Z.eqb_refl. reflexivity.
Qed.

Lemma ball_eqb_eq (a b : Ball) : ball_eqb a b = true -> a = b.
Proof.
  destruct a as [[ax ay] [[a1 a2] a3]], b as [[bx by_] [[b1 b2] b3]]. simpl.
  rewrite !andb_true_iff, !Z.eqb_eq. intuition congruence.
Qed.

(** Whether a ball is in reach, through squares. *)
Lemma ball_in_reach_true (px py : Z) (p_score : R) (bx by_ : Z) (c : Color) :
  (0 <= START_RADIUS + p_score)%R ->
  (IZR ((px - bx) * (px - bx) + (py - by_) * (py - by_))
   <= (START_RADIUS + p_score) * (START_RADIUS + p_score))%R ->
  ball_in_reach px py p_score (bx, by_, c) = true.
Proof.
  intros Hr Hd. unfold ball_in_reach. apply Rleb_true.
  apply hypot_le; assumption.
Qed.

Lemma ball_in_reach_false (px py : Z) (p_score : R) (bx by_ : Z) (c : Color) :
  (0 <= START_RADIUS + p_score)%R ->
  ((START_RADIUS + p_score) * (START_RADIUS + p_score)
   < IZR ((px - bx) * (px - bx) + (py - by_) * (py - by_)))%R ->
  ball_in_reach px py p_score (bx, by_, c) = false.
Proof.
  intros Hr Hd. unfold ball_in_reach. apply Rleb_false.
  apply Rnot_le_lt. intros Hle. apply hypot_le in Hle; [lra | exact Hr].
Qed.

(** Removing a ball in reach skips the balls out of reach before it. *)
Lemma list_remove_skips (px py : Z) (p_score : R) (ball : Ball) :
  forall pre rest,
  ball_in_reach px py p_score ball = true ->
  Forall (fun b => ball_in_reach px py p_score b = false) pre ->
  Py.list_remove ball_eqb ball (pre ++ ball :: rest) = pre ++ rest.
Proof.
  induction pre as [|a pre IH]; intros rest Hin Hpre; simpl.
  - rewrite ball_eqb_refl. reflexivity.
  - inv Hpre. destruct (ball_eqb a ball) eqn:E.
    + apply ball_eqb_eq in E. congruence.
    + rewrite IH by assumption. reflexivity.
Qed.

(** The food loop: the balls in reach are exactly those that go, the
    others keep their order, and the acting player's record gains 0.5
    for each ball that went. *)
Lemma eat_balls_spec (current_id px py : Z) (p_score : R) :
  forall (copy : list Ball) (s : Server) (pre : list Ball),
  balls s = pre ++ copy ->
  Forall (fun b => ball_in_reach px py p_score b = false) pre ->
  let s' := eat_balls current_id px py p_score copy s in
  let eaten := filter (ball_in_reach px py p_score) copy in
  balls s' = pre ++ filter (fun b => negb (ball_in_reach px py p_score b)) copy
  /\ players s' = update current_id (fed (List.length eaten)) (players s)
  /\ same_rest s s'.
Proof.
  induction copy as [|ball copy IH]; intros s pre Hb Hpre; cbn zeta.
  - simpl. rewrite fed_0. rewrite Hb. split; [reflexivity|].
    split; [reflexivity | apply same_rest_refl].
  - cbn [eat_balls filter].
    destruct (ball_in_reach px py p_score ball) eqn:E; cbn [negb].
    + specialize (IH (eat_ball current_id ball s) pre).
      cbn zeta in IH. destruct IH as (Hb' & Hp' & Hr').
      * unfold eat_ball. simpl. rewrite Hb.
        apply (list_remove_skips px py p_score); assumption.
      * assumption.
      * split; [exact Hb'|]. split.
        -- rewrite Hp'. unfold eat_ball. simpl. apply fed_S.
        -- eapply same_rest_trans; [|exact Hr'].
           unfold eat_ball, same_rest. simpl. tauto.
    + specialize (IH s (pre ++ [ball])).
      cbn zeta in IH. destruct IH as (Hb' & Hp' & Hr').
      * rewrite Hb, <- app_assoc. reflexivity.
      * apply Forall_app. split; [assumption|]. constructor; [exact E|constructor].
      * split; [|split; assumption].
        rewrite Hb', <- app_assoc. reflexivity.
Qed.

(** With no ball in reach the food loop does nothing. *)
Lemma eat_balls_none (current_id px py : Z) (p_score : R) (copy : list Ball)
    (s : Server) :
  Forall (fun b => ball_in_reach px py p_score b = false) copy ->
  eat_balls current_id px py p_score copy s = s.
Proof.
  intros Hf. induction Hf as [|b copy Hb Hf IH]; cbn [eat_balls]; [reflexivity|].
  rewrite Hb. exact IH.
Qed.

Lemma eat_balls_tame (current_id px py : Z) (p_score : R) (copy : list Ball) :
  forall s, tame s (eat_balls current_id px py p_score copy s).
Proof.
  induction copy as [|ball copy IH]; intros s; cbn [eat_balls]; [apply tame_refl|].
  destruct (ball_in_reach px py p_score ball); [|apply IH].
  eapply tame_trans; [|apply IH].
  unfold eat_ball.
  eapply tame_trans;
    [apply (tame_update current_id
              (fun p => set_score (pl_score p + 5 / 10) p))|].
  - intros p Hp. simpl. lra.
  - split; [apply same_rest_set_balls|]. simpl. tauto.
Qed.

(** ** Player consumption *)

(** The test of line 152, through squares. *)
Lemma can_eat_true (px py : Z) (p_score : R) (o : Player) :
  (pl_score o * (115 / 100) < p_score)%R ->
  (0 <= START_RADIUS + p_score)%R ->
  (IZR ((px - pl_x o) * (px - pl_x o) + (py - pl_y o) * (py - pl_y o))
   < (START_RADIUS + p_score) * (START_RADIUS + p_score))%R ->
  can_eat px py p_score o = true.
Proof.
  intros Hs Hr Hd. unfold can_eat.
  rewrite (proj2 (Rltb_true _ _) Hs). cbn [andb].
  apply Rltb_true. apply hypot_lt; assumption.
Qed.

(** A merged score is at most the sum of the two scores. *)
Lemma merged_le (p_score : R) (o : Player) :
  (0 <= p_score)%R -> (0 <= pl_score o)%R ->
  (merged p_score o <= p_score + pl_score o)%R.
Proof.
  intros Hp Ho. unfold merged.
  rewrite <- (sqrt_square (p_score + pl_score o)) by lra.
  apply sqrt_le_1_alt. nra.
Qed.

(** Nobody is eaten when nobody passes the test of line 152. *)
Lemma victims_of_none (current_id px py : Z) (p_score : R)
    (ids : list Z) (d : Players) :
  (forall k o, k <> current_id -> lookup k d = Some o ->
     can_eat px py p_score o = false) ->
  victims_of current_id px py p_score ids d = [].
Proof.
  intros Hno. induction ids as [|k ids IH]; cbn [victims_of]; [reflexivity|].
  destruct (lookup k d) as [o|] eqn:El; [|exact IH].
  destruct (Z.eqb_spec current_id k) as [->|Hne]; cbn [negb andb]; [exact IH|].
  rewrite (Hno k o) by congruence. exact IH.
Qed.

(** The victims are the players other than the acting one that pass the
    test of line 152. *)
Lemma victims_of_in (current_id px py : Z) (p_score : R) (d : Players)
    (v : Player) (ids : list Z) :
  In v (victims_of current_id px py p_score ids d) ->
  exists k, In k ids /\ k <> current_id /\ lookup k d = Some v
            /\ can_eat px py p_score v = true.
Proof.
  induction ids as [|k ids IH]; cbn [victims_of]; [intros []|].
  intros Hin.
  assert (Hrec : In v (victims_of current_id px py p_score ids d) ->
                 exists k0, In k0 (k :: ids) /\ k0 <> current_id
                            /\ lookup k0 d = Some v
                            /\ can_eat px py p_score v = true).
  { intros Hi. destruct (IH Hi) as (k0 & H0 & H1). exists k0.
    split; [right; exact H0 | exact H1]. }
  destruct (lookup k d) as [o|] eqn:El; [|exact (Hrec Hin)].
  destruct (Z.eqb_spec current_id k) as [->|Hne]; cbn [negb andb] in Hin;
    [exact (Hrec Hin)|].
  destruct (can_eat px py p_score o) eqn:Ec; [|exact (Hrec Hin)].
  destruct Hin as [->|Hi]; [|exact (Hrec Hi)].
  exists k. split; [left; reflexivity|]. split; [congruence|].
  split; [exact El | exact Ec].
Qed.

Lemma victims_of_has (current_id px py : Z) (p_score : R) (d : Players)
    (k : Z) (o : Player) (ids : list Z) :
  In k ids -> k <> current_id -> lookup k d = Some o ->
  can_eat px py p_score o = true ->
  In o (victims_of current_id px py p_score ids d).
Proof.
  intros Hin Hne El Ec. induction ids as [|k0 ids IH]; [destruct Hin|].
  cbn [victims_of]. destruct Hin as [->|Hin].
  - rewrite El, Ec. rewrite (proj2 (Z.eqb_neq current_id k)) by congruence.
    left. reflexivity.
  - destruct (lookup k0 d) as [o0|]; [|exact (IH Hin)].
    destruct (negb (current_id =? k0) && can_eat px py p_score o0);
      [right|]; exact (IH Hin).
Qed.

Section Resolver.

Variables (current_id px py : Z) (p_score : R).

Lemma victims_of_ext (ids : list Z) (d d' : Players) :
  (forall k, In k ids -> k <> current_id -> lookup k d' = lookup k d) ->
  victims_of current_id px py p_score ids d'
  = victims_of current_id px py p_score ids d.
Proof.
  induction ids as [|k ids IH]; intros Hl; simpl; [reflexivity|].
  rewrite IH by (intros; apply Hl; [right|]; assumption).
  destruct (Z.eqb_spec current_id k) as [->|Hne].
  - simpl. destruct (lookup k d'), (lookup k d); reflexivity.
  - rewrite Hl by (try left; congruence). reflexivity.
Qed.

(** One round of the loop on a player that can be eaten. *)
Lemma eat_player_eats (other_id : Z) (o : Player) (s : Server) (g : Rng) :
  other_id <> current_id ->
  lookup other_id (players s) = Some o ->
  can_eat px py p_score o = true ->
  let d2 := update other_id (set_score 0)
              (update current_id (set_score (merged p_score o)) (players s)) in
  eat_player current_id px py p_score other_id s g
  = match _get_start_location d2 g with
    | None => None
    | Some ((nx, ny), g') =>
        Some (set_players
                (update other_id (fun p => set_y ny (set_x nx p)) d2) s, g')
    end.
Proof.
  intros Hne Hl Hc. unfold eat_player.
  rewrite (proj2 (Z.eqb_neq current_id other_id)) by congruence.
  rewrite Hl, Hc. reflexivity.
Qed.

(** One round of the loop on any other key. *)
Lemma eat_player_skips (other_id : Z) (s : Server) (g : Rng) :
  (other_id = current_id \/ lookup other_id (players s) = None
   \/ exists o, lookup other_id (players s) = Some o
                /\ can_eat px py p_score o = false) ->
  eat_player current_id px py p_score other_id s g = Some (s, g).
Proof.
  intros Hc. unfold eat_player.
  destruct (Z.eqb_spec current_id other_id) as [|Hne]; [reflexivity|].
  destruct Hc as [Hc|[Hc|(o & Hl & Hc)]]; [congruence| |].
  - rewrite Hc. reflexivity.
  - rewrite Hl, Hc. reflexivity.
Qed.

(** What the whole loop leaves behind, in terms of the state it starts
    from. The keys are those of a dictionary, hence distinct. *)
Lemma eat_players_spec (ids : list Z) :
  forall (s : Server) (g : Rng) (s' : Server) (g' : Rng),
  NoDup ids ->
  eat_players current_id px py p_score ids s g = Some (s', g') ->
  same_rest s s' /\ balls s' = balls s
  /\ keys (players s') = keys (players s)
  /\ (forall k, k <> current_id -> ~ In k ids ->
        lookup k (players s') = lookup k (players s))
  /\ (forall k o, k <> current_id -> In k ids ->
        lookup k (players s) = Some o ->
        if can_eat px py p_score o
        then exists nx ny, lookup k (players s') = Some (respawned nx ny o)
                           /\ 0 <= nx < W /\ 0 <= ny < H
        else lookup k (players s') = Some o)
  /\ lookup current_id (players s')
     = option_map
         (fun p => set_score
                     (last (map (merged p_score)
                             (victims_of current_id px py p_score ids (players s)))
                        (pl_score p)) p)
         (lookup current_id (players s)).
Proof.
  induction ids as [|k ids IH]; intros s g s' g' Hnd He.
  - cbn [eat_players] in He. injection He as <- <-.
    split; [apply same_rest_refl|]. split; [reflexivity|].
    split; [reflexivity|]. split; [reflexivity|].
    split; [intros k o _ []|].
    simpl. destruct (lookup current_id (players s)) as [p|]; simpl;
      [rewrite set_score_same|]; reflexivity.
  - apply NoDup_cons_iff in Hnd. destruct Hnd as [Hk Hnd].
    cbn [eat_players] in He.
    destruct (eat_player current_id px py p_score k s g) as [[s1 g1]|] eqn:E1;
      [|discriminate].
    specialize (IH s1 g1 s' g' Hnd He).
    destruct IH as (Hr & Hb & Hkeys & Hout & Hin & Hcur).
    (* the round for [k] *)
    assert (Hround :
      (s1 = s) /\ (k = current_id \/ lookup k (players s) = None
                   \/ exists o, lookup k (players s) = Some o
                                /\ can_eat px py p_score o = false)
      \/ exists o nx ny,
           k <> current_id /\ lookup k (players s) = Some o
           /\ can_eat px py p_score o = true
           /\ 0 <= nx < W /\ 0 <= ny < H
           /\ s1 = set_players
                     (update k (fun p => set_y ny (set_x nx p))
                        (update k (set_score 0)
                           (update current_id (set_score (merged p_score o))
                              (players s)))) s).
    { destruct (Z.eq_dec k current_id) as [->|Hne].
      - left. rewrite eat_player_skips in E1 by (left; reflexivity).
        injection E1 as <- <-. split; [reflexivity | left; reflexivity].
      - destruct (lookup k (players s)) as [o|] eqn:El.
        + destruct (can_eat px py p_score o) eqn:Ec.
          * right. rewrite (eat_player_eats k o s g Hne El Ec) in E1.
            cbv zeta in E1.
            destruct (_get_start_location _ g) as [[[nx ny] g2]|] eqn:Eg;
              [|discriminate].
            apply get_start_location_spec in Eg. destruct Eg as (Hx & Hy & _).
            injection E1 as <- <-.
            exists o, nx, ny. repeat split; try assumption; try tauto.
          * left. rewrite eat_player_skips in E1
              by (right; right; exists o; split; [exact El | exact Ec]).
            injection E1 as <- <-. split; [reflexivity|].
            right; right. exists o. split; [reflexivity | exact Ec].
        + left. rewrite eat_player_skips in E1 by (right; left; exact El).
          injection E1 as <- <-. split; [reflexivity | right; left; reflexivity]. }
    destruct Hround as [[-> Hskip]|(o & nx & ny & Hne & El & Ec & Hx & Hy & ->)].
    + (* nothing happened in this round *)
      split; [exact Hr|]. split; [exact Hb|]. split; [exact Hkeys|].
      split; [intros k0 H0 Hn; apply Hout; [exact H0 | intros Hi; apply Hn; right; exact Hi]|].
      split.
      * intros k0 o0 H0 [->|Hi] Hl0.
        -- destruct Hskip as [?|[Hs|(o1 & Hs & Hc1)]]; try congruence.
           assert (o1 = o0) by congruence. subst o1. rewrite Hc1.
           rewrite Hout by assumption. exact Hl0.
        -- apply Hin; assumption.
      * rewrite Hcur. cbn [victims_of].
        destruct Hskip as [->|[Hs|(o1 & Hs & Hc1)]].
        -- rewrite Z.eqb_refl. simpl.
           destruct (lookup current_id (players s)); reflexivity.
        -- rewrite Hs. reflexivity.
        -- rewrite Hs, Hc1, andb_false_r. reflexivity.
    + (* the player under [k] was eaten *)
      cbn [players set_players] in Hkeys, Hout, Hin, Hcur.
      cbn [balls set_players] in Hb.
      split.
      { eapply same_rest_trans; [apply same_rest_set_players | exact Hr]. }
      split; [exact Hb|].
      split; [rewrite Hkeys, !keys_update; reflexivity|].
      split.
      { intros k0 H0 Hn. rewrite Hout by (try assumption; intros Hi; apply Hn; right; exact Hi).
        assert (k0 <> k) by (intros ->; apply Hn; left; reflexivity).
        rewrite !lookup_update_other by assumption. reflexivity. }
      split.
      { intros k0 o0 H0 [->|Hi] Hl0.
        - assert (o0 = o) by congruence. subst o0. rewrite Ec.
          exists nx, ny. split; [|split; assumption].
          rewrite Hout by assumption.
          rewrite !lookup_update_same, lookup_update_other by assumption.
          rewrite El. reflexivity.
        - assert (k0 <> k) by (intros ->; contradiction).
          apply Hin; try assumption.
          rewrite !lookup_update_other by assumption. exact Hl0. }
      rewrite Hcur.
      rewrite !lookup_update_other by congruence.
      rewrite lookup_update_same.
      rewrite (victims_of_ext ids (players s)).
      * cbn [victims_of]. rewrite El, Ec.
        rewrite (proj2 (Z.eqb_neq current_id k)) by congruence.
        cbn [negb andb map].
        destruct (lookup current_id (players s)) as [p|]; [|reflexivity].
        cbn [option_map]. f_equal.
        destruct p. unfold set_score.
        cbn [pl_x pl_y pl_color pl_score pl_name].
        rewrite last_cons. reflexivity.
      * intros k0 Hi H0.
        assert (k0 <> k) by (intros ->; contradiction).
        rewrite !lookup_update_other by assumption. reflexivity.
Qed.

End Resolver.

Lemma eat_player_tame (current_id px py : Z) (p_score : R) (other_id : Z)
    (s : Server) (g : Rng) (s' : Server) (g' : Rng) :
  eat_player current_id px py p_score other_id s g = Some (s', g') -> tame s s'.
Proof.
  unfold eat_player. intros He.
  destruct (current_id =? other_id); [injection He as <- <-; apply tame_refl|].
  destruct (lookup other_id (players s)) as [o|];
    [|injection He as <- <-; apply tame_refl].
  destruct (can_eat px py p_score o); [|injection He as <- <-; apply tame_refl].
  destruct (_get_start_location _ g) as [[[nx ny] g1]|]; [|discriminate].
  injection He as <- <-.
  split; [apply same_rest_set_players|]. simpl.
  split; [rewrite !keys_update; reflexivity|].
  intros Hs. repeat apply scores_nonneg_update; try assumption.
  - intros p Hp. exact Hp.
  - intros p _. simpl. lra.
  - intros p _. apply sqrt_pos.
Qed.

Lemma eat_players_tame (current_id px py : Z) (p_score : R) (ids : list Z) :
  forall s g s' g',
  eat_players current_id px py p_score ids s g = Some (s', g') -> tame s s'.
Proof.
  induction ids as [|k ids IH]; intros s g s' g' He; cbn [eat_players] in He.
  - injection He as <- <-. apply tame_refl.
  - destruct (eat_player current_id px py p_score k s g) as [[s1 g1]|] eqn:E1;
      [|discriminate].
    eapply tame_trans; [eapply eat_player_tame; exact E1 | eapply IH; exact He].
Qed.

(** ** [_check_collisions] as a whole *)

(** The resolver, when it returns: the balls out of reach remain; the
    acting player keeps its place and ends with the score merged with
    the last victim, or with its score plus 0.5 per ball when there is no
    victim; every other player is either eaten, hence reset and placed
    in the world, or untouched. *)
Lemma check_collisions_spec (current_id : Z) (s : Server) (g : Rng)
    (s' : Server) (g' : Rng) (player : Player) :
  NoDup (keys (players s)) ->
  lookup current_id (players s) = Some player ->
  _check_collisions current_id s g = Ok (s', g') ->
  let px := pl_x player in
  let py := pl_y player in
  let p_score := pl_score player in
  let eaten := filter (ball_in_reach px py p_score) (balls s) in
  let victims :=
    victims_of current_id px py p_score (keys (players s)) (players s) in
  balls s' = filter (fun b => negb (ball_in_reach px py p_score b)) (balls s)
  /\ same_rest s s'
  /\ keys (players s') = keys (players s)
  /\ lookup current_id (players s')
     = Some (set_score
               (last (map (merged p_score) victims)
                  (p_score + IZR (Z.of_nat (List.length eaten)) * (5 / 10))%R) player)
  /\ (forall k o, k <> current_id -> lookup k (players s) = Some o ->
        if can_eat px py p_score o
        then exists nx ny, lookup k (players s') = Some (respawned nx ny o)
                           /\ 0 <= nx < W /\ 0 <= ny < H
        else lookup k (players s') = Some o).
Proof.
  intros Hnd Hl Hc. cbv zeta. unfold _check_collisions in Hc. rewrite Hl in Hc.
  cbv zeta in Hc.
  pose proof (eat_balls_spec current_id (pl_x player) (pl_y player)
                (pl_score player) (balls s) s [] eq_refl (Forall_nil _)) as Hfood.
  cbv zeta in Hfood. cbn [app] in Hfood.
  set (s1 := eat_balls current_id (pl_x player) (pl_y player)
               (pl_score player) (balls s) s) in *.
  destruct Hfood as (Hb1 & Hp1 & Hr1).
  destruct (eat_players current_id (pl_x player) (pl_y player)
              (pl_score player) (keys (players s1)) s1 g)
    as [[s2 g2]|] eqn:Ep; cbn [drawn] in Hc; [|discriminate].
  injection Hc as <- <-.
  assert (Hk1 : keys (players s1) = keys (players s))
    by (rewrite Hp1; apply keys_update).
  apply eat_players_spec in Ep; [|rewrite Hk1; exact Hnd].
  destruct Ep as (Hr2 & Hb2 & Hk2 & _ & Hin & Hcur).
  split; [congruence|].
  split; [eapply same_rest_trans; eassumption|].
  split; [congruence|].
  split.
  - rewrite Hcur, Hk1.
    rewrite (victims_of_ext _ _ _ _ (keys (players s)) (players s) (players s1)).
    + rewrite Hp1, lookup_update_same, Hl. reflexivity.
    + intros k _ Hne. rewrite Hp1. apply lookup_update_other. exact Hne.
  - intros k o Hne Hlk. apply Hin; [exact Hne | |].
    + rewrite Hk1. eapply lookup_in_keys. exact Hlk.
    + rewrite Hp1, lookup_update_other by exact Hne. exact Hlk.
Qed.

(** Without anybody to eat the resolver needs no random draw. *)
Lemma check_collisions_no_victim (current_id : Z) (s : Server) (g : Rng)
    (player : Player) :
  lookup current_id (players s) = Some player ->
  (forall k o, k <> current_id -> lookup k (players s) = Some o ->
     can_eat (pl_x player) (pl_y player) (pl_score player) o = false) ->
  exists s', _check_collisions current_id s g = Ok (s', g).
Proof.
  intros Hl Hno. unfold _check_collisions. rewrite Hl. cbv zeta.
  pose proof (eat_balls_spec current_id (pl_x player) (pl_y player)
                (pl_score player) (balls s) s [] eq_refl (Forall_nil _)) as Hfood.
  cbv zeta in Hfood.
  set (s1 := eat_balls current_id (pl_x player) (pl_y player)
               (pl_score player) (balls s) s) in *.
  destruct Hfood as (_ & Hp1 & _).
  assert (Hno1 : forall k o, k <> current_id -> lookup k (players s1) = Some o ->
            can_eat (pl_x player) (pl_y player) (pl_score player) o = false).
  { intros k o Hne Hk. rewrite Hp1, lookup_update_other in Hk by exact Hne.
    eapply Hno; eassumption. }
  clearbody s1. clear Hp1 Hno Hl.
  exists s1. generalize (keys (players s1)). intros ids.
  induction ids as [|k ids IH]; [reflexivity|].
  cbn [eat_players]. rewrite eat_player_skips.
  - exact IH.
  - destruct (Z.eq_dec k current_id) as [->|Hne]; [left; reflexivity|].
    right. destruct (lookup k (players s1)) as [o|] eqn:E; [right | left; reflexivity].
    exists o. split; [reflexivity | eapply Hno1; eassumption].
Qed.

(** The resolver for a player that is alone in the world: only the food
    loop has an effect. *)
Lemma check_collisions_alone (current_id : Z) (s : Server) (g : Rng) (p : Player) :
  players s = [(current_id, p)] ->
  let reach := ball_in_reach (pl_x p) (pl_y p) (pl_score p) in
  _check_collisions current_id s g
  = Ok (set_balls (filter (fun b => negb (reach b)) (balls s))
          (set_players
             [(current_id, fed (List.length (filter reach (balls s))) p)] s),
        g).
Proof.
  intros Hp reach.
  assert (Hl : lookup current_id (players s) = Some p)
    by (rewrite Hp; simpl; rewrite Z.eqb_refl; reflexivity).
  destruct (check_collisions_no_victim current_id s g p Hl) as [s' Hc].
  { intros k o Hne Hk. rewrite Hp in Hk. simpl in Hk.
    rewrite (proj2 (Z.eqb_neq current_id k)) in Hk by congruence. discriminate. }
  rewrite Hc. f_equal. f_equal.
  apply check_collisions_spec with (player := p) in Hc;
    [|rewrite Hp; repeat constructor; intros [] | exact Hl].
  cbv zeta in Hc. destruct Hc as (Hb & Hr & Hk & Hcur & _).
  rewrite Hp in Hk, Hcur. cbn [keys map fst victims_of lookup] in Hk, Hcur.
  rewrite Z.eqb_refl in Hcur. cbn [negb andb map last] in Hcur.
  apply (singleton_players _ _ _ Hk) in Hcur.
  symmetry. apply server_eq.
  - rewrite Hcur. reflexivity.
  - rewrite Hb. reflexivity.
  - destruct Hr as (R1 & R2 & R3 & R4 & R5 & R6).
    unfold same_rest. cbn [set_balls set_players msg_history game_time
      start_time game_started next_mass_loss_tick player_id_counter].
    repeat split; congruence.
Qed.

Lemma check_collisions_tame (current_id : Z) (s : Server) (g : Rng) :
  ends fst (_check_collisions current_id s g) (tame s).
Proof.
  unfold _check_collisions.
  destruct (lookup current_id (players s)) as [player|]; [|apply tame_refl].
  cbv zeta.
  destruct (eat_players _ _ _ _ _ _ g) as [[s2 g2]|] eqn:Ep; cbn; [|exact I].
  eapply tame_trans; [apply eat_balls_tame | eapply eat_players_tame; exact Ep].
Qed.

(** ** The chat log *)

(** One append: the entry goes last, and the first entry leaves if the
    log then exceeds 20. *)
Lemma add_chat_history (m : string) (s : Server) :
  chat_capped s ->
  msg_history (_add_chat_message m s)
  = skipn (List.length (msg_history s ++ [m]) - 20) (msg_history s ++ [m]).
Proof.
  unfold chat_capped, _add_chat_message; simpl.
  rewrite length_app; simpl. intros Hc.
  destruct (Z.ltb_spec 20 (Z.of_nat (List.length (msg_history s) + 1))) as [Hlt|Hge].
  - replace (List.length (msg_history s) + 1 - 20)%nat with 1%nat by lia.
    destruct (msg_history s ++ [m]); reflexivity.
  - replace (List.length (msg_history s) + 1 - 20)%nat with 0%nat by lia.
    reflexivity.
Qed.

Lemma add_chat_capped (m : string) (s : Server) :
  chat_capped s -> chat_capped (_add_chat_message m s).
Proof.
  intros Hc. unfold chat_capped. rewrite add_chat_history by assumption.
  rewrite length_skipn, length_app. unfold chat_capped in Hc. simpl. lia.
Qed.

Lemma cap_step {A} (h : list A) (m : A) (msgs : list A) :
  (List.length h <= 20)%nat ->
  let h1 := skipn (List.length (h ++ [m]) - 20) (h ++ [m]) in
  skipn (List.length (h1 ++ msgs) - 20) (h1 ++ msgs)
  = skipn (List.length (h ++ m :: msgs) - 20) (h ++ m :: msgs).
Proof.
  intros Hc. rewrite length_app. simpl List.length.
  destruct (Nat.eq_dec (List.length h) 20) as [E|E].
  - destruct h as [|a t]; [discriminate|]. simpl in E.
    replace (List.length (a :: t) + 1 - 20)%nat with 1%nat by (simpl; lia).
    cbn [skipn app]. cbv zeta.
    rewrite <- app_assoc. cbn [app].
    replace (List.length (a :: t ++ m :: msgs) - 20)%nat
      with (S (List.length (t ++ m :: msgs) - 20))
      by (cbn [app List.length]; rewrite length_app; cbn [List.length]; lia).
    reflexivity.
  - replace (List.length h + 1 - 20)%nat with 0%nat by lia.
    cbn [skipn]. cbv zeta. rewrite <- app_assoc. reflexivity.
Qed.

(** Appends in a row leave the last 20 entries of the log extended by
    the messages. *)
Lemma add_chat_many (msgs : list string) :
  forall s, chat_capped s ->
  msg_history (fold_left (fun st m => _add_chat_message m st) msgs s)
  = skipn (List.length (msg_history s ++ msgs) - 20) (msg_history s ++ msgs).
Proof.
  induction msgs as [|m msgs IH]; intros s Hc; simpl.
  - rewrite app_nil_r. unfold chat_capped in Hc.
    replace (List.length (msg_history s) - 20)%nat with 0%nat by lia.
    reflexivity.
  - rewrite IH by (apply add_chat_capped; assumption).
    rewrite add_chat_history by assumption.
    apply cap_step. exact Hc.
Qed.

(** ** The round clock *)

(** With the round off the clock update returns at once (line 114). *)
Lemma update_game_state_stopped (now : R) (s : Server) :
  game_started s = false -> _update_game_state now s = s.
Proof. intros E. unfold _update_game_state. rewrite E. reflexivity. Qed.

Lemma update_game_state_players (now : R) (s : Server) :
  players (_update_game_state now s)
  = if mass_loss_due now s then all_mass_loss (players s) else players s.
Proof.
  unfold _update_game_state, mass_loss_due.
  destruct (game_started s); cbn [negb andb]; [|reflexivity].
  destruct (_ =? _); reflexivity.
Qed.

Lemma update_game_state_tick (now : R) (s : Server) :
  next_mass_loss_tick (_update_game_state now s)
  = if mass_loss_due now s then next_mass_loss_tick s + 1
    else next_mass_loss_tick s.
Proof.
  unfold _update_game_state, mass_loss_due.
  destruct (game_started s); cbn [negb andb]; [|reflexivity].
  destruct (_ =? _); reflexivity.
Qed.

Lemma update_game_state_frame (now : R) (s : Server) :
  balls (_update_game_state now s) = balls s
  /\ msg_history (_update_game_state now s) = msg_history s
  /\ start_time (_update_game_state now s) = start_time s
  /\ player_id_counter (_update_game_state now s) = player_id_counter s.
Proof.
  unfold _update_game_state.
  destruct (game_started s); cbn [negb]; [|tauto].
  destruct (_ =? _); cbn; tauto.
Qed.

(** The clock update once the rounded elapsed time is known. *)
Lemma update_game_state_eval (now : R) (s : Server) (t : Z) :
  game_started s = true ->
  Py.round (now - start_time s) = t ->
  _update_game_state now s
  = {| players := if t / MASS_LOSS_TIME =? next_mass_loss_tick s
                  then all_mass_loss (players s) else players s;
       balls := balls s; msg_history := msg_history s;
       game_time := TimeInt t; start_time := start_time s;
       game_started := negb (ROUND_TIME <=? t);
       next_mass_loss_tick := if t / MASS_LOSS_TIME =? next_mass_loss_tick s
                              then next_mass_loss_tick s + 1
                              else next_mass_loss_tick s;
       player_id_counter := player_id_counter s |}.
Proof.
  intros E Ht. unfold _update_game_state. rewrite E, Ht. cbn [negb].
  destruct (t / MASS_LOSS_TIME =? next_mass_loss_tick s);
    destruct (ROUND_TIME <=? t); reflexivity.
Qed.

(** The clock read at an integer number of seconds [t] after the start
    of a round. *)
Lemma clock_at_second (t : Z) (s : Server) :
  game_started s = true -> start_time s = 0%R ->
  _update_game_state (IZR t) s
  = {| players := if t / MASS_LOSS_TIME =? next_mass_loss_tick s
                  then all_mass_loss (players s) else players s;
       balls := balls s; msg_history := msg_history s;
       game_time := TimeInt t; start_time := start_time s;
       game_started := negb (ROUND_TIME <=? t);
       next_mass_loss_tick := if t / MASS_LOSS_TIME =? next_mass_loss_tick s
                              then next_mass_loss_tick s + 1
                              else next_mass_loss_tick s;
       player_id_counter := player_id_counter s |}.
Proof.
  intros Hon H0. apply update_game_state_eval; [exact Hon|].
  rewrite H0. rewrite <- minus_IZR, Z.sub_0_r. apply round_IZR.
Qed.

Lemma keys_all_mass_loss (d : Players) : keys (all_mass_loss d) = keys d.
Proof. unfold keys, all_mass_loss. rewrite map_map. reflexivity. Qed.

Lemma lookup_all_mass_loss (k : Z) (d : Players) :
  lookup k (all_mass_loss d) = option_map mass_loss (lookup k d).
Proof.
  induction d as [|[k' p] d IH]; simpl; [reflexivity|].
  destruct (k' =? k); [reflexivity | exact IH].
Qed.

Lemma scores_nonneg_all_mass_loss (d : Players) :
  scores_nonneg d -> scores_nonneg (all_mass_loss d).
Proof.
  intros Hd. induction Hd as [|[k p] d Hp Hd IH]; simpl; constructor.
  - simpl in *. apply mass_loss_nonneg. exact Hp.
  - exact IH.
Qed.

(** Mass loss leaves everything but the score of a record alone. *)
Lemma mass_loss_keeps (p : Player) :
  pl_x (mass_loss p) = pl_x p /\ pl_y (mass_loss p) = pl_y p
  /\ pl_color (mass_loss p) = pl_color p /\ pl_name (mass_loss p) = pl_name p.
Proof. unfold mass_loss. destruct (Py.Rltb 8 (pl_score p)); simpl; tauto. Qed.

(** A mass loss advances the tick; nothing ever lowers it. So no two
    mass losses happen for the same value of [game_time // 7]. *)
Lemma mass_loss_advances_tick (now : R) (s : Server) :
  mass_loss_due now s = true ->
  Py.round (now - start_time s) / MASS_LOSS_TIME = next_mass_loss_tick s
  /\ next_mass_loss_tick (_update_game_state now s) = next_mass_loss_tick s + 1.
Proof.
  intros Hd. rewrite update_game_state_tick, Hd. split; [|reflexivity].
  unfold mass_loss_due in Hd. apply andb_true_iff in Hd.
  destruct Hd as [_ Hd]. apply Z.eqb_eq. exact Hd.
Qed.

(** When [game_time // 7] is past the tick the clock waits for, nothing
    happens to the scores and the clock goes on waiting for that tick. *)
Lemma missed_tick (now : R) (s : Server) :
  next_mass_loss_tick s < Py.round (now - start_time s) / MASS_LOSS_TIME ->
  players (_update_game_state now s) = players s
  /\ next_mass_loss_tick (_update_game_state now s) = next_mass_loss_tick s.
Proof.
  intros Hlt. rewrite update_game_state_players, update_game_state_tick.
  unfold mass_loss_due.
  rewrite (proj2 (Z.eqb_neq _ _)) by lia.
  rewrite andb_false_r. split; reflexivity.
Qed.

(** ** The branches of the main loop *)

Lemma assign_tame (current_id : Z) (f : Player -> Player) (s : Server) (g : Rng) :
  (forall p, pl_score (f p) = pl_score p) ->
  ends (fun s' => s') (assign current_id f s g) (tame s).
Proof.
  intros Hf. unfold assign.
  destruct (lookup current_id (players s)) as [p0|]; cbn; [|apply tame_refl].
  apply tame_update. intros p Hp. rewrite Hf. exact Hp.
Qed.

Lemma move_player_tame (current_id : Z) (command : string) (s : Server) (g : Rng) :
  ends fst (move_player current_id command s g) (tame s).
Proof.
  unfold move_player.
  destruct (Py.split command) as [|t0 [|x [|y [|? ?]]]]; try apply tame_refl.
  unfold to_int.
  destruct (Py.int x) as [xv|]; cbn [bind]; [|apply tame_refl].
  pose proof (assign_tame current_id (set_x xv) s g (fun _ => eq_refl)) as H1.
  destruct (assign current_id (set_x xv) s g) as [s1|e s1 g1|]; cbn [bind ends] in *;
    [|exact H1|exact I].
  destruct (Py.int y) as [yv|]; cbn [bind]; [|exact H1].
  pose proof (assign_tame current_id (set_y yv) s1 g (fun _ => eq_refl)) as H2.
  destruct (assign current_id (set_y yv) s1 g) as [s2|e s2 g2|]; cbn [bind ends] in *;
    [|eapply tame_trans; eassumption|exact I].
  assert (H12 : tame s s2) by (eapply tame_trans; eassumption).
  assert (H3 : ends fst (if game_started s2 then _check_collisions current_id s2 g
                         else Ok (s2, g)) (tame s2)).
  { destruct (game_started s2); [apply check_collisions_tame | apply tame_refl]. }
  destruct (if game_started s2 then _check_collisions current_id s2 g
            else Ok (s2, g)) as [[s3 g3]|e s3 g3|]; cbn [bind ends fst] in *;
    [|eapply tame_trans; eassumption|exact I].
  eapply tame_trans; eassumption.
Qed.

Lemma handle_move_tame (current_id : Z) (command : string) (s : Server) (g : Rng) :
  ends fst (handle_move current_id command s g) (tame s).
Proof.
  unfold handle_move.
  pose proof (move_player_tame current_id command s g) as H1.
  destruct (move_player current_id command s g) as [[s3 g3]|e s3 g3|];
    cbn [bind ends fst] in *; [|exact H1|exact I].
  pose proof (replenish_tame s3 g3) as H2.
  destruct (replenish s3 g3) as [[s4 g4]|e s4 g4|]; cbn [ends fst] in *;
    [| |exact I]; eapply tame_trans; eassumption.
Qed.

(** What [move_player] did when it returned: the command had three
    fields, the last two integers, the player was registered, its
    position was overwritten, and the resolver ran if the round was on. *)
Lemma move_player_spec (current_id : Z) (command : string) (s : Server) (g : Rng)
    (s3 : Server) (g3 : Rng) :
  move_player current_id command s g = Ok (s3, g3) ->
  exists t x y xv yv p,
    Py.split command = [t; x; y] /\ Py.int x = Some xv /\ Py.int y = Some yv
    /\ lookup current_id (players s) = Some p
    /\ let s2 := set_players
                   (update current_id (fun q => set_y yv (set_x xv q)) (players s))
                   s in
       if game_started s then _check_collisions current_id s2 g = Ok (s3, g3)
       else s3 = s2 /\ g3 = g.
Proof.
  unfold move_player. intros Hm.
  destruct (Py.split command) as [|t [|x [|y [|? ?]]]]; try discriminate.
  unfold to_int, assign in Hm.
  destruct (Py.int x) as [xv|] eqn:Ex; cbn [bind] in Hm; [|discriminate].
  destruct (lookup current_id (players s)) as [p|] eqn:El; cbn [bind] in Hm;
    [|discriminate].
  destruct (Py.int y) as [yv|] eqn:Ey; cbn [bind] in Hm; [|discriminate].
  cbn [players set_players] in Hm. rewrite lookup_update_same, El in Hm.
  cbn [option_map bind] in Hm. rewrite update_update in Hm.
  cbn [game_started set_players] in Hm.
  exists t, x, y, xv, yv, p.
  split; [reflexivity|]. split; [exact Ex|]. split; [exact Ey|].
  split; [reflexivity|]. cbv zeta.
  destruct (game_started s).
  - exact Hm.
  - injection Hm as <- <-. split; reflexivity.
Qed.

(** The same, read forwards. *)
Lemma move_player_eval (current_id : Z) (command : string) (s : Server) (g : Rng)
    (t x y : string) (xv yv : Z) (p : Player) :
  Py.split command = [t; x; y] -> Py.int x = Some xv -> Py.int y = Some yv ->
  lookup current_id (players s) = Some p ->
  move_player current_id command s g
  = let s2 := set_players
                (update current_id (fun q => set_y yv (set_x xv q)) (players s))
                s in
    if game_started s then _check_collisions current_id s2 g else Ok (s2, g).
Proof.
  intros Hs Hx Hy Hl. unfold move_player, to_int, assign.
  rewrite Hs, Hx. cbn [bind]. rewrite Hl. cbn [bind]. rewrite Hy. cbn [bind].
  cbn [players set_players]. rewrite lookup_update_same, Hl.
  cbn [option_map bind]. rewrite update_update.
  cbn [game_started set_players]. reflexivity.
Qed.

(** A command that starts with [move]: clock, lines 199-204, lines
    206-207, snapshot. *)
Lemma handle_command_move (current_id : Z) (now : R) (command : string)
    (s : Server) (g : Rng) :
  Py.startswith command "move" = true ->
  handle_command current_id now command s g
  = ('(s3, g3) <- move_player current_id command (_update_game_state now s) g ;;
     '(s4, g4) <- replenish s3 g3 ;;
     Ok (s4, g4, snapshot s4)).
Proof.
  intros E. unfold handle_command, handle_move. rewrite E.
  destruct (move_player _ _ _ g) as [[s3 g3]|e s3 g3|]; cbn [bind]; reflexivity.
Qed.

(** A command that is neither a move nor a message only runs the clock. *)
Lemma handle_command_other (current_id : Z) (now : R) (command : string)
    (s : Server) (g : Rng) :
  Py.startswith command "move" = false ->
  Py.startswith command "msg" = false ->
  handle_command current_id now command s g
  = Ok (_update_game_state now s, g, snapshot (_update_game_state now s)).
Proof.
  intros E1 E2. unfold handle_command. rewrite E1, E2. reflexivity.
Qed.

Lemma round_off_stays_off (current_id : Z) (now : R) (command : string)
    (s : Server) (g : Rng) :
  game_started s = false ->
  ends command_state (handle_command current_id now command s g)
    (round_rests current_id s).
Proof.
  intros Hoff.
  assert (Hsame : round_rests current_id s s)
    by (split; [exact Hoff | split; reflexivity]).
  unfold handle_command.
  rewrite (update_game_state_stopped now s Hoff).
  destruct (Py.startswith command "move").
  - unfold handle_move, move_player, to_int, assign.
    destruct (Py.split command) as [|t [|x [|y [|? ?]]]]; cbn [bind ends];
      try exact Hsame.
    destruct (Py.int x) as [xv|]; cbn [bind ends]; [|exact Hsame].
    destruct (lookup current_id (players s)) as [p|] eqn:El; cbn [bind ends];
      [|exact Hsame].
    assert (Hx : round_rests current_id s
                   (set_players (update current_id (set_x xv) (players s)) s)).
    { split; [exact Hoff|]. cbn [players set_players]. split.
      - intros k Hk. apply lookup_update_other. exact Hk.
      - rewrite lookup_update_same, El. reflexivity. }
    destruct (Py.int y) as [yv|]; cbn [bind ends players set_players];
      [|exact Hx].
    rewrite lookup_update_same, El.
    cbn [option_map bind game_started set_players].
    rewrite Hoff. cbn [bind].
    match goal with
    | |- context [replenish ?st g] =>
        pose proof (replenish_players st g) as Hrep;
        destruct (replenish st g) as [[s4 g4]|e s4 g4|]
    end; cbn [bind ends fst command_state] in *; [| |exact I];
      destruct Hrep as (Hp & Hg); unfold round_rests; rewrite Hp, Hg;
      cbn [players game_started set_players];
      (split; [exact Hoff|]; split;
       [intros k Hk; rewrite !lookup_update_other by exact Hk; reflexivity
       |rewrite !lookup_update_same, El; reflexivity]).
  - destruct (Py.startswith command "msg"); [|exact Hsame].
    unfold handle_msg.
    destruct (lookup current_id (players s)) as [p|];
      cbn [bind ends command_state fst]; exact Hsame.
Qed.

(** ** Invariants of the reachable states *)

(** The three invariants of the reachable states, and the floor of the
    mass-loss tick, are stable. *)
#[local] Instance chat_capped_stable : Stable chat_capped.
Proof.
  split; unfold chat_capped.
  - intros s s' (Hr & _) Hc. destruct Hr as (-> & _). exact Hc.
  - intros now s Hc. destruct (update_game_state_frame now s) as (_ & -> & _).
    exact Hc.
  - intros m s Hc. apply add_chat_capped. exact Hc.
  - intros k s Hc. exact Hc.
  - intros k x y c n s Hc. exact Hc.
  - intros now s Hc. unfold accept. destruct (game_started s); exact Hc.
Qed.

#[local] Instance scores_nonneg_stable : Stable (fun s => scores_nonneg (players s)).
Proof.
  split.
  - intros s s' (_ & _ & Hs) Hc. exact (Hs Hc).
  - intros now s Hc. rewrite update_game_state_players.
    destruct (mass_loss_due now s);
      [apply scores_nonneg_all_mass_loss|]; exact Hc.
  - intros m s Hc. exact Hc.
  - intros k s Hc. apply scores_nonneg_delitem. exact Hc.
  - intros k x y c n s Hc. apply scores_nonneg_setitem; [simpl; lra | exact Hc].
  - intros now s Hc. unfold accept. destruct (game_started s); exact Hc.
Qed.

#[local] Instance keys_distinct_stable : Stable (fun s => NoDup (keys (players s))).
Proof.
  split.
  - intros s s' (_ & Hk & _) Hc. rewrite Hk. exact Hc.
  - intros now s Hc. rewrite update_game_state_players.
    destruct (mass_loss_due now s); [rewrite keys_all_mass_loss|]; exact Hc.
  - intros m s Hc. exact Hc.
  - intros k s Hc. apply NoDup_delitem. exact Hc.
  - intros k x y c n s Hc. apply NoDup_setitem. exact Hc.
  - intros now s Hc. unfold accept. destruct (game_started s); exact Hc.
Qed.

#[local] Instance tick_floor_stable (k : Z) :
  Stable (fun s => k <= next_mass_loss_tick s).
Proof.
  split.
  - intros s s' ((_ & _ & _ & _ & Ht & _) & _) Hc. rewrite Ht. exact Hc.
  - intros now s Hc. rewrite update_game_state_tick.
    destruct (mass_loss_due now s); lia.
  - intros m s Hc. exact Hc.
  - intros k0 s Hc. exact Hc.
  - intros k0 x y c n s Hc. exact Hc.
  - intros now s Hc. unfold accept. destruct (game_started s); exact Hc.
Qed.

Section StableSteps.

Context (P : Server -> Prop) {HP : Stable P}.

Lemma cleanup_stable (current_id : Z) (s : Server) :
  P s -> P (cleanup current_id s).
Proof.
  intros Hi. unfold cleanup.
  destruct (lookup current_id (players s)) as [player|]; [|exact Hi].
  apply stable_leave. apply stable_chat. exact Hi.
Qed.

Lemma handshake_stable (current_id : Z) (username : string)
    (s : Server) (g : Rng) :
  P s -> ends fst (handshake current_id username s g) P.
Proof.
  intros Hi. unfold handshake.
  destruct (_get_start_location _ g) as [[start_pos g1]|];
    cbn [drawn bind ends fst]; [|exact I].
  apply stable_join. apply stable_chat. exact Hi.
Qed.

Lemma handle_command_stable (current_id : Z) (now : R) (command : string)
    (s : Server) (g : Rng) :
  P s -> ends command_state (handle_command current_id now command s g) P.
Proof.
  intros Hi. apply (stable_clock now) in Hi.
  unfold handle_command. set (s1 := _update_game_state now s) in *.
  destruct (Py.startswith command "move").
  - pose proof (handle_move_tame current_id command s1 g) as Ht.
    destruct (handle_move current_id command s1 g) as [[s2 g2]|e s2 g2|];
      cbn in *; try exact I; eapply stable_tame; eassumption.
  - destruct (Py.startswith command "msg"); [|exact Hi].
    unfold handle_msg.
    destruct (lookup current_id (players s1)) as [player|]; cbn; [|exact Hi].
    apply stable_chat. exact Hi.
Qed.

(** Every step of the server keeps a stable property. *)
Lemma step_stable (e : event) (s : Server) (g : Rng) (s' : Server) (g' : Rng) :
  P s -> step e s g = Some (s', g') -> P s'.
Proof.
  intros Hi Hs. destruct e as [now|cid username|cid now command|cid];
    cbn [step] in Hs.
  - injection Hs as <- <-. apply stable_accept. exact Hi.
  - pose proof (handshake_stable cid username s g Hi) as He.
    destruct (handshake cid username s g) as [[s1 g1]|e s1 g1|];
      cbn in He; [| |discriminate]; injection Hs as <- <-;
      [exact He | apply cleanup_stable; exact He].
  - pose proof (handle_command_stable cid now command s g Hi) as He.
    destruct (handle_command cid now command s g) as [[[s1 g1] snap]|e s1 g1|];
      cbn in He; [| |discriminate]; injection Hs as <- <-;
      [exact He | apply cleanup_stable; exact He].
  - injection Hs as <- <-. apply cleanup_stable. exact Hi.
Qed.

Lemma run_stable (es : list event) :
  forall s g s' g', P s -> run es s g = Some (s', g') -> P s'.
Proof.
  induction es as [|e es IH]; intros s g s' g' Hi Hr; cbn [run] in Hr.
  - injection Hr as <- <-. exact Hi.
  - destruct (step e s g) as [[s1 g1]|] eqn:Es; [|discriminate].
    eapply IH; [|exact Hr]. eapply step_stable; eassumption.
Qed.

Lemma startup_eq (g : Rng) : startup g = _create_balls 200 init g.
Proof. reflexivity. Qed.

Lemma startup_stable (g : Rng) (s : Server) (g' : Rng) :
  P init -> startup g = Some (s, g') -> P s.
Proof.
  rewrite startup_eq. intros Hi Hs.
  exact (stable_tame _ _ (create_balls_tame _ _ _ _ _ Hs) Hi).
Qed.

End StableSteps.

Lemma run_app (es1 es2 : list event) :
  forall s g,
  run (es1 ++ es2) s g
  = match run es1 s g with
    | Some (s1, g1) => run es2 s1 g1
    | None => None
    end.
Proof.
  induction es1 as [|e es1 IH]; intros s g; cbn [app run]; [reflexivity|].
  destruct (step e s g) as [[s1 g1]|]; [apply IH | reflexivity].
Qed.

Lemma mass_loss_once_per_interval (now : R) (s : Server) (es : list event)
    (g : Rng) (s' : Server) (g' : Rng) (now' : R) :
  mass_loss_due now s = true ->
  run es (_update_game_state now s) g = Some (s', g') ->
  mass_loss_due now' s' = true ->
  Py.round (now - start_time s) / MASS_LOSS_TIME
  < Py.round (now' - start_time s') / MASS_LOSS_TIME.
Proof.
  intros Hd Hr Hd'.
  apply mass_loss_advances_tick in Hd. destruct Hd as (Hk & Ht).
  apply mass_loss_advances_tick in Hd'. destruct Hd' as (Hk' & _).
  pose proof (run_stable (fun st => next_mass_loss_tick s + 1
                                    <= next_mass_loss_tick st)
                (HP := tick_floor_stable (next_mass_loss_tick s + 1))
                es (_update_game_state now s) g s' g') as Hmono.
  cbv beta in Hmono. rewrite Ht in Hmono. specialize (Hmono (Z.le_refl _) Hr).
  lia.
Qed.

(** ** The sessions of the examples, step by step *)

(** *** From the start of the server *)

(** The start of the server when the oracle proposes (100, 100) and the
    first colour for each of the 200 balls. *)
Lemma piled_startup : startup pile_rng = Some (piled, []).
Proof.
  rewrite startup_eq. unfold pile_rng.
  rewrite <- (app_nil_r (List.concat _)).
  rewrite create_balls_finishes by reflexivity. reflexivity.
Qed.

(** The first connection at time 0 and the handshake of ann, placed at
    (400, 400). *)
Lemma joined_reachable (g : Rng) :
  run [Accept 0; Handshake 0 "ann"] piled (400 :: 400 :: g) = Some (joined, g).
Proof. reflexivity. Qed.

Lemma joined_clock : _update_game_state 1 joined = joined_at_1.
Proof.
  rewrite (update_game_state_eval 1 joined 1); [reflexivity | reflexivity |].
  cbn [start_time joined]. rewrite <- minus_IZR. apply round_IZR.
Qed.


(** A move onto the pile instead: all 200 balls are in reach. *)
Lemma joined_eats_pile (g : Rng) :
  move_player 0 "move 100 100" joined_at_1 g = Ok (ate_pile, g).
Proof.
  rewrite (move_player_eval 0 "move 100 100" _ _ "move" "100" "100" 100 100
             (ann 400 400 0)) by reflexivity.
  cbv zeta. cbn [game_started joined_at_1].
  rewrite (check_collisions_alone 0 _ _ (ann 100 100 0)) by reflexivity.
  cbv zeta. cbn [balls set_players set_balls joined_at_1].
  unfold pile. rewrite !filter_repeat.
  rewrite ball_in_reach_true;
    [|unfold START_RADIUS; simpl; lra | unfold START_RADIUS; simpl; lra].
  cbn [negb]. rewrite repeat_length. reflexivity.
Qed.

(** ... and one batch, here of 50 balls at (500, 500), is all that
    comes back. *)
Lemma joined_move_100_100 :
  handle_command 0 1 "move 100 100" joined
    (0 :: List.concat (repeat [500; 500; 0] 50))
  = Ok (after_move_100_100, [], snapshot after_move_100_100).
Proof.
  rewrite handle_command_move by reflexivity.
  rewrite joined_clock, joined_eats_pile. cbn [bind].
  unfold replenish. cbn [balls set_balls List.length Z.of_nat Z.ltb Z.compare].
  cbn [randrange drawn bind].
  change (Z.to_nat (randrange_of 50 100 0)) with 50%nat.
  rewrite <- (app_nil_r (List.concat _)).
  rewrite create_balls_finishes.
  - reflexivity.
  - cbn [players ate_pile].
    apply is_safe_location_one; unfold START_RADIUS, fed; simpl; lra.
Qed.

(** *** Ann and Bob *)

Lemma far_pile_out_of_reach :
  Forall (fun b => ball_in_reach 100 100 20 b = false) far_pile.
Proof.
  unfold far_pile. apply Forall_forall. intros b Hb.
  apply repeat_spec in Hb. subst b.
  apply ball_in_reach_false; unfold START_RADIUS; simpl; lra.
Qed.

(** Ann's resolver when the oracle proposes (700, 600), in [duel] and in
    any state with the same players and balls. *)
Lemma duel_resolved_in (s : Server) (g : Rng) :
  players s = players duel -> balls s = far_pile ->
  _check_collisions 0 s (700 :: 600 :: g)
  = Ok (set_players duel_players_won s, g).
Proof.
  intros Hp Hb.
  unfold _check_collisions. rewrite Hp, Hb.
  cbn [lookup players duel Z.eqb]. cbv zeta.
  cbn [pl_x pl_y pl_score ann].
  rewrite (eat_balls_none 0 100 100 20 far_pile _ far_pile_out_of_reach).
  rewrite Hp. change (keys (players duel)) with [0; 1]. cbn [eat_players].
  rewrite eat_player_skips by (left; reflexivity).
  rewrite (eat_player_eats 0 100 100 20 1 (bob 105 100 10));
    [|discriminate|rewrite Hp; reflexivity
     |apply can_eat_true; unfold START_RADIUS; simpl; lra].
  cbv zeta. rewrite Hp. cbn [players duel update Z.eqb Pos.eqb].
  rewrite get_start_location_finds.
  - reflexivity.
  - apply (is_safe_location_far 37); [lra|].
    assert (Hm : (merged 20 (bob 105 100 10) <= 20 + 10)%R)
      by (apply merged_le; simpl; lra).
    constructor; [|constructor; [|constructor]];
      cbn [snd pl_score pl_x pl_y set_score set_x set_y ann bob];
      unfold START_RADIUS; simpl; lra.
Qed.

Lemma duel_resolved (g : Rng) :
  _check_collisions 0 duel (700 :: 600 :: g) = Ok (duel_won, g).
Proof. apply duel_resolved_in; reflexivity. Qed.

(** The clock of [duel] read at second 5 changes nothing. *)
Lemma duel_clock : _update_game_state 5 duel = duel.
Proof.
  rewrite (update_game_state_eval 5 duel 5); [reflexivity | reflexivity |].
  cbn [start_time duel]. rewrite <- minus_IZR. apply round_IZR.
Qed.

(** Ann's move on the spot, at second 5. *)
Lemma duel_move_player (g : Rng) :
  move_player 0 "move 100 100" duel (700 :: 600 :: g) = Ok (duel_won, g).
Proof.
  rewrite (move_player_eval 0 "move 100 100" _ _ "move" "100" "100" 100 100
             (ann 100 100 20)) by reflexivity.
  cbv zeta. cbn [game_started duel].
  change (set_players _ _) with duel.
  apply duel_resolved.
Qed.

Lemma duel_move (g : Rng) :
  handle_command 0 5 "move 100 100" duel (700 :: 600 :: g)
  = Ok (duel_won, g, snapshot duel_won).
Proof.
  rewrite handle_command_move by reflexivity.
  rewrite duel_clock, duel_move_player. reflexivity.
Qed.

(** Ann's move at second 300: the round goes off, Bob is left alone. *)
Lemma duel_expires (g : Rng) :
  handle_command 0 300 "move 100 100" duel g
  = Ok (duel_expired, g, snapshot duel_expired).
Proof.
  rewrite handle_command_move by reflexivity.
  rewrite (clock_at_second 300 duel) by reflexivity.
  rewrite (move_player_eval 0 "move 100 100" _ _ "move" "100" "100" 100 100
             (ann 100 100 20)) by reflexivity.
  reflexivity.
Qed.

(** A connection accepted at second 301 starts the clock anew. *)
Lemma duel_accepts : accept 301 duel_expired = (duel_restarted, 2).
Proof. reflexivity. Qed.

(** Ann's move at second 302 resolves collisions again. *)
Lemma duel_eats_again (g : Rng) :
  handle_command 0 302 "move 100 100" duel_restarted (700 :: 600 :: g)
  = Ok (duel_again, g, snapshot duel_again).
Proof.
  rewrite handle_command_move by reflexivity.
  rewrite (update_game_state_eval 302 duel_restarted 1);
    [|reflexivity
     |cbn [start_time duel_restarted]; rewrite <- minus_IZR; apply round_IZR].
  rewrite (move_player_eval 0 "move 100 100" _ _ "move" "100" "100" 100 100
             (ann 100 100 20)) by reflexivity.
  cbv zeta. cbn [game_started negb ROUND_TIME Z.leb Z.mul Z.compare Pos.mul
                   Pos.compare Pos.compare_cont Pos.add Pos.succ].
  rewrite duel_resolved_in by reflexivity.
  reflexivity.
Qed.

(** *** Ann, Bob and Cat *)

(** Ann's resolver between Bob and Cat, with (700, 600) and (600, 700)
    proposed. *)
Lemma trio_resolved (g : Rng) :
  _check_collisions 0 trio (700 :: 600 :: 600 :: 700 :: g) = Ok (trio_won, g).
Proof.
  unfold _check_collisions. cbn [lookup players trio Z.eqb]. cbv zeta.
  cbn [pl_x pl_y pl_score ann balls].
  rewrite (eat_balls_none 0 100 100 20 far_pile _ far_pile_out_of_reach).
  change (keys (players trio)) with [0; 1; 2]. cbn [eat_players].
  assert (Hb : (merged 20 (bob 105 100 10) <= 20 + 10)%R)
    by (apply merged_le; simpl; lra).
  assert (Hc : (merged 20 (cat 95 100 10) <= 20 + 10)%R)
    by (apply merged_le; simpl; lra).
  rewrite eat_player_skips by (left; reflexivity).
  rewrite (eat_player_eats 0 100 100 20 1 (bob 105 100 10));
    [|discriminate|reflexivity|apply can_eat_true; unfold START_RADIUS; simpl; lra].
  cbv zeta. cbn [players update Z.eqb Pos.eqb].
  rewrite get_start_location_finds.
  2:{ apply (is_safe_location_far 37); [lra|].
      constructor; [|constructor; [|constructor; [|constructor]]];
        cbn [snd pl_score pl_x pl_y set_score set_x set_y ann bob cat];
        unfold START_RADIUS; simpl; lra. }
  rewrite (eat_player_eats 0 100 100 20 2 (cat 95 100 10));
    [|discriminate|reflexivity|apply can_eat_true; unfold START_RADIUS; simpl; lra].
  cbv zeta. cbn [players set_players update Z.eqb Pos.eqb].
  rewrite get_start_location_finds.
  2:{ apply (is_safe_location_far 37); [lra|].
      constructor; [|constructor; [|constructor; [|constructor]]];
        cbn [snd pl_score pl_x pl_y set_score set_x set_y ann bob cat];
        unfold START_RADIUS; simpl; lra. }
  reflexivity.
Qed.

Lemma trio_clock : _update_game_state 5 trio = trio.
Proof.
  rewrite (update_game_state_eval 5 trio 5); [reflexivity | reflexivity |].
  cbn [start_time trio]. rewrite <- minus_IZR. apply round_IZR.
Qed.

Lemma trio_move (g : Rng) :
  handle_command 0 5 "move 100 100" trio (700 :: 600 :: 600 :: 700 :: g)
  = Ok (trio_won, g, snapshot trio_won).
Proof.
  rewrite handle_command_move by reflexivity. rewrite trio_clock.
  rewrite (move_player_eval 0 "move 100 100" _ _ "move" "100" "100" 100 100
             (ann 100 100 20)) by reflexivity.
  cbv zeta. cbn [game_started trio].
  change (set_players _ _) with trio.
  rewrite trio_resolved. reflexivity.
Qed.

(** *** Ann, Bob and a heavier Cat *)

Lemma rivals_resolved (g : Rng) :
  _check_collisions 0 rivals (700 :: 600 :: 600 :: 700 :: g) = Ok (rivals_won, g).
Proof.
  unfold _check_collisions. cbn [lookup players rivals Z.eqb]. cbv zeta.
  cbn [pl_x pl_y pl_score ann balls].
  rewrite (eat_balls_none 0 100 100 20 far_pile _ far_pile_out_of_reach).
  change (keys (players rivals)) with [0; 1; 2]. cbn [eat_players].
  assert (Hb : (merged 20 (bob 105 100 10) <= 20 + 10)%R)
    by (apply merged_le; simpl; lra).
  assert (Hc : (merged 20 (cat 95 100 12) <= 20 + 12)%R)
    by (apply merged_le; simpl; lra).
  rewrite eat_player_skips by (left; reflexivity).
  rewrite (eat_player_eats 0 100 100 20 1 (bob 105 100 10));
    [|discriminate|reflexivity|apply can_eat_true; unfold START_RADIUS; simpl; lra].
  cbv zeta. cbn [players update Z.eqb Pos.eqb].
  rewrite get_start_location_finds.
  2:{ apply (is_safe_location_far 40); [lra|].
      constructor; [|constructor; [|constructor; [|constructor]]];
        cbn [snd pl_score pl_x pl_y set_score set_x set_y ann bob cat];
        unfold START_RADIUS; simpl; lra. }
  rewrite (eat_player_eats 0 100 100 20 2 (cat 95 100 12));
    [|discriminate|reflexivity|apply can_eat_true; unfold START_RADIUS; simpl; lra].
  cbv zeta. cbn [players set_players update Z.eqb Pos.eqb].
  rewrite get_start_location_finds.
  2:{ apply (is_safe_location_far 40); [lra|].
      constructor; [|constructor; [|constructor; [|constructor]]];
        cbn [snd pl_score pl_x pl_y set_score set_x set_y ann bob cat];
        unfold START_RADIUS; simpl; lra. }
  reflexivity.
Qed.

Lemma rivals_clock : _update_game_state 5 rivals = rivals.
Proof.
  rewrite (update_game_state_eval 5 rivals 5); [reflexivity | reflexivity |].
  cbn [start_time rivals]. rewrite <- minus_IZR. apply round_IZR.
Qed.

Lemma rivals_move (g : Rng) :
  handle_command 0 5 "move 100 100" rivals (700 :: 600 :: 600 :: 700 :: g)
  = Ok (rivals_won, g, snapshot rivals_won).
Proof.
  rewrite handle_command_move by reflexivity. rewrite rivals_clock.
  rewrite (move_player_eval 0 "move 100 100" _ _ "move" "100" "100" 100 100
             (ann 100 100 20)) by reflexivity.
  cbv zeta. cbn [game_started rivals].
  change (set_players _ _) with rivals.
  rewrite rivals_resolved. reflexivity.
Qed.

(** *** Ann and Bob with food at hand *)

Lemma filter_all {A} (f : A -> bool) (l : list A) :
  Forall (fun a => f a = true) l ->
  filter f l = l /\ filter (fun a => negb (f a)) l = [].
Proof.
  intros Hf. induction Hf as [|a l Ha _ (IH1 & IH2)]; cbn [filter];
    [split; reflexivity|].
  rewrite Ha. cbn [negb]. rewrite IH1, IH2. split; reflexivity.
Qed.

Lemma snack_in_reach :
  Forall (fun b => ball_in_reach 100 100 20 b = true) snack.
Proof.
  unfold snack, red, orange, yellow.
  repeat constructor; apply ball_in_reach_true; unfold START_RADIUS; simpl; lra.
Qed.

(** The food loop of Ann's resolver in [feast]. *)
Lemma feast_food_loop :
  eat_balls 0 100 100 20 (balls feast) feast = feast_fed.
Proof.
  pose proof (eat_balls_spec 0 100 100 20 (balls feast) feast [] eq_refl
                (Forall_nil _)) as Hs.
  cbv zeta in Hs. destruct Hs as (Hb & Hp & Hr).
  assert (Hin : filter (ball_in_reach 100 100 20) (balls feast) = snack).
  { cbn [balls feast]. rewrite filter_app.
    rewrite (proj1 (filter_all _ _ snack_in_reach)).
    replace (filter (ball_in_reach 100 100 20) far_pile) with (@nil Ball);
      [apply app_nil_r|].
    symmetry. unfold far_pile. rewrite filter_repeat.
    rewrite (ball_in_reach_false 100 100 20 800 700 red);
      [reflexivity | unfold START_RADIUS; simpl; lra..]. }
  assert (Hout : filter (fun b => negb (ball_in_reach 100 100 20 b)) (balls feast)
                 = far_pile).
  { cbn [balls feast]. rewrite filter_app.
    rewrite (proj2 (filter_all _ _ snack_in_reach)).
    cbn [app]. unfold far_pile. rewrite filter_repeat.
    rewrite (ball_in_reach_false 100 100 20 800 700 red);
      [reflexivity | unfold START_RADIUS; simpl; lra..]. }
  apply server_eq.
  - rewrite Hp, Hin. reflexivity.
  - rewrite Hb, Hout. reflexivity.
  - destruct Hr as (R1 & R2 & R3 & R4 & R5 & R6).
    unfold same_rest. cbn [feast_fed feast msg_history game_time start_time
      game_started next_mass_loss_tick player_id_counter] in *.
    repeat split; congruence.
Qed.

(** Ann's resolver in [feast], with (700, 600) proposed for Bob. *)
Lemma feast_resolved (g : Rng) :
  _check_collisions 0 feast (700 :: 600 :: g) = Ok (feast_won, g).
Proof.
  unfold _check_collisions. cbn [lookup players feast Z.eqb]. cbv zeta.
  cbn [pl_x pl_y pl_score ann].
  change (balls {| players := [(0, ann 100 100 20); (1, bob 105 100 10)];
                   balls := snack ++ far_pile;
                   msg_history := ["ann CONNECTED"; "bob CONNECTED"];
                   game_time := TimeInt 5; start_time := 0%R;
                   game_started := true; next_mass_loss_tick := 1;
                   player_id_counter := 2 |}) with (balls feast).
  fold feast. rewrite feast_food_loop.
  change (keys (players feast_fed)) with [0; 1]. cbn [eat_players].
  rewrite eat_player_skips by (left; reflexivity).
  rewrite (eat_player_eats 0 100 100 20 1 (bob 105 100 10));
    [|discriminate|reflexivity
     |apply can_eat_true; unfold START_RADIUS; simpl; lra].
  cbv zeta. cbn [players feast_fed update Z.eqb Pos.eqb].
  rewrite get_start_location_finds.
  - reflexivity.
  - apply (is_safe_location_far 37); [lra|].
    assert (Hm : (merged 20 (bob 105 100 10) <= 20 + 10)%R)
      by (apply merged_le; simpl; lra).
    constructor; [|constructor; [|constructor]];
      cbn [snd pl_score pl_x pl_y set_score set_x set_y ann bob fed];
      unfold START_RADIUS; simpl; lra.
Qed.

Lemma feast_clock : _update_game_state 5 feast = feast.
Proof.
  rewrite (update_game_state_eval 5 feast 5); [reflexivity | reflexivity |].
  cbn [start_time feast]. rewrite <- minus_IZR. apply round_IZR.
Qed.

Lemma feast_move (g : Rng) :
  handle_command 0 5 "move 100 100" feast (700 :: 600 :: g)
  = Ok (feast_won, g, snapshot feast_won).
Proof.
  rewrite handle_command_move by reflexivity. rewrite feast_clock.
  rewrite (move_player_eval 0 "move 100 100" _ _ "move" "100" "100" 100 100
             (ann 100 100 20)) by reflexivity.
  cbv zeta. cbn [game_started feast].
  change (set_players _ _) with feast.
  rewrite feast_resolved. reflexivity.
Qed.

(** *** The heavy player *)

(** [floor(100 * 0.95)] is 95. *)
Lemma mass_loss_100 : mass_loss (ann 400 400 100) = ann 400 400 95.
Proof.
  unfold mass_loss. cbn [pl_score ann].
  rewrite (proj2 (Rltb_true 8 100)) by lra.
  unfold set_score, ann, Py.floor. cbn [pl_x pl_y pl_color pl_name].
  replace (100 * (95 / 100))%R with (IZR 95) by lra.
  rewrite ZfloorZ. reflexivity.
Qed.

(** The example of the specification: score 100 read at 6 s, 8 s and
    13 s. *)
Lemma mass_loss_example :
  let s6 := _update_game_state 6 heavy in
  let s8 := _update_game_state 8 s6 in
  let s13 := _update_game_state 13 s8 in
  players s6 = [(0, ann 400 400 100)]
  /\ players s8 = [(0, ann 400 400 95)]
  /\ players s13 = [(0, ann 400 400 95)].
Proof.
  cbv zeta.
  rewrite (clock_at_second 6 heavy) by reflexivity.
  cbn [Z.div Z.eqb heavy players next_mass_loss_tick].
  change (6 / MASS_LOSS_TIME =? 1) with false. cbv iota.
  rewrite (clock_at_second 8) by reflexivity.
  cbn [players next_mass_loss_tick balls msg_history start_time player_id_counter].
  change (8 / MASS_LOSS_TIME =? 1) with true. cbv iota.
  rewrite (clock_at_second 13) by reflexivity.
  cbn [players next_mass_loss_tick].
  change (13 / MASS_LOSS_TIME =? 1 + 1) with false. cbv iota.
  cbn [all_mass_loss map fst snd]. rewrite mass_loss_100.
  repeat split.
Qed.

(** ** The claims *)

(** C1. The code does not do what the claim says once the acting player
    eats more than one player in a call. Line 133 reads its score once,
    and line 153 writes the merge of that value with each player eaten,
    so each merge overwrites the one before. Ann (score 20) moves on the
    spot between Bob (score 10) and Cat (score 12), both light enough
    and both within her reach of 27: both are eaten, reset to 0 and
    relocated, and Ann ends with [sqrt (20^2 + 12^2)]. That is not the
    [sqrt (20^2 + 10^2)] the rule gives her for eating Bob, and it is
    less than the merge of that score with Cat: the mass of Bob is
    lost. The example of the claim itself, Ann and Bob alone, comes out
    as the claim says. *)
Theorem eating_forgets_earlier_victim :
  (forall g,
     handle_command 0 5 "move 100 100" rivals (700 :: 600 :: 600 :: 700 :: g)
     = Ok (rivals_won, g, snapshot rivals_won))
  /\ lookup 0 (players rivals) = Some (ann 100 100 20)
  /\ lookup 1 (players rivals) = Some (bob 105 100 10)
  /\ lookup 2 (players rivals) = Some (cat 95 100 12)
  /\ (10 * (115 / 100) < 20)%R /\ (12 * (115 / 100) < 20)%R
  /\ (Py.hypot (100 - 105) (100 - 100) < START_RADIUS + 20)%R
  /\ (Py.hypot (100 - 95) (100 - 100) < START_RADIUS + 20)%R
  /\ lookup 1 (players rivals_won) = Some (bob 700 600 0)
  /\ lookup 2 (players rivals_won) = Some (cat 600 700 0)
  /\ lookup 0 (players rivals_won) = Some (ann 100 100 (sqrt (20 ^ 2 + 12 ^ 2)))
  /\ (sqrt (20 ^ 2 + 10 ^ 2) < sqrt (20 ^ 2 + 12 ^ 2))%R
  /\ (sqrt (20 ^ 2 + 12 ^ 2) < sqrt (sqrt (20 ^ 2 + 10 ^ 2) ^ 2 + 12 ^ 2))%R
  /\ (forall g,
        handle_command 0 5 "move 100 100" duel (700 :: 600 :: g)
        = Ok (duel_won, g, snapshot duel_won))
  /\ lookup 0 (players duel_won) = Some (ann 100 100 (sqrt (20 ^ 2 + 10 ^ 2)))
  /\ lookup 1 (players duel_won) = Some (bob 700 600 0).
Proof.
  split; [exact rivals_move|].
  split; [reflexivity|]. split; [reflexivity|]. split; [reflexivity|].
  split; [lra|]. split; [lra|].
  split; [apply hypot_lt; unfold START_RADIUS; simpl; lra|].
  split; [apply hypot_lt; unfold START_RADIUS; simpl; lra|].
  split; [reflexivity|]. split; [reflexivity|]. split; [reflexivity|].
  split; [apply sqrt_lt_1_alt; lra|].
  split.
  - apply sqrt_lt_1_alt. split; [nra|].
    pose proof (sqrt_pos (20 ^ 2 + 10 ^ 2)) as H0.
    rewrite <- (Rsqr_pow2 (sqrt (20 ^ 2 + 10 ^ 2))), Rsqr_sqrt by nra. lra.
  - split; [exact duel_move|]. split; reflexivity.
Qed.

(** C2. The code does not do what the claim says: line 133 reads the
    acting player's score once, and lines 152-153 test and merge every
    victim against that value. Ann (score 20) moves between Bob and Cat
    (score 10 each): both are eaten and Ann ends with
    [sqrt (20^2 + 10^2)], the merge of her score at the start with the
    last victim, where the claim asks for the second merge to start from
    the score already grown by the first, which gives the larger
    [sqrt (sqrt (20^2 + 10^2)^2 + 10^2)]. In general the acting player
    ends with its score at the start merged with the last victim:
    whatever it gained from balls or earlier victims in the same call is
    overwritten. *)
Theorem merge_uses_score_at_start :
  (forall g,
     handle_command 0 5 "move 100 100" trio (700 :: 600 :: 600 :: 700 :: g)
     = Ok (trio_won, g, snapshot trio_won))
  /\ lookup 0 (players trio) = Some (ann 100 100 20)
  /\ lookup 0 (players trio_won) = Some (ann 100 100 (sqrt (20 ^ 2 + 10 ^ 2)))
  /\ lookup 1 (players trio_won) = Some (bob 700 600 0)
  /\ lookup 2 (players trio_won) = Some (cat 600 700 0)
  /\ (sqrt (20 ^ 2 + 10 ^ 2) < sqrt (sqrt (20 ^ 2 + 10 ^ 2) ^ 2 + 10 ^ 2))%R
  /\ (forall current_id s g s' g' player v vs,
        NoDup (keys (players s)) ->
        lookup current_id (players s) = Some player ->
        _check_collisions current_id s g = Ok (s', g') ->
        victims_of current_id (pl_x player) (pl_y player) (pl_score player)
          (keys (players s)) (players s) = vs ++ [v] ->
        lookup current_id (players s')
        = Some (set_score (sqrt (pl_score player ^ 2 + pl_score v ^ 2)) player)).
Proof.
  split; [exact trio_move|]. split; [reflexivity|]. split; [reflexivity|].
  split; [reflexivity|]. split; [reflexivity|]. split.
  - apply sqrt_lt_1_alt. split; [nra|].
    pose proof (sqrt_pos (20 ^ 2 + 10 ^ 2)) as H0.
    rewrite <- (Rsqr_pow2 (sqrt _)), Rsqr_sqrt by nra. lra.
  - intros current_id s g s' g' player v vs Hnd Hl Hc Hv.
    apply check_collisions_spec with (player := player) in Hc;
      [|exact Hnd|exact Hl].
    cbv zeta in Hc. destruct Hc as (_ & _ & _ & Hcur & _).
    rewrite Hcur, Hv, map_app. cbn [map]. rewrite last_last. reflexivity.
Qed.

(** C3. The code does not keep the gain the claim speaks of when a
    player is eaten in the same call. Line 140 adds 0.5 to the live
    score for each ball in reach, but line 153 then writes the merge of
    the score read at line 133, before the food. Ann (score 20) moves
    on the spot with three balls within her reach of 27 and Bob (score
    10) next to her: the three balls go, and after the food loop Ann
    has 21.5; Bob is eaten and Ann ends with [sqrt (20^2 + 10^2)],
    exactly the players of the same move without any food, and less
    than the merge of 21.5 with Bob. The 1.5 she gained is lost. *)
Theorem food_gain_is_lost_when_a_player_is_eaten :
  (forall g,
     handle_command 0 5 "move 100 100" feast (700 :: 600 :: g)
     = Ok (feast_won, g, snapshot feast_won))
  /\ lookup 0 (players feast) = Some (ann 100 100 20)
  /\ lookup 1 (players feast) = Some (bob 105 100 10)
  /\ balls feast = snack ++ far_pile
  /\ List.length snack = 3%nat
  /\ Forall (fun b => (Py.hypot (100 - fst (fst b)) (100 - snd (fst b))
                       <= START_RADIUS + 20)%R) snack
  /\ Forall (fun b => (START_RADIUS + 20
                       < Py.hypot (100 - fst (fst b)) (100 - snd (fst b)))%R)
       far_pile
  /\ balls feast_won = far_pile
  /\ lookup 0 (players (eat_balls 0 100 100 20 (balls feast) feast))
     = Some (ann 100 100 (20 + 3 * (5 / 10)))
  /\ lookup 0 (players feast_won) = Some (ann 100 100 (sqrt (20 ^ 2 + 10 ^ 2)))
  /\ lookup 1 (players feast_won) = Some (bob 700 600 0)
  /\ players feast_won = players duel_won
  /\ (sqrt (20 ^ 2 + 10 ^ 2) < sqrt ((20 + 3 * (5 / 10)) ^ 2 + 10 ^ 2))%R.
Proof.
  split; [exact feast_move|].
  split; [reflexivity|]. split; [reflexivity|]. split; [reflexivity|].
  split; [reflexivity|].
  split.
  { unfold snack. constructor; [|constructor; [|constructor; [|constructor]]];
      cbn [fst snd]; apply hypot_le; unfold START_RADIUS; simpl; lra. }
  split.
  { unfold far_pile. apply Forall_forall. intros b Hb.
    apply repeat_spec in Hb. subst b. cbn [fst snd].
    apply Rnot_le_lt. intros Hle.
    apply hypot_le in Hle; unfold START_RADIUS in *; simpl in Hle; lra. }
  split; [reflexivity|].
  split.
  { rewrite feast_food_loop. cbn [lookup players feast_fed Z.eqb].
    unfold fed, ann, set_score. cbn [pl_x pl_y pl_color pl_score pl_name].
    reflexivity. }
  split; [reflexivity|]. split; [reflexivity|]. split; [reflexivity|].
  apply sqrt_lt_1_alt. lra.
Qed.

(** C4. The code does not do what the claim says when a 7-second
    interval passes without any intent: line 124 tests
    [game_time // 7 == next_mass_loss_tick], and the tick only advances
    when the test holds. With Ann at score 100 and the first intent read
    at second 15, [game_time // 7] is 2, an interval that was never
    processed, and nothing happens: the score stays 100 and the clock
    goes on waiting for tick 1, which no later reading can give. In
    general a reading past the awaited tick changes neither scores nor
    tick. *)
Theorem mass_loss_stops_after_missed_interval :
  players (_update_game_state 15 heavy) = [(0, ann 400 400 100)]
  /\ next_mass_loss_tick (_update_game_state 15 heavy) = 1
  /\ (forall t, 14 <= t ->
        players (_update_game_state (IZR t) heavy) = [(0, ann 400 400 100)])
  /\ (forall now s,
        next_mass_loss_tick s < Py.round (now - start_time s) / MASS_LOSS_TIME ->
        players (_update_game_state now s) = players s
        /\ next_mass_loss_tick (_update_game_state now s)
           = next_mass_loss_tick s).
Proof.
  assert (Hround : forall t, Py.round (IZR t - start_time heavy) = t).
  { intros t. cbn [start_time heavy]. rewrite <- minus_IZR, Z.sub_0_r.
    apply round_IZR. }
  assert (Hlate : forall t, 14 <= t ->
            next_mass_loss_tick heavy
            < Py.round (IZR t - start_time heavy) / MASS_LOSS_TIME).
  { intros t Ht. rewrite Hround. cbn [next_mass_loss_tick heavy].
    unfold MASS_LOSS_TIME. apply Z.div_le_lower_bound with (b:=7) (q:=2) in Ht;
      lia. }
  split; [exact (proj1 (missed_tick 15 heavy (Hlate 15 ltac:(lia))))|].
  split; [exact (proj2 (missed_tick 15 heavy (Hlate 15 ltac:(lia))))|].
  split.
  - intros t Ht. exact (proj1 (missed_tick (IZR t) heavy (Hlate t Ht))).
  - exact missed_tick.
Qed.




(** C6 does not hold as stated: one batch is all a move adds. After the
    start of the server with the 200 balls on one spot, the first
    connection and a move onto that spot, all balls are eaten, a batch
    of 50 is created, and the intent ends with 50 balls, less than 150. *)
Lemma food_floor_fails :
  exists s',
    startup pile_rng = Some (piled, [])
    /\ run [Accept 0; Handshake 0 "ann"; Command 0 1 "move 100 100"] piled
         (400 :: 400 :: 0 :: List.concat (repeat [500; 500; 0] 50))
       = Some (s', [])
    /\ (List.length (balls s') < 150)%nat.
Proof.
  exists after_move_100_100. split; [exact piled_startup|]. split.
  - change [Accept 0; Handshake 0 "ann"; Command 0 1 "move 100 100"]
      with ([Accept 0; Handshake 0 "ann"] ++ [Command 0 1 "move 100 100"]).
    rewrite run_app, joined_reachable. cbn [run step].
    rewrite joined_move_100_100. reflexivity.
  - cbn [balls after_move_100_100]. rewrite repeat_length. lia.
Qed.

(** C6, amended. In a move intent that is processed to its reply, when
    the position update and the collisions of lines 199-204 leave fewer
    than 150 balls, lines 206-207 append one batch of 50 to 99 balls, each
    at integer coordinates in the world and out of the reach of every
    player; otherwise nothing is added. So the intent ends with the balls
    that were left plus the batch: at least 150 if at least 100 were
    left. The batch is created as soon as the oracle proposes a safe
    spot. *)
Theorem replenishment_adds_one_batch (current_id : Z) (now : R)
    (command : string) (s : Server) (g : Rng)
    (s' : Server) (g' : Rng) (snap : Snapshot) :
  Py.startswith command "move" = true ->
  handle_command current_id now command s g = Ok (s', g', snap) ->
  exists s3 g3 new,
    move_player current_id command (_update_game_state now s) g = Ok (s3, g3)
    /\ replenish s3 g3 = Ok (s', g')
    /\ players s' = players s3
    /\ balls s' = balls s3 ++ new
    /\ (if Z.of_nat (List.length (balls s3)) <? 150
        then (50 <= List.length new <= 99)%nat else new = [])
    /\ Forall (fun b => 0 <= fst (fst b) < W /\ 0 <= snd (fst b) < H
                        /\ is_safe_location (fst (fst b)) (snd (fst b))
                             (players s3) = true) new
    /\ ((100 <= List.length (balls s3))%nat ->
        (150 <= List.length (balls s'))%nat)
    /\ (forall rb rx ry rc g0,
          is_safe_location (randrange_of 0 W rx) (randrange_of 0 H ry)
            (players s3) = true ->
          exists s'' g'',
            replenish s3
              (rb :: List.concat
                       (repeat [rx; ry; rc] (Z.to_nat (randrange_of 50 100 rb)))
                  ++ g0)
            = Ok (s'', g'')).
Proof.
  intros Em Hc. rewrite handle_command_move in Hc by exact Em.
  destruct (move_player current_id command (_update_game_state now s) g)
    as [[s3 g3]|e s3 g3|] eqn:E3; cbn [bind] in Hc; try discriminate.
  destruct (replenish s3 g3) as [[s4 g4]|e s4 g4|] eqn:E4; cbn [bind] in Hc;
    try discriminate.
  injection Hc as <- <- _.
  pose proof (replenish_spec s3 g3 s4 g4 E4) as (new & Hp & _ & Hb & Hn & Hf).
  exists s3, g3, new.
  split; [reflexivity|]. split; [exact E4|]. split; [exact Hp|].
  split; [exact Hb|]. split; [exact Hn|]. split; [exact Hf|]. split.
  - intros H100. rewrite Hb, length_app.
    destruct (Z.ltb_spec (Z.of_nat (List.length (balls s3))) 150); [lia|].
    subst new. simpl. lia.
  - intros rb rx ry rc g0 Hs. apply replenish_finishes. exact Hs.
Qed.

Lemma replenishment_adds_one_batch_witness :
  Py.startswith "move 100 100" "move" = true
  /\ exists s3 g3 new,
       move_player 0 "move 100 100" (_update_game_state 1 joined)
         (0 :: List.concat (repeat [500; 500; 0] 50)) = Ok (s3, g3)
       /\ balls after_move_100_100 = balls s3 ++ new
       /\ (if Z.of_nat (List.length (balls s3)) <? 150
           then (50 <= List.length new <= 99)%nat else new = []).
Proof.
  split; [reflexivity|].
  destruct (replenishment_adds_one_batch 0 1 "move 100 100" joined
              (0 :: List.concat (repeat [500; 500; 0] 50))
              after_move_100_100 [] (snapshot after_move_100_100)
              eq_refl joined_move_100_100)
    as (s3 & g3 & new & H1 & _ & _ & H4 & H5 & _).
  exists s3, g3, new. split; [exact H1|]. split; [exact H4 | exact H5].
Defined.

(** C7. The chat log never holds more than 20 entries: every step of the
    server (connect entry, disconnect entry, chat intent and all others)
    keeps it capped; an append to a full log drops the oldest entry and
    keeps the others in order; after 25 messages in a row the log is
    exactly the last 20 of them, in the order they were sent; and the log
    is capped in every state the server reaches from its start. *)
Theorem chat_log_keeps_last_20 (s : Server) :
  chat_capped s ->
  (forall e g s' g', step e s g = Some (s', g') -> chat_capped s')
  /\ (forall m,
        chat_capped (_add_chat_message m s)
        /\ msg_history (_add_chat_message m s)
           = if (List.length (msg_history s) <? 20)%nat
             then msg_history s ++ [m]
             else tl (msg_history s) ++ [m])
  /\ (forall msgs, List.length msgs = 25%nat ->
        msg_history (fold_left (fun st m => _add_chat_message m st) msgs s)
        = skipn 5 msgs)
  /\ (forall g0 s0 g1 es s1 g2,
        startup g0 = Some (s0, g1) -> run es s0 g1 = Some (s1, g2) ->
        chat_capped s1).
Proof.
  intros Hc. split; [|split; [|split]].
  4:{ intros g0 s0 g1 es s1 g2 H0 Hr.
      apply (run_stable chat_capped es s0 g1 s1 g2); [|exact Hr].
      apply (startup_stable chat_capped g0 s0 g1); [|exact H0].
      unfold chat_capped. simpl. lia. }
  - intros e g s' g' Hs. exact (step_stable chat_capped e s g s' g' Hc Hs).
  - intros m. split; [apply add_chat_capped; exact Hc|].
    rewrite add_chat_history by exact Hc. unfold chat_capped in Hc.
    rewrite length_app. cbn [List.length].
    destruct (Nat.ltb_spec (List.length (msg_history s)) 20) as [Hlt|Hge].
    + replace (List.length (msg_history s) + 1 - 20)%nat with 0%nat by lia.
      reflexivity.
    + replace (List.length (msg_history s) + 1 - 20)%nat with 1%nat by lia.
      destruct (msg_history s) as [|a t]; [simpl in Hge; lia | reflexivity].
  - intros msgs Hl. rewrite add_chat_many by exact Hc. unfold chat_capped in Hc.
    rewrite length_app, Hl, skipn_app.
    rewrite skipn_all2 by lia. cbn [app]. f_equal. lia.
Qed.

Lemma chat_log_keeps_last_20_witness :
  (forall e g s' g', step e init g = Some (s', g') -> chat_capped s')
  /\ (forall m,
        chat_capped (_add_chat_message m init)
        /\ msg_history (_add_chat_message m init)
           = if (List.length (msg_history init) <? 20)%nat
             then msg_history init ++ [m]
             else tl (msg_history init) ++ [m])
  /\ (forall msgs, List.length msgs = 25%nat ->
        msg_history (fold_left (fun st m => _add_chat_message m st) msgs init)
        = skipn 5 msgs)
  /\ (forall g0 s0 g1 es s1 g2,
        startup g0 = Some (s0, g1) -> run es s0 g1 = Some (s1, g2) ->
        chat_capped s1).
Proof.
  apply (chat_log_keeps_last_20 init). unfold chat_capped. simpl. lia.
Defined.

(** C8. The code does not keep the round off: the accept loop starts the
    clock whenever [game_started] is false (lines 67-69), which is also
    the case after the round has expired. In the duel, Ann's move at
    second 300 ends the round and Bob is not eaten; a connection accepted
    at second 301 sets the start time anew and the round on; Ann's move
    at second 302 runs the resolver, and Bob is eaten. *)
Theorem round_restarts_on_late_connection :
  run [Command 0 300 "move 100 100"] duel [700; 600]
  = Some (duel_expired, [700; 600])
  /\ game_started duel = true /\ start_time duel = 0%R
  /\ game_started duel_expired = false
  /\ players duel_expired = [(0, ann 100 100 20); (1, bob 105 100 10)]
  /\ run [Accept 301; Command 0 302 "move 100 100"] duel_expired [700; 600]
     = Some (duel_again, [])
  /\ game_started duel_again = true /\ start_time duel_again = 301%R
  /\ lookup 0 (players duel_again)
     = Some (ann 100 100 (sqrt (20 ^ 2 + 10 ^ 2)))
  /\ lookup 1 (players duel_again) = Some (bob 700 600 0).
Proof.
  split.
  { cbn [run step]. rewrite duel_expires. reflexivity. }
  split; [reflexivity|]. split; [reflexivity|]. split; [reflexivity|].
  split; [reflexivity|]. split.
  { cbn [run step]. rewrite duel_accepts. cbn [fst].
    rewrite duel_eats_again. reflexivity. }
  split; [reflexivity|]. split; [reflexivity|]. split; reflexivity.
Qed.

(** C9. Every operation that writes a score leaves all scores
    non-negative: a whole step of the server (handshake, move, chat,
    disconnect, accept), and inside a step the mass loss of the clock
    (floor(score * 0.95) above 8), the collision resolver (0.5 per ball,
    the square-root merge, the reset of the eaten player to 0) and the
    handshake, which inserts the new player with score 0. Hence no score
    is negative in any state the server reaches from its start. *)
Theorem scores_stay_nonneg (s : Server) :
  scores_nonneg (players s) ->
  (forall e g s' g', step e s g = Some (s', g') -> scores_nonneg (players s'))
  /\ (forall now, scores_nonneg (players (_update_game_state now s)))
  /\ (forall current_id g s' g',
        _check_collisions current_id s g = Ok (s', g') ->
        scores_nonneg (players s'))
  /\ (forall current_id username g s' g',
        handshake current_id username s g = Ok (s', g') ->
        scores_nonneg (players s')
        /\ exists p, lookup current_id (players s') = Some p
                     /\ pl_score p = 0%R)
  /\ (forall g0 s0 g1 es s1 g2,
        startup g0 = Some (s0, g1) -> run es s0 g1 = Some (s1, g2) ->
        scores_nonneg (players s1)).
Proof.
  intros Hs. split; [|split; [|split; [|split]]].
  5:{ intros g0 s0 g1 es s1 g2 H0 Hr.
      apply (run_stable (fun st => scores_nonneg (players st))
               es s0 g1 s1 g2); [|exact Hr].
      apply (startup_stable (fun st => scores_nonneg (players st)) g0 s0 g1);
        [|exact H0].
      constructor. }
  - intros e g s' g' Hstep.
    exact (step_stable (fun st => scores_nonneg (players st)) e s g s' g' Hs Hstep).
  - intros now. apply (stable_clock (P := fun st => scores_nonneg (players st))).
    exact Hs.
  - intros current_id g s' g' Hc.
    pose proof (check_collisions_tame current_id s g) as Ht.
    rewrite Hc in Ht. destruct Ht as (_ & _ & Ht). exact (Ht Hs).
  - intros current_id username g s' g' Hh.
    pose proof (handshake_stable (fun st => scores_nonneg (players st))
                  current_id username s g Hs) as He.
    rewrite Hh in He. split; [exact He|].
    unfold handshake in Hh.
    destruct (_get_start_location _ g) as [[start_pos g1]|];
      cbn [drawn bind] in Hh; [|discriminate].
    injection Hh as <- <-. cbn [players set_players].
    rewrite lookup_setitem_same. eexists. split; [reflexivity|]. reflexivity.
Qed.

Lemma scores_stay_nonneg_witness :
  scores_nonneg (players duel)
  /\ scores_nonneg (players (_update_game_state 5 duel)).
Proof.
  assert (Hs : scores_nonneg (players duel)).
  { cbn [players duel]. constructor; [simpl; lra|].
    constructor; [simpl; lra | constructor]. }
  split; [exact Hs|].
  exact (proj1 (proj2 (scores_stay_nonneg duel Hs)) 5%R).
Defined.

(** C10. A command that starts with neither "move" nor "msg" does not end
    the session: the step replies, and its only effect is the clock
    update of the intent. Balls and chat log are as before, the keys of
    the players too, each player's record is as before or, when a mass
    loss is due, its mass-loss image, which keeps position, colour and
    name; the reply is the full snapshot of that state. *)
Theorem unknown_command_only_runs_clock (current_id : Z) (now : R)
    (command : string) (s : Server) (g : Rng) :
  Py.startswith command "move" = false ->
  Py.startswith command "msg" = false ->
  let s1 := _update_game_state now s in
  handle_command current_id now command s g
  = Ok (s1, g, (balls s1, players s1, game_time s1, msg_history s1))
  /\ step (Command current_id now command) s g = Some (s1, g)
  /\ balls s1 = balls s
  /\ msg_history s1 = msg_history s
  /\ keys (players s1) = keys (players s)
  /\ (forall k, lookup k (players s1)
                = if mass_loss_due now s
                  then option_map mass_loss (lookup k (players s))
                  else lookup k (players s))
  /\ (forall p, pl_x (mass_loss p) = pl_x p /\ pl_y (mass_loss p) = pl_y p
                /\ pl_color (mass_loss p) = pl_color p
                /\ pl_name (mass_loss p) = pl_name p)
  /\ (forall p, (pl_score p <= 8)%R -> mass_loss p = p).
Proof.
  intros E1 E2 s1.
  pose proof (handle_command_other current_id now command s g E1 E2) as Hc.
  fold s1 in Hc. split; [exact Hc|].
  split; [cbn [step]; rewrite Hc; reflexivity|].
  destruct (update_game_state_frame now s) as (Hb & Hm & _).
  split; [exact Hb|]. split; [exact Hm|].
  subst s1. rewrite update_game_state_players.
  split; [destruct (mass_loss_due now s);
          [apply keys_all_mass_loss | reflexivity]|].
  split; [intros k; destruct (mass_loss_due now s);
          [apply lookup_all_mass_loss | reflexivity]|].
  split; [exact mass_loss_keeps|].
  intros p Hp. unfold mass_loss.
  rewrite (proj2 (Rltb_false 8 (pl_score p))) by exact Hp. reflexivity.
Qed.

Lemma unknown_command_only_runs_clock_witness :
  Py.startswith "ping" "move" = false /\ Py.startswith "ping" "msg" = false
  /\ step (Command 0 5 "ping") duel [] = Some (_update_game_state 5 duel, []).
Proof.
  split; [reflexivity|]. split; [reflexivity|].
  exact (proj1 (proj2 (unknown_command_only_runs_clock
                         0 5 "ping" duel [] eq_refl eq_refl))).
Defined.

End GameServerFacts.

(** * Further properties of the server *)

Module GameServerExtras.

Import GameServer GameServerProps Scenarios GameServerMoreProps GameServerFacts.

(** ** Sessions: identifiers, registration and removal *)

#[local] Instance counter_floor_stable (k : Z) :
  Stable (fun s => k <= player_id_counter s).
Proof.
  split.
  - intros s s' ((_ & _ & _ & _ & _ & Hc) & _) Hk. rewrite Hc. exact Hk.
  - intros now s Hk.
    destruct (update_game_state_frame now s) as (_ & _ & _ & ->). exact Hk.
  - intros m s Hk. exact Hk.
  - intros k0 s Hk. exact Hk.
  - intros k0 x y c n s Hk. exact Hk.
  - intros now s Hk. unfold accept. destruct (game_started s); cbn; lia.
Qed.

Lemma accept_id (now : R) (s : Server) :
  snd (accept now s) = player_id_counter s
  /\ player_id_counter (fst (accept now s)) = player_id_counter s + 1.
Proof. unfold accept. destruct (game_started s); cbn; auto. Qed.

(** X1. The accept loop hands out the value of the counter and
    increments it, and no step ever lowers the counter: whatever
    happens between two connections, the later one gets a strictly
    larger identifier, so no identifier is handed out twice. *)
Theorem accept_ids_increase (now : R) (s : Server) (es : list event) (g : Rng)
    (s' : Server) (g' : Rng) (now' : R) :
  run es (fst (accept now s)) g = Some (s', g') ->
  snd (accept now s) = player_id_counter s
  /\ snd (accept now s) < snd (accept now' s').
Proof.
  intros Hrun.
  destruct (accept_id now s) as (Hid & Hc).
  destruct (accept_id now' s') as (Hid' & _).
  split; [exact Hid|]. rewrite Hid, Hid'.
  assert (Hk : player_id_counter s + 1 <= player_id_counter s').
  { apply (run_stable (fun s0 => player_id_counter s + 1 <= player_id_counter s0)
             es (fst (accept now s)) g s' g'); [rewrite Hc; lia | exact Hrun]. }
  lia.
Qed.

Lemma accept_ids_increase_witness :
  snd (accept 0 init) = 0 /\ snd (accept 0 init) < snd (accept 7 (fst (accept 0 init))).
Proof.
  destruct (accept_ids_increase 0 init [] [] (fst (accept 0 init)) [] 7 eq_refl)
    as (H1 & H2).
  split; [exact H1 | exact H2].
Defined.

Lemma setitem_fresh (k : Z) (p : Player) (d : Players) :
  ~ In k (keys d) -> setitem k p d = d ++ [(k, p)].
Proof.
  induction d as [|[k' p'] d IH]; cbn; intros Hn; [reflexivity|].
  destruct (Z.eqb_spec k' k) as [->|Hne]; [exfalso; apply Hn; now left|].
  rewrite IH; [reflexivity|]. intros Hin. apply Hn. now right.
Qed.

Lemma color_at_in (i : Z) : In (color_at i) COLORS.
Proof.
  unfold color_at. apply nth_In.
  assert (0 <= i mod Z.of_nat (List.length COLORS) < Z.of_nat (List.length COLORS))
    by (apply Z.mod_pos_bound; cbn; lia).
  lia.
Qed.

Lemma delitem_last (k : Z) (p : Player) (d : Players) :
  ~ In k (keys d) -> delitem k (d ++ [(k, p)]) = d.
Proof.
  induction d as [|[k' p'] d IH]; cbn; intros Hn.
  - now rewrite Z.eqb_refl.
  - destruct (Z.eqb_spec k' k) as [->|Hne]; [exfalso; apply Hn; now left|].
    rewrite IH; [reflexivity|]. intros Hin. apply Hn. now right.
Qed.

Lemma lookup_last (k : Z) (p : Player) (d : Players) :
  ~ In k (keys d) -> lookup k (d ++ [(k, p)]) = Some p.
Proof.
  induction d as [|[k' p'] d IH]; cbn; intros Hn.
  - now rewrite Z.eqb_refl.
  - destruct (Z.eqb_spec k' k) as [->|Hne]; [exfalso; apply Hn; now left|].
    apply IH. intros Hin. apply Hn. now right.
Qed.

Lemma lookup_delitem_same (k : Z) (d : Players) :
  NoDup (keys d) -> lookup k (delitem k d) = None.
Proof.
  induction d as [|[k' p'] d IH]; cbn; intros Hnd; [reflexivity|].
  apply NoDup_cons_iff in Hnd. destruct Hnd as (Hn & Hnd).
  destruct (Z.eqb_spec k' k) as [->|Hne].
  - apply lookup_not_in_keys. exact Hn.
  - cbn. destruct (Z.eqb_spec k' k) as [E|_]; [contradiction|]. apply IH, Hnd.
Qed.

Lemma lookup_delitem_other (k k' : Z) (d : Players) :
  k <> k' -> lookup k (delitem k' d) = lookup k d.
Proof.
  intros Hne. induction d as [|[k0 p0] d IH]; cbn; [reflexivity|].
  destruct (Z.eqb_spec k0 k') as [->|Hne'].
  - destruct (Z.eqb_spec k' k) as [E|_]; [congruence | reflexivity].
  - cbn. rewrite IH. reflexivity.
Qed.

Lemma cleanup_absent (current_id : Z) (s : Server) :
  lookup current_id (players s) = None -> cleanup current_id s = s.
Proof. intros H. unfold cleanup. now rewrite H. Qed.

(** X2. The handshake of an identifier that is not registered puts the
    new player last in the dictionary, so last in every later
    iteration, and leaves the records and the order of the others as
    they are. The new record has score 0, the given name, the palette
    colour its identifier selects and a location of the world that is
    safe with respect to the players present; the food is untouched and
    the log gets the CONNECTED entry. *)
Theorem handshake_registers_last (current_id : Z) (username : string)
    (s : Server) (g : Rng) (s' : Server) (g' : Rng) :
  ~ In current_id (keys (players s)) ->
  handshake current_id username s g = Ok (s', g') ->
  exists x y,
    players s'
    = players s ++ [(current_id, mkPlayer x y (color_at current_id) 0 username)]
    /\ 0 <= x < W /\ 0 <= y < H
    /\ is_safe_location x y (players s) = true
    /\ In (color_at current_id) COLORS
    /\ balls s' = balls s
    /\ msg_history s'
       = msg_history (_add_chat_message (username ++ " CONNECTED")%string s).
Proof.
  intros Hn Hh. unfold handshake in Hh.
  change (players (_add_chat_message (username ++ " CONNECTED")%string s))
    with (players s) in Hh.
  destruct (_get_start_location (players s) g) as [[[x y] g1]|] eqn:El;
    cbn [drawn bind] in Hh; [|discriminate].
  injection Hh as <- <-.
  destruct (get_start_location_spec _ _ _ _ _ El) as (Hx & Hy & Hsafe).
  exists x, y. cbn [players set_players balls msg_history fst snd].
  rewrite (setitem_fresh _ _ _ Hn).
  repeat split; try tauto; try (apply color_at_in).
Qed.

Lemma handshake_registers_last_witness :
  ~ In 0 (keys (players init))
  /\ exists x y s',
       handshake 0 "ann" init [5; 5] = Ok (s', [])
       /\ players s' = [(0, mkPlayer x y (color_at 0) 0 "ann")].
Proof.
  assert (Hn : ~ In 0 (keys (players init))) by (cbn; tauto).
  split; [exact Hn|].
  destruct (handshake_registers_last 0 "ann" init [5; 5] _ [] Hn eq_refl)
    as (x & y & Hp & _).
  exists x, y. eexists. split; [reflexivity | exact Hp].
Defined.

(** X3. The cleanup of a registered player removes exactly its record:
    the identifier is no longer registered, every other player is
    stored as before, the food is untouched and the log gets the
    DISCONNECTED entry with the name the record had. A second cleanup
    of the same identifier changes nothing. *)
Theorem cleanup_removes_player (current_id : Z) (s : Server) (p : Player) :
  NoDup (keys (players s)) ->
  lookup current_id (players s) = Some p ->
  let s' := cleanup current_id s in
  lookup current_id (players s') = None
  /\ (forall k, k <> current_id -> lookup k (players s') = lookup k (players s))
  /\ balls s' = balls s
  /\ msg_history s'
     = msg_history (_add_chat_message (pl_name p ++ " DISCONNECTED")%string s)
  /\ cleanup current_id s' = s'.
Proof.
  intros Hnd Hl s'.
  assert (Hp : players s' = delitem current_id (players s)).
  { unfold s', cleanup. rewrite Hl. reflexivity. }
  assert (Hgone : lookup current_id (players s') = None).
  { rewrite Hp. apply lookup_delitem_same, Hnd. }
  split; [exact Hgone|]. split.
  { intros k Hk. rewrite Hp. apply lookup_delitem_other, Hk. }
  split; [unfold s', cleanup; rewrite Hl; reflexivity|].
  split; [unfold s', cleanup; rewrite Hl; reflexivity|].
  apply cleanup_absent, Hgone.
Qed.

Lemma cleanup_removes_player_witness :
  NoDup (keys (players duel))
  /\ lookup 1 (players (cleanup 1 duel)) = None
  /\ lookup 0 (players (cleanup 1 duel)) = lookup 0 (players duel).
Proof.
  assert (Hnd : NoDup (keys (players duel))).
  { cbn. repeat constructor; cbn; intuition discriminate. }
  split; [exact Hnd|].
  destruct (cleanup_removes_player 1 duel (bob 105 100 10) Hnd eq_refl)
    as (H1 & H2 & _).
  split; [exact H1 | apply H2; discriminate].
Defined.

(** X4. Registration followed by removal is a round trip on the
    dictionary: a player that joins under a fresh identifier and then
    leaves, leaves the dictionary and the food exactly as they were
    before it joined. Only the log keeps a trace, its CONNECTED and
    DISCONNECTED entries. *)
Theorem join_then_leave (current_id : Z) (username : string)
    (s : Server) (g : Rng) (s' : Server) (g' : Rng) :
  ~ In current_id (keys (players s)) ->
  handshake current_id username s g = Ok (s', g') ->
  players (cleanup current_id s') = players s
  /\ balls (cleanup current_id s') = balls s
  /\ msg_history (cleanup current_id s')
     = msg_history
         (_add_chat_message (username ++ " DISCONNECTED")%string
            (_add_chat_message (username ++ " CONNECTED")%string s)).
Proof.
  intros Hn Hh. unfold handshake in Hh.
  change (players (_add_chat_message (username ++ " CONNECTED")%string s))
    with (players s) in Hh.
  destruct (_get_start_location (players s) g) as [[[x y] g1]|];
    cbn [drawn bind] in Hh; [|discriminate].
  injection Hh as <- <-.
  unfold cleanup. cbn [players set_players fst snd].
  rewrite lookup_setitem_same.
  cbn [players set_players _add_chat_message set_msg_history pl_name balls
       msg_history].
  rewrite (setitem_fresh _ _ _ Hn), (delitem_last _ _ _ Hn).
  repeat split.
Qed.

Lemma join_then_leave_witness :
  ~ In 0 (keys (players init))
  /\ exists s', handshake 0 "ann" init [5; 5] = Ok (s', [])
                /\ players (cleanup 0 s') = players init.
Proof.
  assert (Hn : ~ In 0 (keys (players init))) by (cbn; tauto).
  split; [exact Hn|].
  destruct (join_then_leave 0 "ann" init [5; 5] _ [] Hn eq_refl) as (Hp & _).
  eexists. split; [reflexivity | exact Hp].
Defined.

(** ** Commands the server cannot serve *)

Lemma lookup_clock (current_id : Z) (now : R) (s : Server) :
  lookup current_id (players (_update_game_state now s))
  = if mass_loss_due now s
    then option_map mass_loss (lookup current_id (players s))
    else lookup current_id (players s).
Proof.
  rewrite update_game_state_players.
  destruct (mass_loss_due now s); [apply lookup_all_mass_loss | reflexivity].
Qed.

Lemma lookup_clock_none (current_id : Z) (now : R) (s : Server) :
  lookup current_id (players s) = None ->
  lookup current_id (players (_update_game_state now s)) = None.
Proof.
  intros H. rewrite lookup_clock, H. now destruct (mass_loss_due now s).
Qed.

(** X5. A command that arrives under an identifier that is not
    registered has no effect beyond the clock, whatever it says: a
    move or a chat line fails on the missing record, the cleanup finds
    nothing to remove, and the state is the one the clock update left. *)
Theorem command_from_unregistered_id (current_id : Z) (now : R)
    (command : string) (s : Server) (g : Rng) :
  lookup current_id (players s) = None ->
  step (Command current_id now command) s g
  = Some (_update_game_state now s, g).
Proof.
  intros Hl. pose proof (lookup_clock_none current_id now s Hl) as H1.
  pose proof (cleanup_absent current_id _ H1) as Hc.
  unfold step, handle_command.
  destruct (Py.startswith command "move").
  - unfold handle_move, move_player.
    destruct (Py.split command) as [|t0 [|x [|y [|? ?]]]]; cbn [bind];
      try (rewrite Hc; reflexivity).
    unfold to_int. destruct (Py.int x); cbn [bind]; [|rewrite Hc; reflexivity].
    unfold assign. rewrite H1. cbn [bind]. rewrite Hc. reflexivity.
  - destruct (Py.startswith command "msg"); [|reflexivity].
    unfold handle_msg. rewrite H1. cbn [bind]. rewrite Hc. reflexivity.
Qed.

Lemma command_from_unregistered_id_witness :
  lookup 7 (players duel) = None
  /\ step (Command 7 5 "move 1 2") duel [] = Some (_update_game_state 5 duel, []).
Proof.
  split; [reflexivity|].
  apply (command_from_unregistered_id 7 5 "move 1 2" duel []). reflexivity.
Defined.

Lemma delitem_update (k : Z) (f : Player -> Player) (d : Players) :
  delitem k (update k f d) = delitem k d.
Proof.
  induction d as [|[k' p'] d IH]; cbn; [reflexivity|].
  destruct (Z.eqb_spec k' k) as [->|Hne]; cbn.
  - now rewrite Z.eqb_refl.
  - destruct (Z.eqb_spec k' k) as [E|_]; [contradiction|]. now rewrite IH.
Qed.

Lemma cleanup_after_assign (current_id : Z) (f : Player -> Player) (s : Server)
    (p : Player) :
  (forall q, pl_name (f q) = pl_name q) ->
  lookup current_id (players s) = Some p ->
  cleanup current_id (set_players (update current_id f (players s)) s)
  = cleanup current_id s.
Proof.
  intros Hf Hl. unfold cleanup. cbn [players set_players].
  rewrite lookup_update_same, Hl. cbn [option_map]. rewrite Hf.
  unfold _add_chat_message, set_msg_history, set_players. cbn.
  rewrite delitem_update. reflexivity.
Qed.

(** X6. A command that starts with [move] but cannot be read, because
    it has not exactly three fields or because one of the last two is
    no integer, ends the session: the exception leaves the main loop,
    the cleanup removes the player, and the state is the one the clock
    update left, without that player. No such command moves anyone. *)
Theorem malformed_move_ends_session (current_id : Z) (now : R)
    (command : string) (s : Server) (g : Rng) :
  Py.startswith command "move" = true ->
  ~ readable_move command ->
  step (Command current_id now command) s g
  = Some (cleanup current_id (_update_game_state now s), g).
Proof.
  intros Hm Hbad. unfold step. rewrite (handle_command_move _ _ _ _ _ Hm).
  set (s1 := _update_game_state now s).
  unfold move_player.
  destruct (Py.split command) as [|t0 [|x [|y [|? ?]]]] eqn:Es; cbn [bind];
    try reflexivity.
  unfold to_int. destruct (Py.int x) as [xv|] eqn:Ex; cbn [bind]; [|reflexivity].
  destruct (lookup current_id (players s1)) as [p|] eqn:El.
  2:{ assert (Ha : assign current_id (set_x xv) s1 g = Raise KeyError s1 g)
        by (unfold assign; rewrite El; reflexivity).
      rewrite Ha. reflexivity. }
  assert (Ha : assign current_id (set_x xv) s1 g
               = Ok (set_players (update current_id (set_x xv) (players s1)) s1))
    by (unfold assign; rewrite El; reflexivity).
  rewrite Ha. cbn [bind].
  destruct (Py.int y) as [yv|] eqn:Ey; cbn [bind].
  - exfalso. apply Hbad. exists t0, x, y, xv, yv. auto.
  - rewrite (cleanup_after_assign current_id (set_x xv) s1 p (fun _ => eq_refl) El).
    reflexivity.
Qed.

Lemma malformed_move_ends_session_witness :
  Py.startswith "move 1" "move" = true
  /\ ~ readable_move "move 1"
  /\ step (Command 1 5 "move 1") duel []
     = Some (cleanup 1 (_update_game_state 5 duel), []).
Proof.
  assert (Hbad : ~ readable_move "move 1").
  { intros (t & x & y & xv & yv & Hs & _). vm_compute in Hs. discriminate. }
  split; [reflexivity|]. split; [exact Hbad|].
  apply (malformed_move_ends_session 1 5 "move 1" duel [] eq_refl Hbad).
Defined.

(** ** Chat lines and the log *)

Lemma msg_is_no_move (command : string) :
  Py.startswith command "msg" = true -> Py.startswith command "move" = false.
Proof.
  unfold Py.startswith.
  destruct command as [|a [|b c]]; cbn [prefix]; intros H; try discriminate H.
  - destruct (ascii_dec "m" a); discriminate H.
  - destruct (ascii_dec "m" a); [|reflexivity].
    destruct (ascii_dec "s" b) as [E|E]; [|discriminate H].
    destruct (ascii_dec "o" b); [congruence | reflexivity].
Qed.

Lemma clock_keeps_name (current_id : Z) (now : R) (s : Server) (p : Player) :
  lookup current_id (players s) = Some p ->
  exists p1, lookup current_id (players (_update_game_state now s)) = Some p1
             /\ pl_name p1 = pl_name p.
Proof.
  intros Hl. rewrite lookup_clock, Hl.
  destruct (mass_loss_due now s); cbn [option_map]; eexists; split;
    try reflexivity.
  apply mass_loss_keeps.
Qed.

(** X7. A command that starts with [msg], sent by a registered player,
    always succeeds. After the clock update it appends one entry to the
    log, the name of the player, a colon and a space, and the command
    without its first four characters, whatever the fourth is. It
    changes no player and no food. *)
Theorem chat_intent_logs_line (current_id : Z) (now : R) (command : string)
    (s : Server) (g : Rng) (p : Player) :
  Py.startswith command "msg" = true ->
  lookup current_id (players s) = Some p ->
  let s1 := _update_game_state now s in
  let s2 := _add_chat_message (pl_name p ++ ": " ++ Py.drop 4 command)%string s1 in
  handle_command current_id now command s g = Ok (s2, g, snapshot s2)
  /\ players s2 = players s1
  /\ balls s2 = balls s.
Proof.
  intros Hm Hl s1 s2.
  destruct (clock_keeps_name current_id now s p Hl) as (p1 & Hl1 & Hn).
  split; [|split].
  - unfold s2, s1, handle_command. rewrite (msg_is_no_move _ Hm), Hm.
    unfold handle_msg. rewrite Hl1, Hn. reflexivity.
  - reflexivity.
  - unfold s2, s1. cbn [_add_chat_message balls set_msg_history].
    apply update_game_state_frame.
Qed.

Lemma chat_intent_logs_line_witness :
  Py.startswith "msghello" "msg" = true
  /\ lookup 1 (players duel) = Some (bob 105 100 10)
  /\ exists s2, handle_command 1 5 "msghello" duel [] = Ok (s2, [], snapshot s2)
                /\ msg_history s2 = msg_history duel ++ ["bob: ello"].
Proof.
  split; [reflexivity|]. split; [reflexivity|].
  destruct (chat_intent_logs_line 1 5 "msghello" duel [] (bob 105 100 10)
              eq_refl eq_refl) as (Hc & _).
  eexists. split; [exact Hc|].
  cbn [_add_chat_message set_msg_history msg_history].
  destruct (update_game_state_frame 5 duel) as (_ & -> & _). reflexivity.
Defined.

Lemma add_chat_shape (m : string) (s0 s : Server) :
  msg_history s0 = msg_history s ->
  msg_history (_add_chat_message m s0)
  = if (List.length (msg_history s) <? 20)%nat
    then msg_history s ++ [m]
    else tl (msg_history s ++ [m]).
Proof.
  intros H. unfold _add_chat_message. cbn [msg_history set_msg_history].
  rewrite H, length_app. cbn [List.length].
  destruct (Nat.ltb_spec (List.length (msg_history s)) 20);
    destruct (Z.ltb_spec 20 (Z.of_nat (List.length (msg_history s) + 1)));
    try lia; reflexivity.
Qed.

Lemma cleanup_log (current_id : Z) (s0 s : Server) :
  msg_history s0 = msg_history s ->
  msg_history (cleanup current_id s0) = msg_history s
  \/ exists m, msg_history (cleanup current_id s0)
               = if (List.length (msg_history s) <? 20)%nat
                 then msg_history s ++ [m]
                 else tl (msg_history s ++ [m]).
Proof.
  intros H. unfold cleanup.
  destruct (lookup current_id (players s0)) as [p|]; [right|left; exact H].
  exists (pl_name p ++ " DISCONNECTED")%string.
  cbn [msg_history set_players]. apply add_chat_shape, H.
Qed.

(** X8. The log is append-only and grows by at most one entry per step.
    After any step it is the log of before, or that log with one entry
    added at the end; the oldest entry is dropped exactly when the log
    of before already held 20 entries or more, and never otherwise. No
    step rewrites, reorders or inserts entries. *)
Theorem step_logs_at_most_one_entry (e : event) (s : Server) (g : Rng)
    (s' : Server) (g' : Rng) :
  step e s g = Some (s', g') ->
  msg_history s' = msg_history s
  \/ exists m, msg_history s'
               = if (List.length (msg_history s) <? 20)%nat
                 then msg_history s ++ [m]
                 else tl (msg_history s ++ [m]).
Proof.
  destruct e as [now|current_id username|current_id now command|current_id];
    cbn [step]; intros Hs.
  - injection Hs as <- <-. left. unfold accept.
    destruct (game_started s); reflexivity.
  - unfold handshake in Hs.
    destruct (_get_start_location
                (players (_add_chat_message (username ++ " CONNECTED")%string s)) g)
      as [[[x y] g1]|]; cbn [drawn bind] in Hs; [|discriminate].
    injection Hs as <- <-. right. exists (username ++ " CONNECTED")%string.
    cbn [msg_history set_players]. apply add_chat_shape. reflexivity.
  - unfold handle_command in Hs.
    set (s1 := _update_game_state now s) in Hs.
    assert (H1 : msg_history s1 = msg_history s)
      by apply update_game_state_frame.
    destruct (Py.startswith command "move").
    + pose proof (handle_move_tame current_id command s1 g) as Ht.
      destruct (handle_move current_id command s1 g) as [[s2 g2]|ex s2 g2|];
        cbn [bind ends fst] in *; [| |discriminate];
        destruct Ht as ((Hm & _) & _); injection Hs as <- <-.
      * left. congruence.
      * apply cleanup_log. congruence.
    + destruct (Py.startswith command "msg").
      * unfold handle_msg in Hs.
        destruct (lookup current_id (players s1)) as [p|]; cbn [bind] in Hs;
          injection Hs as <- <-.
        -- right. eexists. apply add_chat_shape, H1.
        -- apply cleanup_log, H1.
      * cbn [bind] in Hs. injection Hs as <- <-. left. exact H1.
  - injection Hs as <- <-. apply cleanup_log. reflexivity.
Qed.

Lemma step_logs_at_most_one_entry_witness :
  msg_history (cleanup 1 duel) = msg_history duel
  \/ exists m, msg_history (cleanup 1 duel)
               = if (List.length (msg_history duel) <? 20)%nat
                 then msg_history duel ++ [m]
                 else tl (msg_history duel ++ [m]).
Proof.
  apply (step_logs_at_most_one_entry (Disconnect 1) duel [] (cleanup 1 duel) []).
  reflexivity.
Defined.

Lemma split_aux_nonempty (s : string) :
  forall cur, cur <> EmptyString -> Py.split_aux cur s <> [].
Proof.
  induction s as [|c s IH]; intros cur Hc; cbn [Py.split_aux].
  - destruct cur; [contradiction | discriminate].
  - destruct (Py.isspace c).
    + destruct cur; [contradiction | discriminate].
    + apply IH. destruct cur; discriminate.
Qed.

Lemma split_move_nonempty (command : string) :
  Py.startswith command "move" = true -> Py.split command <> [].
Proof.
  unfold Py.startswith. destruct command as [|a c]; cbn [prefix]; intros H;
    [discriminate H|].
  destruct (ascii_dec "m" a) as [<-|]; [|discriminate H].
  unfold Py.split. cbn [Py.split_aux].
  change (Py.isspace "m") with false. cbv iota.
  apply split_aux_nonempty. discriminate.
Qed.

(** X9. Of a move command the server reads the fields after the first
    only: two commands that start with [move] and split into the same
    fields after the first have the same effect and get the same
    answer. What follows the prefix in the first field, and the amount
    of white space between the fields, are ignored. *)
Theorem move_reads_fields_only (current_id : Z) (now : R) (c1 c2 : string)
    (s : Server) (g : Rng) :
  Py.startswith c1 "move" = true ->
  Py.startswith c2 "move" = true ->
  tl (Py.split c1) = tl (Py.split c2) ->
  handle_command current_id now c1 s g = handle_command current_id now c2 s g.
Proof.
  intros H1 H2 Ht.
  rewrite (handle_command_move _ _ _ _ _ H1), (handle_command_move _ _ _ _ _ H2).
  assert (Hm : move_player current_id c1 (_update_game_state now s) g
               = move_player current_id c2 (_update_game_state now s) g).
  { unfold move_player.
    pose proof (split_move_nonempty c1 H1) as Hn1.
    pose proof (split_move_nonempty c2 H2) as Hn2.
    destruct (Py.split c1) as [|t1 l1]; [contradiction|].
    destruct (Py.split c2) as [|t2 l2]; [contradiction|].
    cbn [tl] in Ht. subst l2. reflexivity. }
  rewrite Hm. reflexivity.
Qed.

Lemma move_reads_fields_only_witness :
  handle_command 0 5 "move 100 100" duel [700; 600]
  = handle_command 0 5 "moved   100 100 " duel [700; 600].
Proof.
  apply (move_reads_fields_only 0 5 "move 100 100" "moved   100 100 " duel [700; 600]);
    reflexivity.
Defined.

(** ** Who can eat whom *)

(** X10. Eating is one-way: if a player can eat another whose score is
    not negative, then its own score is positive and larger, and the
    other cannot eat it back, wherever the two stand. In particular no
    player eats a player of the same score. *)
Theorem no_mutual_eating (px py qx qy : Z) (a b : Player) :
  (0 <= pl_score b)%R ->
  can_eat px py (pl_score a) b = true ->
  (0 < pl_score a)%R /\ (pl_score b < pl_score a)%R
  /\ can_eat qx qy (pl_score b) a = false.
Proof.
  intros Hb Hc. unfold can_eat in *.
  apply andb_true_iff in Hc. destruct Hc as (Hs & _).
  apply Rltb_true in Hs.
  split; [lra|]. split; [lra|].
  apply andb_false_iff. left. apply Rltb_false. lra.
Qed.

Lemma no_mutual_eating_witness :
  (0 <= pl_score (bob 105 100 10))%R
  /\ can_eat 105 100 (pl_score (bob 105 100 10)) (ann 100 100 20) = false.
Proof.
  assert (Hb : (0 <= pl_score (bob 105 100 10))%R) by (cbn; lra).
  assert (Hc : can_eat 100 100 (pl_score (ann 100 100 20)) (bob 105 100 10) = true).
  { apply can_eat_true; unfold START_RADIUS; simpl; lra. }
  split; [exact Hb|].
  apply (no_mutual_eating 100 100 105 100 (ann 100 100 20) (bob 105 100 10) Hb Hc).
Defined.





(** ** The size of a mass loss *)

(** X12. The mass loss never raises a score. Applied to a score above 8
    it gives a whole number that is smaller than the score, by at most
    a twentieth of it plus one, and that is at least 7: the loss alone
    never brings a player down to 0. *)
Theorem mass_loss_bounds (p : Player) :
  (pl_score (mass_loss p) <= pl_score p)%R
  /\ ((8 < pl_score p)%R ->
      (7 <= pl_score (mass_loss p) < pl_score p)%R
      /\ (pl_score p * (95 / 100) - 1 < pl_score (mass_loss p))%R
      /\ exists n, pl_score (mass_loss p) = IZR n).
Proof.
  unfold mass_loss.
  destruct (Py.Rltb 8 (pl_score p)) eqn:E.
  - apply Rltb_true in E. cbn [pl_score set_score]. unfold Py.floor.
    pose proof (Zfloor_bound (pl_score p * (95 / 100))) as (Hlo & Hhi).
    assert (H7 : 7 <= Zfloor (pl_score p * (95 / 100)))
      by (apply Zfloor_lub; lra).
    apply IZR_le in H7.
    split; [lra|]. intros _. repeat split; try lra. eexists. reflexivity.
  - apply Rltb_false in E. split; [lra | intros; lra].
Qed.

(** ** Placement *)

Lemma proposals_app (l1 l2 : list (Z * Z)) :
  proposals (l1 ++ l2) = proposals l1 ++ proposals l2.
Proof. unfold proposals. apply flat_map_app. Qed.

(** X13. The search for a start location is first-fit on the proposals
    of the random source: the proposals that are unsafe are skipped,
    two draws each, and the search goes on with what follows them. If
    the source holds unsafe proposals only, with or without a last odd
    draw, the search has not returned: it never settles for an unsafe
    location. *)
Theorem start_location_is_first_fit (d : Players) (rejected : list (Z * Z))
    (g : Rng) :
  Forall (fun xy => is_safe_location (randrange_of 0 W (fst xy))
                      (randrange_of 0 H (snd xy)) d = false) rejected ->
  _get_start_location d (proposals rejected ++ g) = _get_start_location d g
  /\ _get_start_location d (proposals rejected) = None
  /\ forall r, _get_start_location d (proposals rejected ++ [r]) = None.
Proof.
  intros Hr.
  assert (Hskip : forall g0, _get_start_location d (proposals rejected ++ g0)
                             = _get_start_location d g0).
  { intros g0. induction Hr as [|[rx ry] l Hu _ IH]; [reflexivity|].
    cbn [proposals flat_map fst snd app] in *.
    cbn [_get_start_location]. rewrite Hu. exact IH. }
  split; [apply Hskip|]. split.
  - rewrite <- (app_nil_r (proposals rejected)). rewrite Hskip. reflexivity.
  - intros r. rewrite Hskip. reflexivity.
Qed.

Lemma start_location_is_first_fit_witness :
  _get_start_location (players duel) (proposals [(100, 100); (105, 100)] ++ [700; 600])
  = _get_start_location (players duel) [700; 600].
Proof.
  assert (Hr : Forall (fun xy => is_safe_location (randrange_of 0 W (fst xy))
                                   (randrange_of 0 H (snd xy)) (players duel) = false)
                 [(100, 100); (105, 100)]).
  { constructor; [|constructor; [|constructor]]; cbn [fst snd].
    - change (randrange_of 0 W 100) with 100.
      change (randrange_of 0 H 100) with 100.
      cbn [is_safe_location players duel ann pl_x pl_y pl_score].
      replace (Py.Rleb (Py.hypot (100 - 100) (100 - 100)) (START_RADIUS + 20))
        with true; [reflexivity|].
      symmetry. apply Rleb_true. unfold START_RADIUS.
      apply hypot_le; [lra|]. simpl. lra.
    - change (randrange_of 0 W 105) with 105.
      change (randrange_of 0 H 100) with 100.
      cbn [is_safe_location players duel ann pl_x pl_y pl_score].
      replace (Py.Rleb (Py.hypot (105 - 100) (100 - 100)) (START_RADIUS + 20))
        with true; [reflexivity|].
      symmetry. apply Rleb_true. unfold START_RADIUS.
      apply hypot_le; [lra|]. simpl. lra. }
  apply (start_location_is_first_fit (players duel) [(100, 100); (105, 100)]
           [700; 600] Hr).
Defined.

Lemma set_balls_same (s : Server) : set_balls (balls s) s = s.
Proof. destruct s; reflexivity. Qed.

Lemma scattered_ok (n : nat) : forall g, Forall ball_ok (scattered n g).
Proof.
  induction n as [|n IH]; intros g; cbn [scattered]; [constructor|].
  destruct g as [|rx [|ry [|rc g]]]; try constructor; [|apply IH].
  unfold ball_ok. cbn [fst snd].
  split; [apply randrange_of_bounds; reflexivity|].
  split; [apply randrange_of_bounds; reflexivity | apply color_at_in].
Qed.

Lemma scattered_length (n : nat) :
  forall g, (3 * n <= List.length g)%nat -> List.length (scattered n g) = n.
Proof.
  induction n as [|n IH]; intros g Hg; cbn [scattered]; [reflexivity|].
  destruct g as [|rx [|ry [|rc g]]]; cbn [List.length] in *; try lia.
  rewrite IH; [reflexivity | lia].
Qed.

Lemma create_balls_no_players (n : nat) :
  forall (s : Server) (g : Rng),
  players s = [] ->
  _create_balls n s g
  = if (3 * n <=? List.length g)%nat
    then Some (set_balls (balls s ++ scattered n g) s, skipn (3 * n) g)
    else None.
Proof.
  induction n as [|n IH]; intros s g Hp.
  - cbn [_create_balls scattered Nat.mul Nat.leb skipn].
    rewrite app_nil_r, set_balls_same. reflexivity.
  - replace (3 * S n)%nat with (S (S (S (3 * n)))) by lia.
    cbn [_create_balls]. rewrite Hp.
    destruct g as [|rx [|ry [|rc g]]]; try reflexivity.
    cbn [_get_start_location is_safe_location choice_color scattered
         List.length Nat.leb skipn].
    rewrite IH by exact Hp.
    cbn [balls set_balls]. rewrite <- app_assoc.
    destruct (3 * n <=? List.length g)%nat; reflexivity.
Qed.

(** X14. Before anyone is registered every proposed location is
    accepted, so the start-up consumes exactly 600 draws, three per
    ball: it finishes exactly when the random source holds that many,
    and hands the rest on. The state is then the initial one with 200
    balls, the k-th ball made of the draws 3k, 3k+1 and 3k+2, each at
    integer coordinates of the world with a colour of the palette. *)
Theorem startup_takes_600_draws (g : Rng) :
  startup g
  = (if (600 <=? List.length g)%nat
     then Some (set_balls (scattered 200 g) init, skipn 600 g)
     else None)
  /\ Forall ball_ok (scattered 200 g)
  /\ ((600 <= List.length g)%nat -> List.length (scattered 200 g) = 200%nat).
Proof.
  split; [|split].
  - rewrite startup_eq.
    rewrite (create_balls_no_players 200 init g eq_refl).
    change (3 * 200)%nat with 600%nat.
    change (balls init ++ scattered 200 g) with (scattered 200 g).
    reflexivity.
  - apply scattered_ok.
  - intros Hg. apply scattered_length. lia.
Qed.

(** ** What no intent changes: identities, and the shape of the world *)

Lemma settled_refl (s : Server) : settled s s.
Proof. split; [reflexivity | intros b Hb; now left]. Qed.

Lemma settled_trans (s1 s2 s3 : Server) :
  settled s1 s2 -> settled s2 s3 -> settled s1 s3.
Proof.
  intros (Hi1 & Hb1) (Hi2 & Hb2). split; [congruence|].
  intros b Hb. destruct (Hb2 b Hb) as [H|H]; [apply Hb1, H | now right].
Qed.

Lemma ident_update (k : Z) (f : Player -> Player) (d : Players) :
  (forall p, pl_color (f p) = pl_color p /\ pl_name (f p) = pl_name p) ->
  ident (update k f d) = ident d.
Proof.
  intros Hf. induction d as [|[k' p'] d IH]; cbn; [reflexivity|].
  destruct (k' =? k); cbn.
  - destruct (Hf p') as (-> & ->). reflexivity.
  - fold (ident (update k f d)). fold (ident d). now rewrite IH.
Qed.

Lemma ident_all_mass_loss (d : Players) : ident (all_mass_loss d) = ident d.
Proof.
  unfold ident, all_mass_loss. rewrite map_map. apply map_ext.
  intros [k p]. cbn [fst snd].
  destruct (mass_loss_keeps p) as (_ & _ & -> & ->). reflexivity.
Qed.

Lemma settled_update (k : Z) (f : Player -> Player) (s : Server) :
  (forall p, pl_color (f p) = pl_color p /\ pl_name (f p) = pl_name p) ->
  settled s (set_players (update k f (players s)) s).
Proof.
  intros Hf. split; [apply ident_update, Hf | intros b Hb; now left].
Qed.

Lemma clock_settled (now : R) (s : Server) : settled s (_update_game_state now s).
Proof.
  split.
  - rewrite update_game_state_players.
    destruct (mass_loss_due now s); [apply ident_all_mass_loss | reflexivity].
  - intros b Hb. left.
    destruct (update_game_state_frame now s) as (Hbs & _). now rewrite <- Hbs.
Qed.

Lemma add_chat_settled (m : string) (s : Server) :
  settled s (_add_chat_message m s).
Proof. split; [reflexivity | intros b Hb; now left]. Qed.

Lemma list_remove_in {A} (eqb : A -> A -> bool) (v b : A) (l : list A) :
  In b (Py.list_remove eqb v l) -> In b l.
Proof.
  induction l as [|a l IH]; cbn; [tauto|].
  destruct (eqb a v); cbn; intuition.
Qed.

Lemma eat_balls_settled (current_id px py : Z) (p_score : R) (copy : list Ball) :
  forall s, settled s (eat_balls current_id px py p_score copy s).
Proof.
  induction copy as [|ball copy IH]; intros s; cbn [eat_balls];
    [apply settled_refl|].
  destruct (ball_in_reach px py p_score ball); [|apply IH].
  eapply settled_trans; [|apply IH].
  unfold eat_ball. split.
  - cbn [players set_balls set_players]. apply ident_update.
    intros p. split; reflexivity.
  - cbn [balls set_balls]. intros b Hb. left.
    eapply list_remove_in. exact Hb.
Qed.

Lemma eat_player_settled (current_id px py : Z) (p_score : R) (other_id : Z)
    (s : Server) (g : Rng) (s' : Server) (g' : Rng) :
  eat_player current_id px py p_score other_id s g = Some (s', g') ->
  settled s s'.
Proof.
  unfold eat_player. intros He.
  destruct (current_id =? other_id); [injection He as <- <-; apply settled_refl|].
  destruct (lookup other_id (players s)) as [o|];
    [|injection He as <- <-; apply settled_refl].
  destruct (can_eat px py p_score o); [|injection He as <- <-; apply settled_refl].
  destruct (_get_start_location _ g) as [[[nx ny] g1]|]; [|discriminate].
  injection He as <- <-.
  split; [|intros b Hb; now left].
  cbn [players set_players].
  rewrite !ident_update; try reflexivity; intros p; split; reflexivity.
Qed.

Lemma eat_players_settled (current_id px py : Z) (p_score : R) (ids : list Z) :
  forall s g s' g',
  eat_players current_id px py p_score ids s g = Some (s', g') -> settled s s'.
Proof.
  induction ids as [|k ids IH]; intros s g s' g' He; cbn [eat_players] in He.
  - injection He as <- <-. apply settled_refl.
  - destruct (eat_player current_id px py p_score k s g) as [[s1 g1]|] eqn:E1;
      [|discriminate].
    eapply settled_trans; [eapply eat_player_settled; exact E1|].
    eapply IH; exact He.
Qed.

Lemma check_collisions_settled (current_id : Z) (s : Server) (g : Rng) :
  ends fst (_check_collisions current_id s g) (settled s).
Proof.
  unfold _check_collisions.
  destruct (lookup current_id (players s)) as [player|]; [|apply settled_refl].
  cbv zeta.
  destruct (eat_players _ _ _ _ _ _ g) as [[s2 g2]|] eqn:E2;
    cbn [drawn ends fst]; [|exact I].
  eapply settled_trans; [apply eat_balls_settled|].
  eapply eat_players_settled; exact E2.
Qed.

Lemma assign_settled (current_id : Z) (f : Player -> Player) (s : Server) (g : Rng) :
  (forall p, pl_color (f p) = pl_color p /\ pl_name (f p) = pl_name p) ->
  ends (fun s' => s') (assign current_id f s g) (settled s).
Proof.
  intros Hf. unfold assign.
  destruct (lookup current_id (players s)) as [p0|]; cbn;
    [apply settled_update, Hf | apply settled_refl].
Qed.

Lemma move_player_settled (current_id : Z) (command : string) (s : Server)
    (g : Rng) :
  ends fst (move_player current_id command s g) (settled s).
Proof.
  unfold move_player.
  destruct (Py.split command) as [|t0 [|x [|y [|? ?]]]]; try apply settled_refl.
  unfold to_int.
  destruct (Py.int x) as [xv|]; cbn [bind]; [|apply settled_refl].
  pose proof (assign_settled current_id (set_x xv) s g
                (fun _ => conj eq_refl eq_refl)) as H1.
  destruct (assign current_id (set_x xv) s g) as [s1|e s1 g1|];
    cbn [bind ends] in *; [|exact H1|exact I].
  destruct (Py.int y) as [yv|]; cbn [bind]; [|exact H1].
  pose proof (assign_settled current_id (set_y yv) s1 g
                (fun _ => conj eq_refl eq_refl)) as H2.
  destruct (assign current_id (set_y yv) s1 g) as [s2|e s2 g2|];
    cbn [bind ends] in *; [|eapply settled_trans; eassumption|exact I].
  assert (H12 : settled s s2) by (eapply settled_trans; eassumption).
  assert (H3 : ends fst (if game_started s2 then _check_collisions current_id s2 g
                         else Ok (s2, g)) (settled s2)).
  { destruct (game_started s2);
      [apply check_collisions_settled | apply settled_refl]. }
  destruct (if game_started s2 then _check_collisions current_id s2 g
            else Ok (s2, g)) as [[s3 g3]|e s3 g3|]; cbn [bind ends fst] in *;
    [|eapply settled_trans; eassumption|exact I].
  eapply settled_trans; eassumption.
Qed.

Lemma create_balls_settled (n : nat) :
  forall (s : Server) (g : Rng) (s' : Server) (g' : Rng),
  _create_balls n s g = Some (s', g') -> settled s s'.
Proof.
  induction n as [|n IH]; intros s g s' g' Hc; cbn [_create_balls] in Hc.
  - injection Hc as <- <-. apply settled_refl.
  - destruct (_get_start_location (players s) g) as [[[x y] g1]|] eqn:El;
      [|discriminate].
    destruct (choice_color g1) as [[c g2]|] eqn:Ec; [|discriminate].
    eapply settled_trans; [|eapply IH; exact Hc].
    split; [reflexivity|]. cbn [balls set_balls]. intros b Hb.
    apply in_app_or in Hb. destruct Hb as [Hb|[<-|[]]]; [now left|right].
    destruct (get_start_location_spec _ _ _ _ _ El) as (Hx & Hy & _).
    unfold ball_ok. cbn [fst snd]. repeat split; try tauto.
    unfold choice_color in Ec. destruct g1 as [|r g1']; [discriminate|].
    injection Ec as <- _. apply color_at_in.
Qed.

Lemma replenish_settled (s : Server) (g : Rng) :
  ends fst (replenish s g) (settled s).
Proof.
  unfold replenish.
  destruct (Z.of_nat (List.length (balls s)) <? 150); [|apply settled_refl].
  destruct (randrange 50 100 g) as [[n g4]|]; cbn [drawn bind]; [|exact I].
  destruct (_create_balls (Z.to_nat n) s g4) as [[s5 g5]|] eqn:Ec; cbn; [|exact I].
  eapply create_balls_settled; exact Ec.
Qed.

Lemma handle_move_settled (current_id : Z) (command : string) (s : Server)
    (g : Rng) :
  ends fst (handle_move current_id command s g) (settled s).
Proof.
  unfold handle_move.
  pose proof (move_player_settled current_id command s g) as H1.
  destruct (move_player current_id command s g) as [[s3 g3]|e s3 g3|];
    cbn [bind ends fst] in *; [|exact H1|exact I].
  pose proof (replenish_settled s3 g3) as H2.
  destruct (replenish s3 g3) as [[s4 g4]|e s4 g4|]; cbn [ends fst] in *;
    [| |exact I]; eapply settled_trans; eassumption.
Qed.

Lemma handle_command_settled (current_id : Z) (now : R) (command : string)
    (s : Server) (g : Rng) :
  ends command_state (handle_command current_id now command s g) (settled s).
Proof.
  pose proof (clock_settled now s) as Hi.
  unfold handle_command. set (s1 := _update_game_state now s) in *.
  destruct (Py.startswith command "move").
  - pose proof (handle_move_settled current_id command s1 g) as Ht.
    destruct (handle_move current_id command s1 g) as [[s2 g2]|e s2 g2|];
      cbn in *; try exact I; eapply settled_trans; eassumption.
  - destruct (Py.startswith command "msg"); [|exact Hi].
    unfold handle_msg.
    destruct (lookup current_id (players s1)) as [player|]; cbn; [|exact Hi].
    eapply settled_trans; [exact Hi | apply add_chat_settled].
Qed.

(** X15. An intent that is served changes nobody's identity: whatever
    the command, the same identifiers are registered afterwards, in the
    same order, each with the colour and the name it had. Players are
    added and removed by the handshake and the cleanup only; eating
    resets a score and a position, never a name or a colour. *)
Theorem intent_keeps_identities (current_id : Z) (now : R) (command : string)
    (s : Server) (g : Rng) (s' : Server) (g' : Rng) (snap : Snapshot) :
  handle_command current_id now command s g = Ok (s', g', snap) ->
  ident (players s') = ident (players s).
Proof.
  intros Hc. pose proof (handle_command_settled current_id now command s g) as Hs.
  rewrite Hc in Hs. exact (proj1 Hs).
Qed.

Lemma intent_keeps_identities_witness :
  ident (players duel_won) = ident (players duel).
Proof.
  exact (intent_keeps_identities 0 5 "move 100 100" duel [700; 600] duel_won []
           (snapshot duel_won) (duel_move [])).
Defined.

Lemma colours_by_ident (d d' : Players) :
  ident d' = ident d -> colours_by_id d -> colours_by_id d'.
Proof.
  intros Hi Hc.
  assert (E : forall d0, colours_by_id d0
              <-> Forall (fun t : Z * Color * string =>
                            snd (fst t) = color_at (fst (fst t))) (ident d0)).
  { intros d0. unfold ident. rewrite Forall_map. reflexivity. }
  apply E. rewrite Hi. apply E. exact Hc.
Qed.

Lemma well_formed_settled (s s' : Server) :
  settled s s' -> well_formed s -> well_formed s'.
Proof.
  intros (Hi & Hb) (Hbs & Hc). split.
  - rewrite Forall_forall in *. intros b Hin.
    destruct (Hb b Hin) as [H|H]; [apply Hbs, H | exact H].
  - eapply colours_by_ident; eassumption.
Qed.

Lemma colours_delitem (k : Z) (d : Players) :
  colours_by_id d -> colours_by_id (delitem k d).
Proof.
  unfold colours_by_id. induction d as [|[k' p'] d IH]; cbn; intros Hc;
    [constructor|].
  apply Forall_cons_iff in Hc. destruct Hc as (H1 & H2).
  destruct (k' =? k); [exact H2|]. constructor; [exact H1 | apply IH, H2].
Qed.

Lemma colours_setitem (k : Z) (p : Player) (d : Players) :
  pl_color p = color_at k -> colours_by_id d -> colours_by_id (setitem k p d).
Proof.
  unfold colours_by_id. intros Hp. induction d as [|[k' p'] d IH]; cbn; intros Hc.
  - constructor; [exact Hp | constructor].
  - apply Forall_cons_iff in Hc. destruct Hc as (H1 & H2).
    destruct (Z.eqb_spec k' k) as [->|_]; constructor; auto.
Qed.

Lemma well_formed_cleanup (current_id : Z) (s : Server) :
  well_formed s -> well_formed (cleanup current_id s).
Proof.
  intros (Hb & Hc). unfold cleanup.
  destruct (lookup current_id (players s)) as [p|]; [|split; assumption].
  split; [exact Hb|]. cbn [players set_players _add_chat_message set_msg_history].
  apply colours_delitem, Hc.
Qed.

Lemma well_formed_step (e : event) (s : Server) (g : Rng) (s' : Server) (g' : Rng) :
  well_formed s -> step e s g = Some (s', g') -> well_formed s'.
Proof.
  intros Hw Hs.
  destruct e as [now|cid username|cid now command|cid]; cbn [step] in Hs.
  - injection Hs as <- <-. unfold accept. destruct (game_started s); exact Hw.
  - unfold handshake in Hs.
    destruct (_get_start_location _ g) as [[[x y] g1]|];
      cbn [drawn bind] in Hs; [|discriminate].
    injection Hs as <- <-. destruct Hw as (Hb & Hc). split; [exact Hb|].
    cbn [players set_players _add_chat_message set_msg_history fst snd].
    apply colours_setitem; [reflexivity | exact Hc].
  - pose proof (handle_command_settled cid now command s g) as He.
    destruct (handle_command cid now command s g) as [[[s1 g1] snap]|e s1 g1|];
      cbn in He; [| |discriminate]; injection Hs as <- <-.
    + eapply well_formed_settled; eassumption.
    + apply well_formed_cleanup. eapply well_formed_settled; eassumption.
  - injection Hs as <- <-. apply well_formed_cleanup, Hw.
Qed.

Lemma well_formed_run (es : list event) :
  forall s g s' g', well_formed s -> run es s g = Some (s', g') -> well_formed s'.
Proof.
  induction es as [|e es IH]; intros s g s' g' Hw Hr; cbn [run] in Hr.
  - injection Hr as <- <-. exact Hw.
  - destruct (step e s g) as [[s1 g1]|] eqn:Es; [|discriminate].
    eapply IH; [|exact Hr]. eapply well_formed_step; eassumption.
Qed.

(** X16. In every state the server reaches from its start, by any
    sequence of connections, handshakes, commands and disconnections,
    every ball lies at integer coordinates inside the world and has a
    colour of the palette, and every player has the palette colour its
    identifier selects, 14 identifiers apart sharing a colour. *)
Theorem world_stays_well_formed (g0 : Rng) (s0 : Server) (g1 : Rng)
    (es : list event) (g : Rng) (s1 : Server) (g2 : Rng) :
  startup g0 = Some (s0, g1) ->
  run es s0 g = Some (s1, g2) ->
  Forall ball_ok (balls s1)
  /\ (forall k p, lookup k (players s1) = Some p ->
        pl_color p = color_at k /\ In (pl_color p) COLORS
        /\ color_at (k + 14) = color_at k).
Proof.
  intros Hs Hr.
  assert (H0 : well_formed s0).
  { rewrite startup_eq in Hs.
    apply (well_formed_settled init); [eapply create_balls_settled; exact Hs|].
    split; constructor. }
  destruct (well_formed_run es s0 g s1 g2 H0 Hr) as (Hb & Hc).
  split; [exact Hb|]. intros k p Hl. apply lookup_in in Hl.
  unfold colours_by_id in Hc. rewrite Forall_forall in Hc.
  specialize (Hc _ Hl). cbn [fst snd] in Hc.
  split; [exact Hc|]. split; [rewrite Hc; apply color_at_in|].
  unfold color_at. change (Z.of_nat (List.length COLORS)) with 14.
  replace (k + 14) with (k + 1 * 14) by lia. rewrite Z_mod_plus_full. reflexivity.
Qed.

Lemma world_stays_well_formed_witness :
  Forall ball_ok (balls joined)
  /\ (forall k p, lookup k (players joined) = Some p ->
        pl_color p = color_at k /\ In (pl_color p) COLORS
        /\ color_at (k + 14) = color_at k).
Proof.
  exact (world_stays_well_formed pile_rng piled [] [Accept 0; Handshake 0 "ann"]
           [400; 400] joined [] piled_startup (joined_reachable [])).
Defined.

(** ** The clock *)

(** X17. While the round is off, before the first connection and after
    the time is up, an intent that is served scores nothing: the round
    stays off and the displayed time stays as it was, every player
    keeps its score, every player but the sender keeps its whole
    record, and no ball is eaten, the food of before being a prefix of
    the food of after. *)
Theorem idle_round_freezes_scores (current_id : Z) (now : R) (command : string)
    (s : Server) (g : Rng) (s' : Server) (g' : Rng) (snap : Snapshot) :
  game_started s = false ->
  handle_command current_id now command s g = Ok (s', g', snap) ->
  game_started s' = false
  /\ game_time s' = game_time s
  /\ (forall k, option_map pl_score (lookup k (players s'))
                = option_map pl_score (lookup k (players s)))
  /\ (forall k, k <> current_id -> lookup k (players s') = lookup k (players s))
  /\ exists new, balls s' = balls s ++ new.
Proof.
  intros Hoff Hc.
  pose proof (round_off_stays_off current_id now command s g Hoff) as Hr.
  rewrite Hc in Hr. cbn [ends command_state fst] in Hr.
  destruct Hr as (Hg & Ho & Hs).
  split; [exact Hg|].
  assert (Hrest : game_time s' = game_time s /\ exists new, balls s' = balls s ++ new).
  { unfold handle_command in Hc. rewrite (update_game_state_stopped now s Hoff) in Hc.
    destruct (Py.startswith command "move").
    - unfold handle_move in Hc.
      destruct (move_player current_id command s g) as [[s3 g3]|e s3 g3|] eqn:Em;
        cbn [bind] in Hc; try discriminate.
      destruct (replenish s3 g3) as [[s4 g4]|e s4 g4|] eqn:Er;
        cbn [bind] in Hc; try discriminate.
      injection Hc as <- <- <-.
      destruct (move_player_spec _ _ _ _ _ _ Em)
        as (t & x & y & xv & yv & p & _ & _ & _ & _ & Hif).
      cbv zeta in Hif. rewrite Hoff in Hif. destruct Hif as (-> & ->).
      destruct (replenish_spec _ _ _ _ Er) as (new & _ & Hsr & Hb & _).
      split; [apply Hsr | exists new; exact Hb].
    - destruct (Py.startswith command "msg").
      + unfold handle_msg in Hc.
        destruct (lookup current_id (players s)) as [p|]; cbn [bind] in Hc;
          [|discriminate].
        injection Hc as <- <- <-.
        split; [reflexivity | exists []; symmetry; apply app_nil_r].
      + cbn [bind] in Hc. injection Hc as <- <- <-.
        split; [reflexivity | exists []; symmetry; apply app_nil_r]. }
  destruct Hrest as (Ht & Hb).
  split; [exact Ht|]. split; [|split; [exact Ho | exact Hb]].
  intros k. destruct (Z.eq_dec k current_id) as [->|Hne];
    [exact Hs | rewrite (Ho k Hne); reflexivity].
Qed.

Lemma idle_round_freezes_scores_witness :
  game_started duel_expired = false
  /\ exists s', handle_command 0 301 "ping" duel_expired [] = Ok (s', [], snapshot s')
                /\ game_started s' = false
                /\ lookup 1 (players s') = lookup 1 (players duel_expired).
Proof.
  split; [reflexivity|].
  pose proof (handle_command_other 0 301 "ping" duel_expired [] eq_refl eq_refl) as Hc.
  destruct (idle_round_freezes_scores 0 301 "ping" duel_expired [] _ _ _ eq_refl Hc)
    as (H1 & _ & _ & H2 & _).
  eexists. split; [exact Hc|]. split; [exact H1 | apply H2; discriminate].
Defined.

(** X18. Mass losses are counted: each one raises the tick counter by
    one and no step of the server lowers it. So whatever happens in
    between, two mass losses never fall into the same interval of
    seven seconds of the clock: the later one has a strictly larger
    interval number. *)
Theorem mass_loss_intervals_increase (now : R) (s : Server) (es : list event)
    (g : Rng) (s' : Server) (g' : Rng) (now' : R) :
  mass_loss_due now s = true ->
  run es (_update_game_state now s) g = Some (s', g') ->
  mass_loss_due now' s' = true ->
  next_mass_loss_tick s < next_mass_loss_tick s'
  /\ Py.round (now - start_time s) / MASS_LOSS_TIME
     < Py.round (now' - start_time s') / MASS_LOSS_TIME.
Proof.
  intros Hd Hr Hd'.
  split; [|exact (mass_loss_once_per_interval now s es g s' g' now' Hd Hr Hd')].
  apply mass_loss_advances_tick in Hd. destruct Hd as (_ & Ht).
  pose proof (run_stable (fun st => next_mass_loss_tick s + 1
                                    <= next_mass_loss_tick st)
                (HP := tick_floor_stable (next_mass_loss_tick s + 1))
                es (_update_game_state now s) g s' g') as Hmono.
  cbv beta in Hmono. rewrite Ht in Hmono. specialize (Hmono (Z.le_refl _) Hr).
  lia.
Qed.

Lemma mass_loss_intervals_increase_witness :
  mass_loss_due 8 heavy = true
  /\ mass_loss_due 14 (_update_game_state 8 heavy) = true
  /\ Py.round (8 - start_time heavy) / MASS_LOSS_TIME
     < Py.round (14 - start_time (_update_game_state 8 heavy)) / MASS_LOSS_TIME.
Proof.
  assert (H8 : mass_loss_due 8 heavy = true).
  { unfold mass_loss_due. cbn [game_started start_time next_mass_loss_tick heavy].
    replace (8 - 0)%R with (IZR 8) by lra. rewrite round_IZR. reflexivity. }
  assert (H14 : mass_loss_due 14 (_update_game_state 8 heavy) = true).
  { rewrite (clock_at_second 8 heavy) by reflexivity.
    unfold mass_loss_due.
    cbn [game_started start_time next_mass_loss_tick heavy].
    replace (14 - 0)%R with (IZR 14) by lra. rewrite round_IZR. reflexivity. }
  split; [exact H8|]. split; [exact H14|].
  apply (mass_loss_intervals_increase 8 heavy [] [] _ [] 14 H8 eq_refl H14).
Defined.

Lemma round_below_300 (r : R) : Py.round r < 300 <-> (r < 2995 / 10)%R.
Proof.
  unfold Py.round. pose proof (Zfloor_bound r) as (Hlo & Hhi).
  remember (Zfloor r) as f eqn:Ef. clear Ef.
  assert (Hcases : f <= 298 \/ f = 299 \/ 300 <= f) by lia.
  destruct (Rlt_dec (r - IZR f) (1 / 2)) as [Hd|Hd].
  - destruct Hcases as [Hf|[Hf|Hf]].
    + pose proof (IZR_le _ _ Hf) as Hf'. split; [intros _; lra | intros _; lia].
    + subst f. split; [intros _; lra | intros _; lia].
    + pose proof (IZR_le _ _ Hf) as Hf'. split; [lia | lra].
  - destruct (Rlt_dec (1 / 2) (r - IZR f)) as [Hu|Hu].
    + destruct Hcases as [Hf|[Hf|Hf]].
      * pose proof (IZR_le _ _ Hf) as Hf'. split; [intros _; lra | intros _; lia].
      * subst f. split; [lia | lra].
      * pose proof (IZR_le _ _ Hf) as Hf'. split; [lia | lra].
    + assert (Hr : r = (IZR f + 1 / 2)%R) by lra.
      destruct Hcases as [Hf|[Hf|Hf]].
      * pose proof (IZR_le _ _ Hf) as Hf'.
        split; [intros _; lra | intros _; destruct (Z.even f); lia].
      * subst f. cbn [Z.even]. split; [lia | lra].
      * pose proof (IZR_le _ _ Hf) as Hf'.
        split; [destruct (Z.even f); lia | lra].
Qed.

(** X26. A running round is switched off by the first command that is
    processed 299.5 seconds or more after the clock was started, and by
    no command before: the time is rounded to the nearest second, the
    tie at 299.5 going up to the even 300. Once off, the clock update
    does nothing at all, so only a new connection starts it again. *)
Theorem round_ends_at_299_5 (now : R) (s : Server) :
  game_started s = true ->
  (game_started (_update_game_state now s) = true
   <-> (now - start_time s < 2995 / 10)%R)
  /\ (forall later,
        game_started (_update_game_state now s) = false ->
        _update_game_state later (_update_game_state now s)
        = _update_game_state now s).
Proof.
  intros Hon. split.
  - rewrite (update_game_state_eval now s _ Hon eq_refl). cbn [game_started].
    rewrite <- round_below_300. unfold ROUND_TIME.
    change (60 * 5) with 300.
    destruct (Z.leb_spec 300 (Py.round (now - start_time s))); cbn [negb];
      split; intros; try lia; try discriminate; reflexivity.
  - intros later Hoff. apply update_game_state_stopped. exact Hoff.
Qed.

Lemma round_ends_at_299_5_witness :
  game_started duel = true
  /\ game_started (_update_game_state (2995 / 10) duel) = false
  /\ game_started (_update_game_state 299 duel) = true.
Proof.
  destruct (round_ends_at_299_5 (2995 / 10) duel eq_refl) as (H1 & _).
  destruct (round_ends_at_299_5 299 duel eq_refl) as (H2 & _).
  split; [reflexivity|]. split.
  - destruct (game_started (_update_game_state (2995 / 10) duel));
      [|reflexivity].
    exfalso. assert (H : (2995 / 10 - start_time duel < 2995 / 10)%R)
      by (apply H1; reflexivity).
    cbn [start_time duel] in H. lra.
  - apply H2. cbn [start_time duel]. lra.
Defined.

End GameServerExtras.

(** * The client, and the client with the server *)

Module GameClientFacts.

Import GameServer GameServerProps Scenarios GameServerMoreProps GameServerFacts.
Import GameServerExtras GameClientProps.

(** ** Commands as the client writes them and the server reads them *)

Ltac eval_digit :=
  match goal with
  | |- context [Py.digit ?c] =>
      let v := eval vm_compute in (Py.digit c) in
      change (Py.digit c) with v; cbv iota beta
  end.

Lemma digits_acc (d : Decimal.uint) :
  forall acc : positive,
  Py.digits (Z.pos acc) true (NilEmpty.string_of_uint d)
  = Some (Z.pos (Pos.of_uint_acc d acc)).
Proof.
  induction d as [|d IH|d IH|d IH|d IH|d IH|d IH|d IH|d IH|d IH|d IH];
    intros acc;
    cbn [NilEmpty.string_of_uint Py.digits Pos.of_uint_acc];
    [reflexivity|..]; eval_digit; rewrite <- IH; f_equal; lia.
Qed.

Lemma digits_zero (d : Decimal.uint) :
  Py.digits 0 true (NilEmpty.string_of_uint d) = Some (Z.of_N (Pos.of_uint d)).
Proof.
  induction d as [|d IH|d IH|d IH|d IH|d IH|d IH|d IH|d IH|d IH|d IH];
    cbn [NilEmpty.string_of_uint Py.digits Pos.of_uint];
    [reflexivity|..]; eval_digit; [exact IH|..]; apply digits_acc.
Qed.

Lemma digits_start (d : Decimal.uint) :
  d <> Decimal.Nil ->
  Py.digits 0 false (NilEmpty.string_of_uint d) = Some (Z.of_N (Pos.of_uint d)).
Proof.
  destruct d; intros Hd; [contradiction|..];
    cbn [NilEmpty.string_of_uint Py.digits Pos.of_uint];
    eval_digit; [apply digits_zero|..]; apply digits_acc.
Qed.

Lemma int_unsigned (d : Decimal.uint) :
  Py.int (NilEmpty.string_of_uint d) = Py.digits 0 false (NilEmpty.string_of_uint d).
Proof. destruct d; reflexivity. Qed.

(** What the client formats, the server parses back. *)
Lemma int_str (n : Z) : Py.int (GameClient.str n) = Some n.
Proof.
  unfold GameClient.str. destruct n as [|p|p]; cbn [Z.to_int NilEmpty.string_of_int].
  - reflexivity.
  - rewrite int_unsigned, digits_start by apply Unsigned.to_uint_nonnil.
    rewrite Unsigned.of_to. reflexivity.
  - cbn [Py.int]. rewrite digits_start by apply Unsigned.to_uint_nonnil.
    rewrite Unsigned.of_to. reflexivity.
Qed.


Lemma append_empty (s : string) : (s ++ EmptyString)%string = s.
Proof. induction s as [|c s IH]; cbn; [reflexivity | now rewrite IH]. Qed.

Lemma append_assoc (a b c : string) :
  ((a ++ b) ++ c)%string = (a ++ (b ++ c))%string.
Proof. induction a as [|x a IH]; cbn; [reflexivity | now rewrite IH]. Qed.

Lemma split_aux_token (tok : string) :
  forall cur rest,
  no_space tok ->
  Py.split_aux cur (tok ++ rest) = Py.split_aux (cur ++ tok) rest.
Proof.
  induction tok as [|c tok IH]; intros cur rest Hn.
  - rewrite append_empty. reflexivity.
  - unfold no_space in Hn. cbn [list_ascii_of_string] in Hn.
    apply Forall_cons_iff in Hn. destruct Hn as (Hc & Hn).
    cbn [append Py.split_aux]. rewrite Hc.
    rewrite (IH _ _ Hn), append_assoc. reflexivity.
Qed.

Lemma split_aux_space (cur rest : string) :
  cur <> EmptyString ->
  Py.split_aux cur (String " " rest) = cur :: Py.split_aux EmptyString rest.
Proof.
  intros Hc. cbn [Py.split_aux]. change (Py.isspace " ") with true. cbv iota.
  destruct cur; [contradiction | reflexivity].
Qed.

Lemma split_aux_end (cur : string) :
  cur <> EmptyString -> Py.split_aux cur EmptyString = [cur].
Proof. intros Hc. destruct cur; [contradiction | reflexivity]. Qed.

Lemma uint_no_space (d : Decimal.uint) : no_space (NilEmpty.string_of_uint d).
Proof.
  unfold no_space.
  induction d; cbn [NilEmpty.string_of_uint list_ascii_of_string];
    constructor; auto.
Qed.

Lemma str_no_space (n : Z) : no_space (GameClient.str n).
Proof.
  unfold GameClient.str.
  destruct n as [|p|p]; cbn [Z.to_int NilEmpty.string_of_int].
  - apply (uint_no_space (Decimal.D0 Decimal.Nil)).
  - apply uint_no_space.
  - constructor; [reflexivity | apply uint_no_space].
Qed.

Lemma str_nonempty (n : Z) : GameClient.str n <> EmptyString.
Proof.
  unfold GameClient.str.
  destruct n as [|p|p]; cbn [Z.to_int NilEmpty.string_of_int]; try discriminate.
  pose proof (Unsigned.to_uint_nonnil p) as Hn.
  destruct (Pos.to_uint p); [contradiction|..]; discriminate.
Qed.

Lemma split_move_command (x y : Z) :
  Py.split (GameClient.move_command x y)
  = ["move"; GameClient.str x; GameClient.str y].
Proof.
  unfold Py.split, GameClient.move_command.
  change ("move " ++ GameClient.str x ++ " " ++ GameClient.str y)%string
    with ("move" ++ String " " (GameClient.str x
                                ++ String " " (GameClient.str y)))%string.
  rewrite (split_aux_token "move") by (repeat constructor).
  rewrite split_aux_space by discriminate.
  rewrite (split_aux_token (GameClient.str x)) by apply str_no_space.
  rewrite split_aux_space by apply str_nonempty.
  rewrite <- (append_empty (GameClient.str y)) at 1.
  rewrite (split_aux_token (GameClient.str y)) by apply str_no_space.
  rewrite split_aux_end by apply str_nonempty.
  reflexivity.
Qed.

Lemma startswith_move_command (x y : Z) :
  Py.startswith (GameClient.move_command x y) "move" = true.
Proof. reflexivity. Qed.

(** X19. The move command the client formats from two integers is
    always one the server can read: it starts with [move], splits into
    three fields, and the last two are parsed back to the same
    integers, negative ones included. Sent by a registered player, it
    therefore never ends the session for being malformed: it puts the
    player at those coordinates, and collisions are resolved there if
    the round is on. *)
Theorem client_move_is_read_back (x y : Z) (current_id : Z) (s : Server)
    (g : Rng) (p : Player) :
  lookup current_id (players s) = Some p ->
  Py.startswith (GameClient.move_command x y) "move" = true
  /\ readable_move (GameClient.move_command x y)
  /\ Py.int (GameClient.str x) = Some x
  /\ move_player current_id (GameClient.move_command x y) s g
     = if game_started s
       then _check_collisions current_id (placed current_id x y s) g
       else Ok (placed current_id x y s, g).
Proof.
  intros Hl. split; [apply startswith_move_command|].
  split.
  { exists "move", (GameClient.str x), (GameClient.str y), x, y.
    split; [apply split_move_command|]. split; apply int_str. }
  split; [apply int_str|].
  exact (move_player_eval current_id _ s g _ _ _ x y p
           (split_move_command x y) (int_str x) (int_str y) Hl).
Qed.

Lemma client_move_is_read_back_witness :
  lookup 0 (players duel) = Some (ann 100 100 20)
  /\ Py.int (GameClient.str (-35)) = Some (-35)
  /\ readable_move (GameClient.move_command (-35) 1200).
Proof.
  split; [reflexivity|].
  destruct (client_move_is_read_back (-35) 1200 0 duel [] (ann 100 100 20) eq_refl)
    as (_ & Hr & Hi & _).
  split; [exact Hi | exact Hr].
Defined.

(** X20. A chat line the client sends is logged verbatim, when it is
    short enough to reach the server in the one read it makes for a
    command: the command the client formats from a non-empty input is
    served as a chat intent, and the entry added to the log is the
    sender's name, a colon, a space and the input exactly as typed,
    spaces included. An empty input sends nothing. *)
Theorem client_chat_is_logged_verbatim (chat_input : string) (current_id : Z)
    (now : R) (s : Server) (g : Rng) (p : Player) :
  chat_input <> EmptyString ->
  fits_one_read chat_input ->
  lookup current_id (players s) = Some p ->
  GameClient.chat_command EmptyString = None
  /\ exists command s',
       GameClient.chat_command chat_input = Some command
       /\ handle_command current_id now command s g = Ok (s', g, snapshot s')
       /\ msg_history s'
          = msg_history
              (_add_chat_message (pl_name p ++ ": " ++ chat_input)%string s).
Proof.
  intros Hne _ Hl. split; [reflexivity|].
  exists ("msg " ++ chat_input)%string.
  destruct (clock_keeps_name current_id now s p Hl) as (p1 & Hl1 & Hn).
  eexists. split; [destruct chat_input; [contradiction | reflexivity]|].
  split.
  - unfold handle_command.
    change (Py.startswith ("msg " ++ chat_input) "move") with false.
    change (Py.startswith ("msg " ++ chat_input) "msg") with true.
    cbv iota. unfold handle_msg. rewrite Hl1, Hn. cbn [bind]. reflexivity.
  - change (Py.drop 4 ("msg " ++ chat_input)) with chat_input.
    unfold _add_chat_message. cbn [msg_history set_msg_history].
    destruct (update_game_state_frame now s) as (_ & -> & _). reflexivity.
Qed.

Lemma client_chat_is_logged_verbatim_witness :
  fits_one_read "good game"
  /\ exists command s',
       GameClient.chat_command "good game" = Some command
       /\ handle_command 1 5 command duel [] = Ok (s', [], snapshot s')
       /\ msg_history s' = msg_history duel ++ ["bob: good game"].
Proof.
  assert (Hfit : fits_one_read "good game")
    by (unfold fits_one_read; cbn [String.length]; lia).
  split; [exact Hfit|].
  destruct (client_chat_is_logged_verbatim "good game" 1 5 duel []
              (bob 105 100 10)) as (_ & command & s' & H1 & H2 & H3);
    [discriminate | exact Hfit | reflexivity |].
  exists command, s'. split; [exact H1|]. split; [exact H2|].
  rewrite H3. reflexivity.
Defined.

(** ** The movement of a frame *)

Lemma int_of_float_nonneg (v : R) :
  (0 <= v)%R ->
  (IZR (GameClient.int_of_float v) <= v < IZR (GameClient.int_of_float v) + 1)%R.
Proof.
  intros Hv. unfold GameClient.int_of_float.
  replace (Py.Rleb 0 v) with true by (symmetry; apply Rleb_true; exact Hv).
  apply Zfloor_bound.
Qed.

Lemma int_of_float_IZR (n : Z) : GameClient.int_of_float (IZR n) = n.
Proof.
  unfold GameClient.int_of_float.
  destruct (Py.Rleb 0 (IZR n)); [apply ZfloorZ | apply Zceil_eq; lra].
Qed.

Lemma towards_mouse_eq (mouse_x mouse_y : Z) (p : Player) :
  GameClient.towards_mouse mouse_x mouse_y p
  = ((IZR mouse_x - 640)%R, (IZR mouse_y - 360)%R).
Proof.
  unfold GameClient.towards_mouse, GameClient.WIDTH, GameClient.HEIGHT.
  f_equal; lra.
Qed.

(** X21. The boundary check of the client keeps a coordinate at least
    one radius from the low edge, always. When the world is at least
    two radii wide it also keeps it one radius from the high edge, and
    leaves alone a coordinate that is already in that range. When the
    player is wider than the world, the check pins the coordinate at
    one radius from the low edge, beyond the bound of the high edge. *)
Theorem clamp_keeps_in_bounds (radius limit v : R) :
  (radius <= GameClient.clamp radius limit v)%R
  /\ ((2 * radius <= limit)%R ->
      (GameClient.clamp radius limit v <= limit - radius)%R
      /\ ((radius <= v <= limit - radius)%R -> GameClient.clamp radius limit v = v))
  /\ ((limit < 2 * radius)%R ->
      GameClient.clamp radius limit v = radius
      /\ (limit - radius < GameClient.clamp radius limit v)%R).
Proof.
  unfold GameClient.clamp, Rmax, Rmin.
  destruct (Rle_dec v (limit - radius));
    destruct (Rle_dec radius _); repeat split; intros; lra.
Qed.

(** X22. The speed of a player is at least 2 whatever its score, at
    most 6 when its score is not negative, it does not grow with the
    score, and it is 2 from a score of 80 on. *)
Theorem speed_bounds (score : R) :
  (2 <= GameClient.speed score)%R
  /\ ((0 <= score)%R -> (GameClient.speed score <= 6)%R)
  /\ ((80 <= score)%R -> GameClient.speed score = 2%R)
  /\ (forall score', (score <= score')%R ->
        (GameClient.speed score' <= GameClient.speed score)%R).
Proof.
  unfold GameClient.speed, Rmax. repeat split.
  - destruct (Rle_dec 2 (6 - score / 20)); lra.
  - intros H. destruct (Rle_dec 2 (6 - score / 20)); lra.
  - intros H. destruct (Rle_dec 2 (6 - score / 20)); lra.
  - intros score' H.
    destruct (Rle_dec 2 (6 - score / 20)); destruct (Rle_dec 2 (6 - score' / 20));
      lra.
Qed.

(** X23. A frame in which the client moves its player, the mouse being
    more than one unit from the centre of the window, sends a position
    that the boundary check and the truncation to integers leave less
    than one unit short of the radius from the left and top edges, and
    at least the radius from the right and bottom edges. This holds
    for scores from 0 to 353, for which the world is two radii high,
    and for a player within [2^52] of the origin, in or out of the
    world. *)
Theorem moving_frame_stays_in_world (mouse_x mouse_y : Z) (p : Player) :
  near_origin p ->
  (0 <= pl_score p <= 353)%R ->
  (1 < sqrt ((IZR mouse_x - 640) * (IZR mouse_x - 640)
             + (IZR mouse_y - 360) * (IZR mouse_y - 360)))%R ->
  exists xv yv,
    GameClient.frame_command false mouse_x mouse_y (Some p)
    = Some (GameClient.move_command xv yv)
    /\ (7 + pl_score p - 1 < IZR xv <= 850 - (7 + pl_score p))%R
    /\ (7 + pl_score p - 1 < IZR yv <= 720 - (7 + pl_score p))%R.
Proof.
  intros _ Hs Hd.
  unfold GameClient.frame_command, GameClient.moved. cbn [negb].
  rewrite towards_mouse_eq.
  replace (Py.Rltb 1 _) with true by (symmetry; apply Rltb_true; exact Hd).
  cbv zeta.
  set (x1 := (IZR (pl_x p) + _)%R). set (y1 := (IZR (pl_y p) + _)%R).
  change (IZR (fst GameClient.world_size)) with 850%R.
  change (IZR (snd GameClient.world_size)) with 720%R.
  unfold GameClient.START_RADIUS.
  set (r := (7 + pl_score p)%R).
  destruct (clamp_keeps_in_bounds r 850 x1) as (Hx1 & Hx2 & _).
  destruct (clamp_keeps_in_bounds r 720 y1) as (Hy1 & Hy2 & _).
  assert (Hr : (7 <= r <= 360)%R) by (unfold r; lra).
  destruct Hx2 as (Hx2 & _); [lra|]. destruct Hy2 as (Hy2 & _); [lra|].
  pose proof (int_of_float_nonneg (GameClient.clamp r 850 x1)) as Hix.
  pose proof (int_of_float_nonneg (GameClient.clamp r 720 y1)) as Hiy.
  eexists. eexists. split; [reflexivity|]. split; lra.
Qed.

Lemma moving_frame_stays_in_world_witness :
  near_origin (ann 0 0 20)
  /\ exists xv yv,
       GameClient.frame_command false 700 360 (Some (ann 0 0 20))
       = Some (GameClient.move_command xv yv)
       /\ (7 + 20 - 1 < IZR xv <= 850 - (7 + 20))%R
       /\ (7 + 20 - 1 < IZR yv <= 720 - (7 + 20))%R.
Proof.
  assert (Hn : near_origin (ann 0 0 20))
    by (unfold near_origin; cbn [pl_x pl_y ann]; split; discriminate).
  split; [exact Hn|].
  apply (moving_frame_stays_in_world 700 360 (ann 0 0 20) Hn).
  - cbn. lra.
  - replace ((700 - 640) * (700 - 640) + (360 - 360) * (360 - 360))%R
      with (60 * 60)%R by lra.
    rewrite sqrt_square; lra.
Defined.

(** X24. A frame in which the client does not move its player, because
    the chat input is open or because the mouse is within one unit of
    the centre of the window, sends the position the server gave back,
    unchanged: no boundary check is applied to it. *)
Theorem still_frame_repeats_position (is_chatting : bool) (mouse_x mouse_y : Z)
    (p : Player) :
  is_chatting = true
  \/ (sqrt ((IZR mouse_x - 640) * (IZR mouse_x - 640)
            + (IZR mouse_y - 360) * (IZR mouse_y - 360)) <= 1)%R ->
  GameClient.frame_command is_chatting mouse_x mouse_y (Some p)
  = Some (GameClient.move_command (pl_x p) (pl_y p)).
Proof.
  intros Hstill. unfold GameClient.frame_command.
  assert (E : (if negb is_chatting then GameClient.moved mouse_x mouse_y p
               else (IZR (pl_x p), IZR (pl_y p)))
              = (IZR (pl_x p), IZR (pl_y p))).
  { destruct is_chatting; [reflexivity|]. cbn [negb].
    destruct Hstill as [Hc|Hd]; [discriminate|].
    unfold GameClient.moved. rewrite towards_mouse_eq.
    replace (Py.Rltb 1 _) with false by (symmetry; apply Rltb_false; exact Hd).
    reflexivity. }
  rewrite E. rewrite !int_of_float_IZR. reflexivity.
Qed.

Lemma still_frame_repeats_position_witness :
  GameClient.frame_command false 640 360 (Some (ann 0 0 20))
  = Some (GameClient.move_command 0 0).
Proof.
  apply (still_frame_repeats_position false 640 360 (ann 0 0 20)).
  right. replace ((640 - 640) * (640 - 640) + (360 - 360) * (360 - 360))%R
    with 0%R by lra.
  rewrite sqrt_0. lra.
Defined.

(** X25. On the minimap a player that is inside the world is drawn
    inside the map: each coordinate of its dot is a whole number from
    0 to 149. A coordinate at or beyond the far edge of the world gives
    150 or more, outside the map. *)
Theorem minimap_dot_is_on_the_map (v limit : Z) :
  0 < limit ->
  (0 <= v < limit -> 0 <= GameClient.minimap_coord v limit < 150)
  /\ (limit <= v -> 150 <= GameClient.minimap_coord v limit).
Proof.
  intros Hl. unfold GameClient.minimap_coord.
  assert (Hlr : (0 < IZR limit)%R) by (apply IZR_lt in Hl; exact Hl).
  set (q := (IZR v / IZR limit * 150)%R).
  assert (Hq : (q * IZR limit = IZR v * 150)%R) by (unfold q; field; lra).
  split.
  - intros (H0 & H1). apply IZR_le in H0. apply IZR_lt in H1.
    assert (Hq0 : (0 <= q)%R).
    { unfold q. apply Rmult_le_pos; [|lra].
      apply Rmult_le_pos; [lra|]. left. apply Rinv_0_lt_compat, Hlr. }
    assert (Hq1 : (q < 150)%R) by nra.
    pose proof (int_of_float_nonneg q Hq0) as (Ha & Hb).
    split.
    + unfold GameClient.int_of_float.
      replace (Py.Rleb 0 q) with true by (symmetry; apply Rleb_true; exact Hq0).
      apply Zfloor_lub. exact Hq0.
    + apply lt_IZR. lra.
  - intros Hv. apply IZR_le in Hv.
    assert (Hq1 : (150 <= q)%R) by nra.
    unfold GameClient.int_of_float.
    replace (Py.Rleb 0 q) with true by (symmetry; apply Rleb_true; lra).
    apply Zfloor_lub. exact Hq1.
Qed.

Lemma minimap_dot_is_on_the_map_witness :
  0 <= GameClient.minimap_coord 849 850 < 150.
Proof.
  apply (minimap_dot_is_on_the_map 849 850); lia.
Defined.

(** ** The start menu *)

Lemma length_append (a b : string) :
  String.length (a ++ b) = (String.length a + String.length b)%nat.
Proof. induction a as [|c a IH]; cbn; [reflexivity | now rewrite IH]. Qed.

Lemma length_drop_last (s : string) :
  (String.length (GameClient.drop_last s) <= String.length s)%nat.
Proof.
  induction s as [|c s IH]; cbn; [lia|].
  destruct s as [|c' s']; [cbn; lia|].
  cbn [String.length] in *. lia.
Qed.

Lemma menu_event_short (e : GameClient.Event) (u : string) (r : bool)
    (u' : string) (r' : bool) :
  one_char e -> (String.length u <= 15)%nat ->
  GameClient.menu_event e (u, r) = Some (u', r') ->
  (String.length u' <= 15)%nat.
Proof.
  intros He Hu Hm.
  destruct e as [|key unicode|]; cbn [GameClient.menu_event one_char] in Hm, He.
  - discriminate.
  - destruct (_ && _)%bool; [injection Hm as <- _; exact Hu|].
    destruct key.
    + destruct (Nat.ltb_spec (String.length u) 15); injection Hm as <- _;
        [rewrite length_append; lia | exact Hu].
    + injection Hm as <- _. pose proof (length_drop_last u). lia.
    + destruct (Nat.ltb_spec (String.length u) 15); injection Hm as <- _;
        [rewrite length_append; lia | exact Hu].
  - injection Hm as <- _. exact Hu.
Qed.

Lemma menu_batch_short (events : list GameClient.Event) :
  forall u r u' r',
  Forall one_char events -> (String.length u <= 15)%nat ->
  GameClient.menu_batch events (u, r) = Some (u', r') ->
  (String.length u' <= 15)%nat.
Proof.
  induction events as [|e events IH]; intros u r u' r' Hk Hu Hm;
    cbn [GameClient.menu_batch] in Hm.
  - injection Hm as <- _. exact Hu.
  - apply Forall_cons_iff in Hk. destruct Hk as (He & Hk).
    destruct (GameClient.menu_event e (u, r)) as [[u1 r1]|] eqn:E1; [|discriminate].
    eapply IH; [exact Hk | | exact Hm].
    eapply menu_event_short; eassumption.
Qed.

Lemma menu_event_closes (e : GameClient.Event) (u u' : string) :
  GameClient.menu_event e (u, true) = Some (u', false) ->
  u' = u /\ (2 < String.length u)%nat.
Proof.
  intros Hm. destruct e as [|key unicode|]; cbn [GameClient.menu_event] in Hm;
    try discriminate.
  destruct key; cbn [andb] in Hm.
  - destruct (Nat.ltb_spec 2 (String.length u)).
    + injection Hm as <-. split; [reflexivity | assumption].
    + destruct (String.length u <? 15)%nat; discriminate.
  - discriminate.
  - destruct (String.length u <? 15)%nat; discriminate.
Qed.

(** X27. The name the start menu ends with has at most 15 characters
    when every key pressed produces at most one. It has more than 2
    characters when the events come one per batch; but the loop over a
    batch goes on after the Return that closes the menu, so a Backspace
    that arrives in the same batch still shortens the name that is
    sent. A Return on a name of at most 2 characters is taken as an
    ordinary key and appends its own character. *)
Theorem menu_name_length (batches : list (list GameClient.Event)) (name : string) :
  GameClient.menu batches EmptyString = Some name ->
  (Forall (Forall one_char) batches -> (String.length name <= 15)%nat)
  /\ (Forall (fun b => (List.length b <= 1)%nat) batches ->
      (2 < String.length name)%nat)
  /\ GameClient.menu
       [[GameClient.KEYDOWN GameClient.K_other "a";
         GameClient.KEYDOWN GameClient.K_other "n";
         GameClient.KEYDOWN GameClient.K_other "n";
         GameClient.KEYDOWN GameClient.K_RETURN "x";
         GameClient.KEYDOWN GameClient.K_BACKSPACE EmptyString]] EmptyString
     = Some "an"
  /\ forall unicode u,
       (String.length u <= 2)%nat ->
       GameClient.menu_event (GameClient.KEYDOWN GameClient.K_RETURN unicode)
         (u, true)
       = Some ((u ++ unicode)%string, true).
Proof.
  intros Hm. split; [|split; [|split]].
  - intros Hk.
    assert (Hgen : forall u, (String.length u <= 15)%nat ->
                     GameClient.menu batches u = Some name ->
                     (String.length name <= 15)%nat).
    { clear Hm.
      induction Hk as [|b bs Hb _ IH]; intros u Hu Hr; cbn [GameClient.menu] in Hr;
        [discriminate|].
      destruct (GameClient.menu_batch b (u, true)) as [[u1 [|]]|] eqn:E1;
        [| |discriminate];
        pose proof (menu_batch_short b u true u1 _ Hb Hu E1) as H1.
      - exact (IH u1 H1 Hr).
      - injection Hr as <-. exact H1. }
    apply (Hgen EmptyString); [cbn; lia | exact Hm].
  - intros Hone. revert Hm. generalize EmptyString as u.
    induction Hone as [|b bs Hb _ IH]; intros u Hr; cbn [GameClient.menu] in Hr;
      [discriminate|].
    destruct b as [|e [|e' b']]; [| |cbn in Hb; lia];
      cbn [GameClient.menu_batch] in Hr.
    + exact (IH u Hr).
    + destruct (GameClient.menu_event e (u, true)) as [[u1 [|]]|] eqn:E1;
        [| |discriminate].
      * exact (IH u1 Hr).
      * injection Hr as <-. apply menu_event_closes in E1.
        destruct E1 as (-> & Hlen). exact Hlen.
  - reflexivity.
  - intros unicode u Hu. cbn [GameClient.menu_event].
    destruct (Nat.ltb_spec 2 (String.length u)); [lia|]. cbn [andb].
    destruct (Nat.ltb_spec (String.length u) 15); [reflexivity | lia].
Qed.

Lemma menu_name_length_witness :
  (String.length "ann" <= 15)%nat /\ (2 < String.length "ann")%nat.
Proof.
  destruct (menu_name_length
              [[GameClient.KEYDOWN GameClient.K_other "a"];
               [GameClient.KEYDOWN GameClient.K_other "n"];
               [GameClient.other_event];
               [GameClient.KEYDOWN GameClient.K_other "n"];
               [GameClient.KEYDOWN GameClient.K_RETURN "x"]] "ann" eq_refl)
    as (H1 & H2 & _).
  split.
  - apply H1. repeat constructor.
  - apply H2. repeat constructor.
Defined.

End GameClientFacts.
